(** * Spawn SDK: policy decisions, glob matching, sub-agent registry and
      reply correlation

    A shallow embedding of [sdk/spawn/__init__.py] and of the handlers of
    [sdk/examples/clawdbot_integration.py].  Python [str] values are
    Rocq strings (sequences of code points below 256), Python lists are
    lists, dictionaries are [gmap]s, and a call that may raise returns a
    [result].  Mutable class attributes and the connection are fields of an
    explicit state record that every operation threads through. *)

From Stdlib Require Import ZArith Ascii String.
From stdpp Require Import base option list strings pretty gmap.

Local Open Scope string_scope.
Local Open Scope Z_scope.

(** ** Exceptions and results *)

Inductive exn :=
| PermissionError (msg : string)
| IndexError
| KeyError
| AttributeError
| TypeError
| InvalidStateError
| re_error.

Inductive result (A : Type) :=
| Ret (a : A)
| Raise (e : exn).
Arguments Ret {A} a.
Arguments Raise {A} e.

#[global] Instance result_ret : MRet result := fun A a => Ret a.
#[global] Instance result_bind : MBind result := fun A B f m =>
  match m with
  | Ret a => f a
  | Raise e => Raise e
  end.

(** ** Strings *)

Definition LF : ascii := ascii_of_nat 10.

(** [bool(s)] for a [str]: the empty string is falsy. *)
Definition truthy (s : string) : bool :=
  match s with
  | EmptyString => false
  | String _ _ => true
  end.

(** [s.startswith(p)] *)
Fixpoint startswith (s p : string) {struct p} : bool :=
  match p with
  | EmptyString => true
  | String c p' =>
      match s with
      | EmptyString => false
      | String d s' => bool_decide (c = d) && startswith s' p'
      end
  end.

(** [s.replace(old, new)] for a non-empty [old] (every call site passes a
    non-empty literal): scan left to right, replace each occurrence and
    resume after it.  [skip] counts the characters of a replaced occurrence
    that are still to be dropped. *)
Fixpoint replace_from (skip : nat) (s old new : string) : string :=
  match s with
  | EmptyString => EmptyString
  | String c s' =>
      match skip with
      | S k => replace_from k s' old new
      | O =>
          if startswith s old
          then new ++ replace_from (String.length old - 1) s' old new
          else String c (replace_from O s' old new)
      end
  end.

Definition replace (s old new : string) : string := replace_from O s old new.

(** [str.isspace] on one code point below 256. *)
Definition isspace (c : ascii) : bool :=
  let n := nat_of_ascii c in
  ((9 <=? n) && (n <=? 13) || (28 <=? n) && (n <=? 32)
   || (n =? 133) || (n =? 160))%nat.

(** [s.split()] with no separator: the maximal runs of non-whitespace.
    [cur] is the run being read, if any. *)
Fixpoint split_from (cur : option string) (s : string) : list string :=
  match s with
  | EmptyString =>
      match cur with
      | Some w => [w]
      | None => []
      end
  | String c s' =>
      if isspace c
      then match cur with
           | Some w => w :: split_from None s'
           | None => split_from None s'
           end
      else split_from (Some (default EmptyString cur ++ String c EmptyString)) s'
  end.

Definition split (s : string) : list string := split_from None s.

(** [c.lower()] on one code point below 256. *)
Definition lower_char (c : ascii) : ascii :=
  let n := nat_of_ascii c in
  if ((65 <=? n) && (n <=? 90)
      || (192 <=? n) && (n <=? 222) && negb (n =? 215))%nat
  then ascii_of_nat (n + 32)
  else c.

Fixpoint lower (s : string) : string :=
  match s with
  | EmptyString => EmptyString
  | String c s' => String (lower_char c) (lower s')
  end.

(** [s[:n]] *)
Fixpoint str_take (n : nat) (s : string) : string :=
  match n, s with
  | S k, String c s' => String c (str_take k s')
  | _, _ => EmptyString
  end.

(** ** The regular expressions [_match_glob] builds

    [re.match] is modelled on the fragment that the glob translation
    produces from patterns free of other regex metacharacters: literal
    characters, the escaped dot, [.], the class [[^/]], a star after one
    of these, and the anchors.  No flags are passed, so [.] rejects the
    line feed and [$] holds at the end of the subject or just before a
    final line feed. *)

Inductive cclass :=
| CLit (c : ascii)
| CAny
| CNotSlash.

Inductive token :=
| TBol
| TEol
| TCls (k : cclass)
| TStar.

Inductive item :=
| IBol
| IEol
| IOne (k : cclass)
| IStar (k : cclass).

Definition cclass_matches (k : cclass) (x : ascii) : bool :=
  match k with
  | CLit c => bool_decide (x = c)
  | CAny => negb (bool_decide (x = LF))
  | CNotSlash => negb (bool_decide (x = "/"%char))
  end.

Definition is_meta (c : ascii) : bool :=
  bool_decide (c ∈ ["+"; "?"; "{"; "}"; "("; ")"; "|"; "]"; "["; "\"]%char).

(** The lexer gives up ([None]) on anything outside the fragment. *)
Fixpoint lex (s : string) : option (list token) :=
  match s with
  | EmptyString => Some []
  | String "^" r => cons TBol <$> lex r
  | String "$" r => cons TEol <$> lex r
  | String "." r => cons (TCls CAny) <$> lex r
  | String "*" r => cons TStar <$> lex r
  | String "\" (String "." r) => cons (TCls (CLit ".")) <$> lex r
  | String "[" (String "^" (String "/" (String "]" r))) =>
      cons (TCls CNotSlash) <$> lex r
  | String c r => if is_meta c then None else cons (TCls (CLit c)) <$> lex r
  end.

(** A star must follow a character or class; after an anchor, another star
    or nothing, Python reports an error, which is outside the fragment. *)
Fixpoint quantify (ts : list token) : option (list item) :=
  match ts with
  | [] => Some []
  | TCls k :: TStar :: r => cons (IStar k) <$> quantify r
  | TCls k :: r => cons (IOne k) <$> quantify r
  | TBol :: r => cons IBol <$> quantify r
  | TEol :: r => cons IEol <$> quantify r
  | TStar :: _ => None
  end.

Definition compile (regex : string) : option (list item) :=
  lex regex ≫= quantify.

Definition at_eol (s : string) : bool :=
  match s with
  | EmptyString => true
  | String c EmptyString => bool_decide (c = LF)
  | _ => false
  end.

(** A starred class: take characters of the class while some way of going
    on with [rest] may still succeed. *)
Fixpoint match_star (k : cclass) (rest : bool → string → bool)
    (bos : bool) (s : string) : bool :=
  match s with
  | EmptyString => rest bos s
  | String x s' => (cclass_matches k x && match_star k rest false s') || rest bos s
  end.

(** Backtracking match of [r] at the current position; [bos] tells whether
    that position is the start of the subject.  [re.match] succeeds as soon
    as the expression is exhausted. *)
Fixpoint match_here (r : list item) : bool → string → bool :=
  match r with
  | [] => fun _ _ => true
  | IBol :: r' => fun bos s => bos && match_here r' bos s
  | IEol :: r' => fun bos s => at_eol s && match_here r' bos s
  | IOne k :: r' => fun _ s =>
      match s with
      | EmptyString => false
      | String x s' => cclass_matches k x && match_here r' false s'
      end
  | IStar k :: r' => match_star k (match_here r')
  end.

(** ** Glob patterns as the specification reads them

    A pattern is a sequence of literal characters, [*] and [**]; the match
    is anchored at both ends, [*] stands for any run of characters free of
    the separator and [**] for any run of characters. *)

Inductive gtok :=
| GChar (c : ascii)
| GStar
| GStarStar.

Fixpoint glob_tokens (pattern : string) : list gtok :=
  match pattern with
  | EmptyString => []
  | String "*" (String "*" r) => GStarStar :: glob_tokens r
  | String "*" r => GStar :: glob_tokens r
  | String c r => GChar c :: glob_tokens r
  end.

Fixpoint has_char (c : ascii) (s : string) : bool :=
  match s with
  | EmptyString => false
  | String x s' => bool_decide (x = c) || has_char c s'
  end.

Inductive glob_matches : list gtok → string → Prop :=
| glob_end : glob_matches [] ""
| glob_char c ts s :
    glob_matches ts s → glob_matches (GChar c :: ts) (String c s)
| glob_star ts run s :
    has_char "/" run = false → glob_matches ts s →
    glob_matches (GStar :: ts) (run ++ s)
| glob_star_star ts run s :
    glob_matches ts s → glob_matches (GStarStar :: ts) (run ++ s).

(** The patterns on which the translation to a regular expression is
    meant to work: no character that the regex syntax reads specially apart
    from the dot and the star, and no [<], the first character of the
    placeholder. *)
Definition plain_char (c : ascii) : bool :=
  negb (is_meta c) && negb (bool_decide (c ∈ ["^"; "$"; "<"]%char)).

Fixpoint plain_pattern (pattern : string) : bool :=
  match pattern with
  | EmptyString => true
  | String c r => plain_char c && plain_pattern r
  end.

(** The text each step of the translation writes for a token. *)
Definition render (f : gtok → string) (ts : list gtok) : string :=
  foldr (λ t acc, f t ++ acc) "" ts.

Definition chunk_source (t : gtok) : string :=
  match t with
  | GChar c => String c ""
  | GStar => "*"
  | GStarStar => "**"
  end.

Definition chunk_escaped (t : gtok) : string :=
  match t with
  | GChar "." => "\."
  | _ => chunk_source t
  end.

Definition chunk_marked (t : gtok) : string :=
  match t with
  | GStarStar => "<<<DOUBLESTAR>>>"
  | _ => chunk_escaped t
  end.

Definition chunk_starred (t : gtok) : string :=
  match t with
  | GStar => "[^/]*"
  | _ => chunk_marked t
  end.

Definition chunk_regex (t : gtok) : string :=
  match t with
  | GStarStar => ".*"
  | _ => chunk_starred t
  end.

Definition tokens_of (t : gtok) : list token :=
  match t with
  | GChar c => [TCls (CLit c)]
  | GStar => [TCls CNotSlash; TStar]
  | GStarStar => [TCls CAny; TStar]
  end.

Definition item_of (t : gtok) : item :=
  match t with
  | GChar c => IOne (CLit c)
  | GStar => IStar CNotSlash
  | GStarStar => IStar CAny
  end.

(** *** Reading the translation token by token

    What follows serves the proofs about [_match_glob]. *)

Definition not_star_head (s : string) : bool :=
  match s with
  | String c _ => negb (bool_decide (c = "*"%char))
  | EmptyString => true
  end.

(** [tokenizes pattern ts]: [ts] are the tokens of a plain pattern, a lone
    star being one that no star follows. *)
Inductive tokenizes : string → list gtok → Prop :=
| tz_nil : tokenizes "" []
| tz_char c r ts :
    c ≠ "*"%char → plain_char c = true → tokenizes r ts →
    tokenizes (String c r) (GChar c :: ts)
| tz_star s ts :
    not_star_head s = true → tokenizes s ts →
    tokenizes (String "*" s) (GStar :: ts)
| tz_star_star r ts :
    tokenizes r ts → tokenizes (String "*" (String "*" r)) (GStarStar :: ts).

Definition not_star_token (ts : list token) : bool :=
  match ts with
  | TStar :: _ => false
  | _ => true
  end.

(** A continuation of the matcher that does not look at the
    start-of-subject flag. *)
Definition bos_free (rest : bool → string → bool) : Prop :=
  ∀ b b' s, rest b s = rest b' s.

Definition no_bol (r : list item) : bool :=
  forallb (λ i, match i with IBol => false | _ => true end) r.

(** *** The first token, as the specification words it

    The command name is the first whitespace-delimited token: skip the
    leading whitespace, then read up to the next whitespace. *)

Fixpoint lstrip (s : string) : string :=
  match s with
  | EmptyString => EmptyString
  | String c r => if isspace c then lstrip r else s
  end.

Fixpoint take_token (s : string) : string :=
  match s with
  | EmptyString => EmptyString
  | String c r => if isspace c then EmptyString else String c (take_token r)
  end.

Definition first_token (s : string) : option string :=
  match take_token (lstrip s) with
  | EmptyString => None
  | w => Some w
  end.

(** ** The host: what the module takes from outside its own source

    [os.path.expanduser] depends on the platform and the process
    environment, [re.match] is only modelled on the fragment above, and
    [uuid.uuid4] and [datetime.now] are sources of fresh values; the [n]-th
    call to each of the latter two returns the [n]-th value. *)

Class Host := {
  expanduser : string → string;
  re_outside : string → string → result bool;
  uuid4_hex : nat → string;
  now_timestamp : nat → Z
}.

(** One host: a POSIX system with [HOME] set to [home] (no trailing
    slash), no other user known, and a regex engine that rejects what the
    model leaves out. *)
Definition posix_expanduser (home path : string) : string :=
  match path with
  | String "~" EmptyString => home
  | String "~" (String "/" r) => home ++ String "/" r
  | _ => path
  end.

Definition posix_host (home : string) : Host := {|
  expanduser := posix_expanduser home;
  re_outside := fun _ _ => Raise re_error;
  uuid4_hex := fun n => "0123456789abcdef0123456789abcdef";
  now_timestamp := fun n => Z.of_nat n
|}.

(** ** Configuration *)

Record PolicyConfig := {
  auto_spawn_mode : string;
  max_concurrent_sub_agents : Z;
  max_sub_agents_per_hour : Z;
  max_tokens_per_sub_agent : Z;
  permissions_allowed : list string;
  permissions_forbidden : list string;
  permissions_ask : list string;
  allowed_paths : list string;
  forbidden_paths : list string;
  allowed_commands : list string;
  allowed_network_domains : list string;
  check_in_hours : Z
}.

Definition default_policy : PolicyConfig := {|
  auto_spawn_mode := "off";
  max_concurrent_sub_agents := 5;
  max_sub_agents_per_hour := 10;
  max_tokens_per_sub_agent := 50000;
  permissions_allowed := ["files.read"; "agent.message"];
  permissions_forbidden := ["system.shell"; "files.delete"; "agent.spawn"];
  permissions_ask := ["files.write"; "process.execute"; "network.fetch"];
  allowed_paths := [];
  forbidden_paths :=
    ["~/.ssh/**"; "~/.aws/**"; "~/.config/gcloud/**";
     "**/.env"; "**/*.pem"; "**/*.key"; "**/secrets/**"];
  allowed_commands := [];
  allowed_network_domains := [];
  check_in_hours := 4
|}.

(** [x in xs] *)
Definition py_in (x : string) (xs : list string) : bool := bool_decide (x ∈ xs).

(** ** Policy module *)

Section Policy.
Context `{Host}.

(** [re.match(regex, s)], as a truth value. *)
Definition re_match (regex s : string) : result bool :=
  match compile regex with
  | Some r => Ret (match_here r true s)
  | None => re_outside regex s
  end.

Definition _match_glob (path pattern : string) : result bool :=
  let regex := replace pattern "." "\." in
  let regex := replace regex "**" "<<<DOUBLESTAR>>>" in
  let regex := replace regex "*" "[^/]*" in
  let regex := replace regex "<<<DOUBLESTAR>>>" ".*" in
  let regex := "^" ++ regex ++ "$" in
  re_match regex path.

(** The loop shared by [is_path_allowed] and [is_path_forbidden]; [path]
    is already expanded. *)
Fixpoint any_glob (path : string) (patterns : list string) : result bool :=
  match patterns with
  | [] => Ret false
  | pattern :: rest =>
      m ← _match_glob path (expanduser pattern);
      if m : bool then Ret true else any_glob path rest
  end.

Definition is_path_allowed (cfg : PolicyConfig) (path : string) : result bool :=
  any_glob (expanduser path) (allowed_paths cfg).

Definition is_path_forbidden (cfg : PolicyConfig) (path : string) : result bool :=
  any_glob (expanduser path) (forbidden_paths cfg).

(** [target] is [None] when the argument is omitted or passed as [None]. *)
Definition is_allowed (cfg : PolicyConfig) (permission : string)
    (target : option string) : result bool :=
  if py_in permission (permissions_forbidden cfg) then Ret false
  else if py_in permission (permissions_allowed cfg) then
    if startswith permission "files." && from_option truthy false target
    then
      a ← is_path_allowed cfg (default "" target);
      if a : bool
      then f ← is_path_forbidden cfg (default "" target); Ret (negb f)
      else Ret false
    else Ret true
  else Ret false.

Definition is_forbidden (cfg : PolicyConfig) (permission : string) : bool :=
  py_in permission (permissions_forbidden cfg).

Definition requires_approval (cfg : PolicyConfig) (permission : string) : bool :=
  py_in permission (permissions_ask cfg).

Definition is_command_allowed (cfg : PolicyConfig) (command : string) : result bool :=
  cmd_name ← (if truthy command
              then match split command with
                   | [] => Raise IndexError
                   | w :: _ => Ret w
                   end
              else Ret "");
  Ret (py_in cmd_name (allowed_commands cfg)).

Definition is_domain_allowed (cfg : PolicyConfig) (domain : string) : bool :=
  py_in domain (allowed_network_domains cfg).
End Policy.

(** ** JSON values and dictionaries

    What [json.loads] returns and what [json.dumps] takes.  Numbers are
    integers here. *)

#[warnings="-register-all"]
Inductive json :=
| JNull
| JBool (b : bool)
| JNum (n : Z)
| JStr (s : string)
| JArr (l : list json)
| JObj (o : gmap string json).

(** A dictionary literal. *)
Definition dict (kvs : list (string * json)) : json := JObj (list_to_map kvs).

Definition json_of_opt (o : option string) : json := from_option JStr JNull o.

(** [bool(v)] *)
Definition json_truthy (v : json) : bool :=
  match v with
  | JNull => false
  | JBool b => b
  | JNum n => negb (n =? 0)
  | JStr s => truthy s
  | JArr l => negb (bool_decide (l = []))
  | JObj o => negb (bool_decide (o = ∅))
  end.

(** [v.get(k, dflt)]; only dictionaries have [get]. *)
Definition py_get (v : json) (k : string) (dflt : json) : result json :=
  match v with
  | JObj o => Ret (default dflt (o !! k))
  | _ => Raise AttributeError
  end.

(** [v[k]] for a string [k]. *)
Definition py_item (v : json) (k : string) : result json :=
  match v with
  | JObj o => from_option Ret (Raise KeyError) (o !! k)
  | _ => Raise TypeError
  end.

Definition is_JStr (s : string) (v : json) : bool :=
  match v with
  | JStr t => bool_decide (t = s)
  | _ => false
  end.

(** [needle in s] for two strings. *)
Fixpoint contains (s needle : string) : bool :=
  startswith s needle ||
  match s with
  | EmptyString => false
  | String _ s' => contains s' needle
  end.

(** [k in v] for a string [k]: key of a dictionary, element of a list,
    substring of a string; the other values are not containers. *)
Definition py_contains (k : string) (v : json) : result bool :=
  match v with
  | JObj o => Ret (bool_decide (is_Some (o !! k)))
  | JArr l => Ret (existsb (is_JStr k) l)
  | JStr s => Ret (contains s k)
  | _ => Raise TypeError
  end.

(** Hashable values as dictionary keys: [None], a string or a number
    ([True] and [False] are the keys [1] and [0]). *)
Abbreviation pykey := (option (string + Z)).

Definition to_key (v : json) : result pykey :=
  match v with
  | JNull => Ret None
  | JBool b => Ret (Some (inr (if b then 1 else 0)))
  | JNum n => Ret (Some (inr n))
  | JStr s => Ret (Some (inl s))
  | JArr _ | JObj _ => Raise TypeError
  end.

(** [x in xs] for a value [x] and a list of strings. *)
Definition json_in (x : json) (xs : list string) : bool :=
  match x with
  | JStr s => py_in s xs
  | _ => false
  end.

(** ** Futures and the connection *)

Inductive future :=
| Pending
| Finished (value : json)
| Cancelled.

(** [fut.set_result(v)] *)
Definition set_result (f : future) (v : json) : result future :=
  match f with
  | Pending => Ret (Finished v)
  | _ => Raise InvalidStateError
  end.

(** [fut.cancel()] *)
Definition cancel (f : future) : future :=
  match f with
  | Pending => Cancelled
  | _ => f
  end.

(** A registered handler is known by what it does when awaited: return or
    raise. *)
Abbreviation handler := (json → result ()).

(** [SpawnConnection], with the futures it created in [futures] (a future
    is shared between [_pending_responses] and the caller awaiting it, so
    the table holds references), and the frames given to [ws.send] in
    [sent], oldest first. *)
Record SpawnConnection := {
  policy : PolicyConfig;
  _handlers : gmap string handler;
  _pending_responses : gmap pykey nat;
  futures : gmap nat future;
  sent : list json;
  uuid_calls : nat;
  clock_calls : nat
}.

Record SubAgent := {
  sub_id : string;
  sub_name : string;
  sub_role : string;
  sub_status : string
}.

(** The module's globals: [_connection] and the class attributes of
    [agents].  [_spawning_paused] does not exist until it is assigned. *)
Record state := {
  _connection : SpawnConnection;
  _active : list SubAgent;
  _spawned_this_hour : Z;
  _spawning_paused : option bool
}.

Definition set_pending (f : gmap pykey nat → gmap pykey nat) (c : SpawnConnection) :=
  {| policy := policy c; _handlers := _handlers c;
     _pending_responses := f (_pending_responses c); futures := futures c;
     sent := sent c; uuid_calls := uuid_calls c; clock_calls := clock_calls c |}.

Definition set_futures (f : gmap nat future → gmap nat future) (c : SpawnConnection) :=
  {| policy := policy c; _handlers := _handlers c;
     _pending_responses := _pending_responses c; futures := f (futures c);
     sent := sent c; uuid_calls := uuid_calls c; clock_calls := clock_calls c |}.

Definition set_sent (f : list json → list json) (c : SpawnConnection) :=
  {| policy := policy c; _handlers := _handlers c;
     _pending_responses := _pending_responses c; futures := futures c;
     sent := f (sent c); uuid_calls := uuid_calls c; clock_calls := clock_calls c |}.

Definition set_uuid_calls (f : nat → nat) (c : SpawnConnection) :=
  {| policy := policy c; _handlers := _handlers c;
     _pending_responses := _pending_responses c; futures := futures c;
     sent := sent c; uuid_calls := f (uuid_calls c); clock_calls := clock_calls c |}.

Definition set_clock_calls (f : nat → nat) (c : SpawnConnection) :=
  {| policy := policy c; _handlers := _handlers c;
     _pending_responses := _pending_responses c; futures := futures c;
     sent := sent c; uuid_calls := uuid_calls c; clock_calls := f (clock_calls c) |}.

Definition set_connection (f : SpawnConnection → SpawnConnection) (s : state) :=
  {| _connection := f (_connection s); _active := _active s;
     _spawned_this_hour := _spawned_this_hour s;
     _spawning_paused := _spawning_paused s |}.

Definition set_active (f : list SubAgent → list SubAgent) (s : state) :=
  {| _connection := _connection s; _active := f (_active s);
     _spawned_this_hour := _spawned_this_hour s;
     _spawning_paused := _spawning_paused s |}.

Definition set_spawned_this_hour (f : Z → Z) (s : state) :=
  {| _connection := _connection s; _active := _active s;
     _spawned_this_hour := f (_spawned_this_hour s);
     _spawning_paused := _spawning_paused s |}.

Definition set_spawning_paused (v : option bool) (s : state) :=
  {| _connection := _connection s; _active := _active s;
     _spawned_this_hour := _spawned_this_hour s;
     _spawning_paused := v |}.

(** A connection just after [init]. *)
Definition new_connection : SpawnConnection := {|
  policy := default_policy; _handlers := ∅; _pending_responses := ∅;
  futures := ∅; sent := []; uuid_calls := 0; clock_calls := 0
|}.

Definition initial_state : state := {|
  _connection := new_connection; _active := [];
  _spawned_this_hour := 0; _spawning_paused := None
|}.

Definition get_policy (s : state) : PolicyConfig := policy (_connection s).

(** ** Sending

    The transport is a collaborator: [ws.send] is modelled as appending to
    [sent].  It takes the frame, except where a call is given what the
    transport raises as an argument ([kill_all]). *)

Section Connection.
Context `{Host}.

Definition fresh_uuid (c : SpawnConnection) : string * SpawnConnection :=
  (uuid4_hex (uuid_calls c), set_uuid_calls S c).

Definition now (c : SpawnConnection) : Z * SpawnConnection :=
  (now_timestamp (clock_calls c), set_clock_calls S c).

Definition ws_send (message : json) (c : SpawnConnection) : SpawnConnection :=
  set_sent (λ l, (l ++ [message])%list) c.

(** [SpawnConnection.send] *)
Definition send (message : gmap string json) (c : SpawnConnection) : SpawnConnection :=
  let '(message, c) :=
    if bool_decide (is_Some (message !! "id")) then (message, c)
    else let '(u, c) := fresh_uuid c in
         (<["id" := JStr ("msg_" ++ str_take 12 u)]> message, c) in
  let '(message, c) :=
    if bool_decide (is_Some (message !! "ts")) then (message, c)
    else let '(t, c) := now c in (<["ts" := JNum t]> message, c) in
  ws_send (JObj message) c.

(** The frame [send] hands to [ws.send], and the connection at that
    point: the id and the timestamp are taken before the transport is
    called. *)
Definition stamped (message : gmap string json) (c : SpawnConnection)
    : gmap string json * SpawnConnection :=
  let '(message, c) :=
    if bool_decide (is_Some (message !! "id")) then (message, c)
    else let '(u, c) := fresh_uuid c in
         (<["id" := JStr ("msg_" ++ str_take 12 u)]> message, c) in
  if bool_decide (is_Some (message !! "ts")) then (message, c)
  else let '(t, c) := now c in (<["ts" := JNum t]> message, c).

(** [SpawnConnection._request] up to its [await]: pick the request id,
    create the future, register it, send.  Returns the key and the
    future. *)
Definition _request_begin (message : gmap string json) (c : SpawnConnection)
    : result (pykey * nat * SpawnConnection) :=
  rid ← py_get (default (JObj ∅) (message !! "payload")) "request_id" JNull;
  let request_id := if json_truthy rid then rid else default JNull (message !! "id") in
  key ← to_key request_id;
  let fut := fresh (dom (futures c)) in
  let c := set_futures (<[fut := Pending]>) c in
  let c := set_pending (<[key := fut]>) c in
  Ret (key, fut, ws_send (JObj message) c).

(** What [asyncio.wait_for] does to the future when the timeout expires. *)
Definition _request_timeout (fut : nat) (c : SpawnConnection) : SpawnConnection :=
  set_futures (alter cancel fut) c.

(** The [finally] clause of [_request]. *)
Definition _request_end (key : pykey) (c : SpawnConnection) : SpawnConnection :=
  set_pending (delete key) c.

(** What the caller of [_request] gets from its future: the reply, or
    [None] after a timeout. *)
Definition _request_value (fut : nat) (c : SpawnConnection) : option json :=
  match futures c !! fut with
  | Some (Finished v) => Some v
  | _ => None
  end.

(** [_request] run to its end, when the remote party's answer is known:
    [response] is the reply that resolves the future, or [None] when none
    comes before the timeout. *)
Definition _request (message : gmap string json) (response : option json)
    (c : SpawnConnection) : result (option json) * SpawnConnection :=
  match _request_begin message c with
  | Raise e => (Raise e, c)
  | Ret (key, fut, c) =>
      let c := match response with
               | Some data => set_futures (<[fut := Finished data]>) c
               | None => _request_timeout fut c
               end in
      (Ret (_request_value fut c), _request_end key c)
  end.

(** ** The message loop *)

Inductive dispatch :=
| Resolved (key : pykey)
| Handled (msg_type : string)
| PolicyUpdate (payload : json)
| OnMessage
| Dropped.

(** The part of an iteration that handles a reply: [Some] is the
    [continue]. *)
Definition resolve_reply (c : SpawnConnection) (data : json)
    : result (option (SpawnConnection * pykey)) :=
  payload ← py_get data "payload" (JObj ∅);
  is_reply ← py_contains "request_id" payload;
  if is_reply : bool then
    payload ← py_item data "payload";
    req_id ← py_item payload "request_id";
    key ← to_key req_id;
    match _pending_responses c !! key with
    | Some fut =>
        f ← from_option Ret (Raise KeyError) (futures c !! fut);
        f' ← set_result f data;
        Ret (Some (set_futures (<[fut := f']>) c, key))
    | None => Ret None
    end
  else Ret None.

(** One iteration of [_message_loop] on the decoded frame [data].  The
    effect of [_update_policy] on the policy is not followed: the
    iteration records that it is called. *)
Definition message_loop_body (c : SpawnConnection) (data : json)
    : result (SpawnConnection * dispatch) :=
  msg_type ← py_get data "type" JNull;
  r ← resolve_reply c data;
  match r with
  | Some (c', key) => Ret (c', Resolved key)
  | None =>
      tkey ← to_key msg_type;
      let registered :=
        match msg_type with
        | JStr t => (λ h, (t, h)) <$> _handlers c !! t
        | _ => None
        end in
      match registered with
      | Some (t, h) => h data;; Ret (c, Handled t)
      | None =>
          if is_JStr "policy_update" msg_type then
            payload ← from_option Ret (Raise KeyError)
                        (match data with JObj o => o !! "payload" | _ => None end);
            match payload with
            | JObj _ => Ret (c, PolicyUpdate payload)
            | _ => Raise AttributeError
            end
          else if is_JStr "message" msg_type then
            match _handlers c !! "on_message" with
            | Some h =>
                payload ← py_item data "payload";
                h payload;; Ret (c, OnMessage)
            | None => Ret (c, Dropped)
            end
          else Ret (c, Dropped)
      end
  end.

(** [_message_loop] on the frames that are already buffered: iterations
    follow each other with no other task in between, and an exception
    ends the loop. *)
Fixpoint _message_loop (c : SpawnConnection) (frames : list json)
    : SpawnConnection * list dispatch * option exn :=
  match frames with
  | [] => (c, [], None)
  | data :: rest =>
      match message_loop_body c data with
      | Raise e => (c, [], Some e)
      | Ret (c', d) =>
          let '(c'', ds, e) := _message_loop c' rest in (c'', d :: ds, e)
      end
  end.

(** The tasks of the event loop take turns; between two suspension points
    a task runs alone.  A schedule is the sequence of these turns. *)
Inductive event :=
| EvFrame (data : json)
| EvRequest (message : gmap string json)
| EvTimeout (fut : nat)
| EvReturn (key : pykey).

(** The connection together with the exception that ended the message
    loop, if any. *)
Definition run_event (st : SpawnConnection * option exn) (ev : event)
    : SpawnConnection * option exn :=
  let '(c, dead) := st in
  match ev with
  | EvFrame data =>
      match dead with
      | Some _ => st
      | None =>
          match message_loop_body c data with
          | Ret (c', _) => (c', None)
          | Raise e => (c, Some e)
          end
      end
  | EvRequest message =>
      match _request_begin message c with
      | Ret (_, _, c') => (c', dead)
      | Raise _ => st
      end
  | EvTimeout fut => (_request_timeout fut c, dead)
  | EvReturn key => (_request_end key c, dead)
  end.

Definition run_events (st : SpawnConnection * option exn) (evs : list event)
    : SpawnConnection * option exn :=
  foldl run_event st evs.

End Connection.

(** ** Agents module *)

Section Agents.
Context `{Host}.

(** [SubAgent.terminate] *)
Definition terminate (self : SubAgent) (reason : string) (s : state) : state :=
  set_connection
    (send (list_to_map
       [("type", JStr "sub_agent_terminate");
        ("payload", dict [("sub_agent_id", JStr (sub_id self));
                          ("reason", JStr reason);
                          ("notify_user", JBool true)])]))
    s.

Definition can_spawn (s : state) : bool :=
  let cfg := get_policy s in
  if bool_decide (auto_spawn_mode cfg = "off") then true
  else if Z.of_nat (length (_active s)) >=? max_concurrent_sub_agents cfg then false
  else if _spawned_this_hour s >=? max_sub_agents_per_hour cfg then false
  else true.

Definition active_count (s : state) : Z := Z.of_nat (length (_active s)).

Definition max_concurrent (s : state) : Z := max_concurrent_sub_agents (get_policy s).

Definition active (s : state) : list SubAgent := _active s.

(** [perm.get("scope", "")] *)
Definition scope_of (perm : gmap string json) : json :=
  default (JStr "") (perm !! "scope").

(** The [for] loop of [would_auto_approve]. *)
Fixpoint check_permissions (cfg : PolicyConfig) (permissions : list (gmap string json)) : bool :=
  match permissions with
  | [] => true
  | perm :: rest =>
      let scope := scope_of perm in
      if json_in scope (permissions_forbidden cfg) then false
      else if bool_decide (auto_spawn_mode cfg = "constrained")
              && json_in scope (permissions_ask cfg) then false
      else check_permissions cfg rest
  end.

Definition would_auto_approve (cfg : PolicyConfig) (permissions : list (gmap string json)) : bool :=
  if py_in (auto_spawn_mode cfg) ["off"; "queue"] then false
  else if bool_decide (auto_spawn_mode cfg = "unrestricted") then true
  else check_permissions cfg permissions.

(** [f"sub_{name.lower().replace(' ', '_')}_{uuid.uuid4().hex[:6]}"] *)
Definition make_sub_agent_id (name u : string) : string :=
  "sub_" ++ replace (lower name) " " "_" ++ "_" ++ str_take 6 u.

(** [role or "Sub-Agent"] *)
Definition role_or_default (role : option string) : string :=
  match role with
  | Some r => if truthy r then r else "Sub-Agent"
  | None => "Sub-Agent"
  end.

Definition json_of_permissions (permissions : option (list (gmap string json))) : json :=
  JArr (JObj <$> default [] permissions).

(** The message [request_spawn] sends. *)
Definition spawn_request_message (request_id sub_agent_id msg_id : string) (ts : Z)
    (name : string) (role description : option string)
    (permissions : option (list (gmap string json))) (lifespan : string)
    (reason icon : option string) : gmap string json :=
  list_to_map
    [("type", JStr "agent_spawn_request");
     ("id", JStr msg_id);
     ("ts", JNum ts);
     ("payload", dict
        [("request_id", JStr request_id);
         ("proposed_agent", dict
            [("id", JStr sub_agent_id);
             ("name", JStr name);
             ("role", json_of_opt role);
             ("description", json_of_opt description);
             ("icon", json_of_opt icon);
             ("permissions", json_of_permissions permissions);
             ("lifespan", JStr lifespan)]);
         ("reason", json_of_opt reason)])].

(** [response and response.get("payload", {}).get("decision") == "approved"] *)
Definition is_approved (response : option json) : result bool :=
  match response with
  | Some r =>
      if json_truthy r then
        payload ← py_get r "payload" (JObj ∅);
        decision ← py_get payload "decision" JNull;
        Ret (is_JStr "approved" decision)
      else Ret false
  | None => Ret false
  end.

(** [cls._active.append(sub)] and [cls._spawned_this_hour += 1] *)
Definition register (sub : SubAgent) (s : state) : state :=
  set_spawned_this_hour (λ n, n + 1) (set_active (λ l, (l ++ [sub])%list) s).

Definition new_sub_agent (sub_agent_id name : string) (role : option string) : SubAgent :=
  {| sub_id := sub_agent_id; sub_name := name;
     sub_role := role_or_default role; sub_status := "online" |}.

(** [request_spawn].  [response] is the remote party's answer to the
    request, as in [_request]. *)
Definition request_spawn (name : string) (role description : option string)
    (permissions : option (list (gmap string json))) (lifespan : string)
    (reason icon : option string) (response : option json) (s : state)
    : result (option SubAgent) * state :=
  let c := _connection s in
  let '(u, c) := fresh_uuid c in
  let request_id := "spawn_req_" ++ str_take 12 u in
  let '(u, c) := fresh_uuid c in
  let sub_agent_id := make_sub_agent_id name u in
  let '(u, c) := fresh_uuid c in
  let '(ts, c) := now c in
  let message :=
    spawn_request_message request_id sub_agent_id ("msg_" ++ str_take 12 u) ts
      name role description permissions lifespan reason icon in
  let '(r, c) := _request message response c in
  let s := set_connection (λ _, c) s in
  match r ≫= is_approved with
  | Raise e => (Raise e, s)
  | Ret true =>
      let sub := new_sub_agent sub_agent_id name role in
      (Ret (Some sub), register sub s)
  | Ret false => (Ret None, s)
  end.

(** [spawn] *)
Definition spawn (name : string) (role : option string)
    (permissions : option (list (gmap string json))) (lifespan : string)
    (notify : bool) (s : state) : result SubAgent * state :=
  if negb (would_auto_approve (get_policy s) (default [] permissions))
  then (Raise (PermissionError "Cannot auto-spawn with these permissions"), s)
  else
    let c := _connection s in
    let '(u, c) := fresh_uuid c in
    let sub_agent_id := make_sub_agent_id name u in
    let c := send (list_to_map
      [("type", JStr "sub_agent_spawn");
       ("payload", dict
          [("sub_agent_id", JStr sub_agent_id);
           ("name", JStr name);
           ("role", json_of_opt role);
           ("permissions", json_of_permissions permissions);
           ("lifespan", JStr lifespan);
           ("status", JStr "online")])]) c in
    let s := set_connection (λ _, c) s in
    let sub := new_sub_agent sub_agent_id name role in
    let s := register sub s in
    let s :=
      if notify then
        set_connection (send (list_to_map
          [("type", JStr "notification");
           ("payload", dict
              [("title", JStr "Sub-Agent Spawned");
               ("body", JStr (name ++ " started"));
               ("priority", JStr "low");
               ("category", JStr "auto_spawn")])])) s
      else s in
    (Ret sub, s).

(** [terminate] when [ws.send] raises: the frame was stamped and not
    sent. *)
Definition terminate_raises (self : SubAgent) (reason : string) (s : state) : state :=
  set_connection
    (λ c, (stamped (list_to_map
       [("type", JStr "sub_agent_terminate");
        ("payload", dict [("sub_agent_id", JStr (sub_id self));
                          ("reason", JStr reason);
                          ("notify_user", JBool true)])]) c).2)
    s.

(** The [for] loop of [kill_all].  [ws.send] raises when the socket is
    closed or was never opened, and an exception from [terminate] leaves
    the loop: [transport k] is what the transport raises on the [k]-th
    frame of this call, if it raises. *)
Fixpoint terminate_each (reason : string) (transport : nat → option exn) (k : nat)
    (subs : list SubAgent) (s : state) : result () * state :=
  match subs with
  | [] => (Ret (), s)
  | sub :: rest =>
      match transport k with
      | Some e => (Raise e, terminate_raises sub reason s)
      | None => terminate_each reason transport (S k) rest (terminate sub reason s)
      end
  end.

(** [kill_all] *)
Definition kill_all (reason : string) (transport : nat → option exn) (s : state)
    : result () * state :=
  match terminate_each reason transport 0 (_active s) s with
  | (Ret _, s) => (Ret (), set_active (λ _, []) s)
  | (Raise e, s) => (Raise e, s)
  end.

(** [pause_spawning] *)
Definition pause_spawning (s : state) : state :=
  set_spawning_paused (Some true) s.

(** *** The arguments of a spawn *)

Record spawn_args := {
  arg_name : string;
  arg_role : option string;
  arg_description : option string;
  arg_permissions : option (list (gmap string json));
  arg_lifespan : string;
  arg_reason : option string;
  arg_icon : option string;
  arg_notify : bool
}.

Definition do_request_spawn (a : spawn_args) (response : option json) (s : state)
    : result (option SubAgent) * state :=
  request_spawn (arg_name a) (arg_role a) (arg_description a)
    (arg_permissions a) (arg_lifespan a) (arg_reason a) (arg_icon a) response s.

Definition do_spawn (a : spawn_args) (s : state) : result SubAgent * state :=
  spawn (arg_name a) (arg_role a) (arg_permissions a) (arg_lifespan a)
    (arg_notify a) s.

(** *** Calls that overlap

    [request_spawn] awaits the reply for up to ten minutes, and other
    tasks take their turns meanwhile: the message loop and other callers
    of the module.  A call of [request_spawn] therefore takes two turns,
    one up to the [await] in [_request] and one from there on.  Sending
    does not suspend. *)

(** What a suspended call of [request_spawn] holds: the key and the
    future of [_request], and its own [sub_agent_id], [name] and
    [role]. *)
Record spawn_call := {
  call_key : pykey;
  call_future : nat;
  call_sub_agent_id : string;
  call_name : string;
  call_role : option string
}.

(** [request_spawn] up to the [await]. *)
Definition request_spawn_begin (name : string) (role description : option string)
    (permissions : option (list (gmap string json))) (lifespan : string)
    (reason icon : option string) (s : state) : result spawn_call * state :=
  let c := _connection s in
  let '(u, c) := fresh_uuid c in
  let request_id := "spawn_req_" ++ str_take 12 u in
  let '(u, c) := fresh_uuid c in
  let sub_agent_id := make_sub_agent_id name u in
  let '(u, c) := fresh_uuid c in
  let '(ts, c) := now c in
  let message :=
    spawn_request_message request_id sub_agent_id ("msg_" ++ str_take 12 u) ts
      name role description permissions lifespan reason icon in
  match _request_begin message c with
  | Raise e => (Raise e, set_connection (λ _, c) s)
  | Ret (key, fut, c) =>
      (Ret {| call_key := key; call_future := fut;
              call_sub_agent_id := sub_agent_id;
              call_name := name; call_role := role |},
       set_connection (λ _, c) s)
  end.

(** [request_spawn] from the [await] on, when its future is done: the
    [finally] clause of [_request], then the decision. *)
Definition request_spawn_resume (call : spawn_call) (s : state)
    : result (option SubAgent) * state :=
  let response := _request_value (call_future call) (_connection s) in
  let s := set_connection (_request_end (call_key call)) s in
  match is_approved response with
  | Raise e => (Raise e, s)
  | Ret true =>
      let sub := new_sub_agent (call_sub_agent_id call) (call_name call)
                   (call_role call) in
      (Ret (Some sub), register sub s)
  | Ret false => (Ret None, s)
  end.

End Agents.

(** What a spawn, by either path, does to the registry: nothing, or one
    more handle at the end of the active list. *)
Definition grows_by_at_most_one (s s' : state) : Prop :=
  get_policy s' = get_policy s ∧
  (_active s' = _active s ∨ ∃ sub, _active s' = (_active s ++ [sub])%list).

(** ** Policies and inputs used in the examples below *)

Definition home_host : Host := posix_host "/home/u".

Definition with_paths (allowed forbidden : list string) (cfg : PolicyConfig) : PolicyConfig := {|
  auto_spawn_mode := auto_spawn_mode cfg;
  max_concurrent_sub_agents := max_concurrent_sub_agents cfg;
  max_sub_agents_per_hour := max_sub_agents_per_hour cfg;
  max_tokens_per_sub_agent := max_tokens_per_sub_agent cfg;
  permissions_allowed := permissions_allowed cfg;
  permissions_forbidden := permissions_forbidden cfg;
  permissions_ask := permissions_ask cfg;
  allowed_paths := allowed;
  forbidden_paths := forbidden;
  allowed_commands := allowed_commands cfg;
  allowed_network_domains := allowed_network_domains cfg;
  check_in_hours := check_in_hours cfg
|}.

Definition with_permissions (allowed forbidden ask : list string) (cfg : PolicyConfig) : PolicyConfig := {|
  auto_spawn_mode := auto_spawn_mode cfg;
  max_concurrent_sub_agents := max_concurrent_sub_agents cfg;
  max_sub_agents_per_hour := max_sub_agents_per_hour cfg;
  max_tokens_per_sub_agent := max_tokens_per_sub_agent cfg;
  permissions_allowed := allowed;
  permissions_forbidden := forbidden;
  permissions_ask := ask;
  allowed_paths := allowed_paths cfg;
  forbidden_paths := forbidden_paths cfg;
  allowed_commands := allowed_commands cfg;
  allowed_network_domains := allowed_network_domains cfg;
  check_in_hours := check_in_hours cfg
|}.

Definition with_mode (mode : string) (concurrent hourly : Z) (cfg : PolicyConfig) : PolicyConfig := {|
  auto_spawn_mode := mode;
  max_concurrent_sub_agents := concurrent;
  max_sub_agents_per_hour := hourly;
  max_tokens_per_sub_agent := max_tokens_per_sub_agent cfg;
  permissions_allowed := permissions_allowed cfg;
  permissions_forbidden := permissions_forbidden cfg;
  permissions_ask := permissions_ask cfg;
  allowed_paths := allowed_paths cfg;
  forbidden_paths := forbidden_paths cfg;
  allowed_commands := allowed_commands cfg;
  allowed_network_domains := allowed_network_domains cfg;
  check_in_hours := check_in_hours cfg
|}.

(** The state just after [init] and a policy push. *)
Definition state_with (cfg : PolicyConfig) : state := {|
  _connection := {|
    policy := cfg; _handlers := ∅; _pending_responses := ∅;
    futures := ∅; sent := []; uuid_calls := 0; clock_calls := 0 |};
  _active := []; _spawned_this_hour := 0; _spawning_paused := None
|}.

Definition worker : spawn_args := {|
  arg_name := "Log Worker"; arg_role := None; arg_description := None;
  arg_permissions := Some [{["scope" := JStr "files.read"]}];
  arg_lifespan := "task_bound"; arg_reason := None; arg_icon := None;
  arg_notify := true
|}.

(** A host whose [n]-th identifier starts with the digits of [n]. *)
Definition serial_host : Host := {|
  expanduser := posix_expanduser "/home/u";
  re_outside := fun _ _ => Raise re_error;
  uuid4_hex := fun n => str_take 32 (pretty n ++ "00000000000000000000000000000000");
  now_timestamp := fun n => Z.of_nat n
|}.

(** The transport takes every frame. *)
Definition transport_up : nat → option exn := λ _, None.

(** The socket is gone from the [k]-th frame on. *)
Definition transport_down_at (k : nat) : nat → option exn :=
  λ i, if (k <=? i)%nat then Some AttributeError else None.

(** A reply that approves a spawn request. *)
Definition approval (request_id : string) : json :=
  dict [("type", JStr "agent_spawn_response");
        ("payload", dict [("request_id", JStr request_id);
                          ("decision", JStr "approved")])].

(** A confirmation request as [approval.confirm] sends it, and a reply to
    it. *)
Definition confirmation_request (request_id : string) : gmap string json :=
  list_to_map
    [("type", JStr "confirmation_request");
     ("id", JStr "msg_0123456789ab");
     ("ts", JNum 0);
     ("payload", dict [("request_id", JStr request_id);
                       ("title", JStr "Write file?");
                       ("danger_level", JStr "low")])].

Definition confirmation_reply (request_id action : string) : json :=
  dict [("type", JStr "confirmation_response");
        ("payload", dict [("request_id", JStr request_id);
                          ("action", JStr action)])].

(** A connection with one request in flight. *)
Definition one_request_pending : SpawnConnection :=
  (run_event (new_connection, None) (EvRequest (confirmation_request "cfm_1"))).1.

(** A path whose first directory name holds a line feed. *)
Definition path_with_line_feed : string :=
  "/home/u/a" ++ String LF "b/secrets/x".

(** * The rest of the module *)

Definition set_handlers (f : gmap string handler → gmap string handler)
    (c : SpawnConnection) :=
  {| policy := policy c; _handlers := f (_handlers c);
     _pending_responses := _pending_responses c; futures := futures c;
     sent := sent c; uuid_calls := uuid_calls c; clock_calls := clock_calls c |}.

Definition set_policy (f : PolicyConfig → PolicyConfig) (c : SpawnConnection) :=
  {| policy := f (policy c); _handlers := _handlers c;
     _pending_responses := _pending_responses c; futures := futures c;
     sent := sent c; uuid_calls := uuid_calls c; clock_calls := clock_calls c |}.

(** [SpawnConnection.on] *)
Definition on (event : string) (h : handler) (c : SpawnConnection) : SpawnConnection :=
  set_handlers (<[event := h]>) c.

(** The request id [_request] registers its future under. *)
Definition request_id_of (message : gmap string json) : result json :=
  rid ← py_get (default (JObj ∅) (message !! "payload")) "request_id" JNull;
  Ret (if json_truthy rid then rid else default JNull (message !! "id")).

(** The frame [o] answers no pending request: it has no payload, or its
    payload is a dictionary with no request id or with one that is not in
    the table. *)
Definition answers_nothing (c : SpawnConnection) (o : gmap string json) : Prop :=
  o !! "payload" = None ∨
  ∃ p, o !! "payload" = Some (JObj p) ∧
    (p !! "request_id" = None ∨
     ∃ v key, p !! "request_id" = Some v ∧ to_key v = Ret key ∧
              _pending_responses c !! key = None).

(** ** Policy updates

    [_update_policy] sets the attributes of the policy object that the
    payload names.  The policy is a typed record here, so the model follows
    an update as long as each field is given a value of its declared type
    and no key starts with two underscores (such a key may name an
    attribute of the object machinery); otherwise the result is [None]:
    Python raises, as [TypeError] for the key [__class__], or goes on with
    a policy that this record cannot hold. *)

Inductive field :=
| f_auto_spawn_mode
| f_max_concurrent_sub_agents
| f_max_sub_agents_per_hour
| f_max_tokens_per_sub_agent
| f_permissions_allowed
| f_permissions_forbidden
| f_permissions_ask
| f_allowed_paths
| f_forbidden_paths
| f_allowed_commands
| f_allowed_network_domains
| f_check_in_hours.

#[global] Instance field_eq_dec : EqDecision field.
Proof. solve_decision. Defined.

Definition fields : list field :=
  [f_auto_spawn_mode; f_max_concurrent_sub_agents; f_max_sub_agents_per_hour;
   f_max_tokens_per_sub_agent; f_permissions_allowed; f_permissions_forbidden;
   f_permissions_ask; f_allowed_paths; f_forbidden_paths; f_allowed_commands;
   f_allowed_network_domains; f_check_in_hours].

Definition field_name (f : field) : string :=
  match f with
  | f_auto_spawn_mode => "auto_spawn_mode"
  | f_max_concurrent_sub_agents => "max_concurrent_sub_agents"
  | f_max_sub_agents_per_hour => "max_sub_agents_per_hour"
  | f_max_tokens_per_sub_agent => "max_tokens_per_sub_agent"
  | f_permissions_allowed => "permissions_allowed"
  | f_permissions_forbidden => "permissions_forbidden"
  | f_permissions_ask => "permissions_ask"
  | f_allowed_paths => "allowed_paths"
  | f_forbidden_paths => "forbidden_paths"
  | f_allowed_commands => "allowed_commands"
  | f_allowed_network_domains => "allowed_network_domains"
  | f_check_in_hours => "check_in_hours"
  end.

(** [hasattr(self.policy, key)] for a key that does not start with two
    underscores: the dataclass has its fields and nothing else. *)
Definition field_of_name (key : string) : option field :=
  List.find (λ f, bool_decide (field_name f = key)) fields.

(** The value of an attribute. *)
Inductive attr :=
| AStr (s : string)
| AInt (n : Z)
| AList (l : list string).

Definition get_field (f : field) (cfg : PolicyConfig) : attr :=
  match f with
  | f_auto_spawn_mode => AStr (auto_spawn_mode cfg)
  | f_max_concurrent_sub_agents => AInt (max_concurrent_sub_agents cfg)
  | f_max_sub_agents_per_hour => AInt (max_sub_agents_per_hour cfg)
  | f_max_tokens_per_sub_agent => AInt (max_tokens_per_sub_agent cfg)
  | f_permissions_allowed => AList (permissions_allowed cfg)
  | f_permissions_forbidden => AList (permissions_forbidden cfg)
  | f_permissions_ask => AList (permissions_ask cfg)
  | f_allowed_paths => AList (allowed_paths cfg)
  | f_forbidden_paths => AList (forbidden_paths cfg)
  | f_allowed_commands => AList (allowed_commands cfg)
  | f_allowed_network_domains => AList (allowed_network_domains cfg)
  | f_check_in_hours => AInt (check_in_hours cfg)
  end.

Definition strings_of (l : list json) : option (list string) :=
  mapM (λ v, match v with JStr s => Some s | _ => None end) l.

(** A JSON value as a value of the declared type of [f]. *)
Definition decode (f : field) (v : json) : option attr :=
  match get_field f default_policy, v with
  | AStr _, JStr s => Some (AStr s)
  | AInt _, JNum n => Some (AInt n)
  | AList _, JArr l => AList <$> strings_of l
  | _, _ => None
  end.

(** [setattr(self.policy, name, value)] for a field and a value of its
    type. *)
Definition set_field (f : field) (a : attr) (cfg : PolicyConfig) : option PolicyConfig :=
  let 'Build_PolicyConfig mode conc hour tok pa pf pk ap fp ac ad ci := cfg in
  match f, a with
  | f_auto_spawn_mode, AStr s => Some (Build_PolicyConfig s conc hour tok pa pf pk ap fp ac ad ci)
  | f_max_concurrent_sub_agents, AInt n => Some (Build_PolicyConfig mode n hour tok pa pf pk ap fp ac ad ci)
  | f_max_sub_agents_per_hour, AInt n => Some (Build_PolicyConfig mode conc n tok pa pf pk ap fp ac ad ci)
  | f_max_tokens_per_sub_agent, AInt n => Some (Build_PolicyConfig mode conc hour n pa pf pk ap fp ac ad ci)
  | f_permissions_allowed, AList l => Some (Build_PolicyConfig mode conc hour tok l pf pk ap fp ac ad ci)
  | f_permissions_forbidden, AList l => Some (Build_PolicyConfig mode conc hour tok pa l pk ap fp ac ad ci)
  | f_permissions_ask, AList l => Some (Build_PolicyConfig mode conc hour tok pa pf l ap fp ac ad ci)
  | f_allowed_paths, AList l => Some (Build_PolicyConfig mode conc hour tok pa pf pk l fp ac ad ci)
  | f_forbidden_paths, AList l => Some (Build_PolicyConfig mode conc hour tok pa pf pk ap l ac ad ci)
  | f_allowed_commands, AList l => Some (Build_PolicyConfig mode conc hour tok pa pf pk ap fp l ad ci)
  | f_allowed_network_domains, AList l => Some (Build_PolicyConfig mode conc hour tok pa pf pk ap fp ac l ci)
  | f_check_in_hours, AInt n => Some (Build_PolicyConfig mode conc hour tok pa pf pk ap fp ac ad n)
  | _, _ => None
  end.

(** One turn of the loop of [_update_policy]. *)
Definition update_attr (key : string) (value : json) (cfg : PolicyConfig)
    : option PolicyConfig :=
  if startswith key "__" then None
  else match field_of_name key with
       | Some f => a ← decode f value; set_field f a cfg
       | None => Some cfg
       end.

(** The loop of [_update_policy], on the policy.  The keys of a dictionary
    are distinct; the order in which they are visited is that of the
    map. *)
Definition update_attrs (cfg : PolicyConfig) (data : gmap string json)
    : option PolicyConfig :=
  map_fold (λ key value acc, acc ≫= update_attr key value) (Some cfg) data.

(** The payloads the typed model follows. *)
Definition well_typed (data : gmap string json) : Prop :=
  ∀ key v, data !! key = Some v →
    startswith key "__" = false ∧
    ∀ f, field_of_name key = Some f → is_Some (decode f v).

(** What an update leaves in field [f]. *)
Definition field_after (cfg cfg' : PolicyConfig) (data : gmap string json) (f : field) : Prop :=
  match data !! field_name f with
  | Some v => decode f v = Some (get_field f cfg')
  | None => get_field f cfg' = get_field f cfg
  end.

(** [SpawnConnection._update_policy]: [data.items()] needs a dictionary.
    [Ret None] is an update that the typed policy does not follow: one
    that gives a field a value of another type, or has a key that starts
    with two underscores, on which Python may raise. *)
Definition _update_policy (c : SpawnConnection) (data : json)
    : result (option SpawnConnection) :=
  match data with
  | JObj o => Ret ((λ cfg, set_policy (λ _, cfg) c) <$> update_attrs (policy c) o)
  | _ => Raise AttributeError
  end.

(** One iteration of [_message_loop] with the effect of [_update_policy]
    on the policy. *)
Definition message_loop_turn (c : SpawnConnection) (data : json)
    : result (option SpawnConnection * dispatch) :=
  r ← message_loop_body c data;
  match r with
  | (c', PolicyUpdate payload) =>
      c'' ← _update_policy c' payload; Ret (c'', PolicyUpdate payload)
  | (c', d) => Ret (Some c', d)
  end.

Section FetchPolicy.
Context `{Host}.

(** [_fetch_policy]; [response] is the remote party's answer to the
    request, as in [_request].  The connection is [None] after an update
    that the typed policy does not follow. *)
Definition _fetch_policy (response : option json) (c : SpawnConnection)
    : result () * option SpawnConnection :=
  let '(u, c) := fresh_uuid c in
  let '(ts, c) := now c in
  let '(r, c) :=
    _request (list_to_map [("type", JStr "get_policy");
                           ("id", JStr ("msg_" ++ str_take 12 u));
                           ("ts", JNum ts);
                           ("payload", dict [])]) response c in
  match r with
  | Raise e => (Raise e, Some c)
  | Ret None => (Ret (), Some c)
  | Ret (Some response) =>
      if json_truthy response then
        match py_get response "payload" (JObj ∅) ≫= _update_policy c with
        | Raise e => (Raise e, Some c)
        | Ret c' => (Ret (), c')
        end
      else (Ret (), Some c)
  end.

End FetchPolicy.

(** ** Approval module *)

(** [bool(x)] for an optional string argument. *)
Definition opt_truthy (x : option string) : bool := from_option truthy false x.

(** [if cond: payload[key] = value] *)
Definition set_if (cond : bool) (key : string) (value : json)
    (payload : gmap string json) : gmap string json :=
  if cond then <[key := value]> payload else payload.

(** [bool(xs)] for an optional list argument. *)
Definition list_truthy {A} (xs : option (list A)) : bool :=
  match xs with
  | Some (_ :: _) => true
  | _ => false
  end.

(** The payload [approval.confirm] builds. *)
Definition confirm_payload (request_id title : string) (message : option string)
    (danger_level : string) (details : option (list json)) (timeout_seconds : Z)
    : gmap string json :=
  let payload : gmap string json := list_to_map
    [("request_id", JStr request_id);
     ("title", JStr title);
     ("danger_level", JStr danger_level);
     ("timeout_seconds", JNum timeout_seconds);
     ("options", JArr
        [dict [("id", JStr "cancel"); ("label", JStr "Cancel");
               ("style", JStr "secondary")];
         dict [("id", JStr "confirm"); ("label", JStr "Confirm");
               ("style", JStr "primary")]])] in
  let payload := set_if (opt_truthy message) "summary" (json_of_opt message) payload in
  let payload := set_if (list_truthy details) "details" (JArr (default [] details)) payload in
  let payload := set_if (py_in danger_level ["high"; "critical"])
                   "requires_slide" (JBool true) payload in
  set_if (bool_decide (danger_level = "critical")) "requires_biometric" (JBool true) payload.

(** [response.get("payload", {}).get("action")] for a reply; [None] after
    a timeout or for an empty reply. *)
Definition reply_action (response : option json) : result (option json) :=
  match response with
  | Some r =>
      if json_truthy r then
        payload ← py_get r "payload" (JObj ∅);
        action ← py_get payload "action" JNull;
        Ret (Some action)
      else Ret None
  | None => Ret None
  end.

Section Approval.
Context `{Host}.

(** [approval.confirm]; [response] is the remote party's answer, as in
    [_request]. *)
Definition confirm (title : string) (message : option string) (danger_level : string)
    (details : option (list json)) (timeout_seconds : Z)
    (response : option json) (c : SpawnConnection) : result bool * SpawnConnection :=
  let '(u, c) := fresh_uuid c in
  let request_id := "cfm_" ++ str_take 12 u in
  let payload := confirm_payload request_id title message danger_level details
                   timeout_seconds in
  let '(u, c) := fresh_uuid c in
  let '(ts, c) := now c in
  let '(r, c) :=
    _request (list_to_map [("type", JStr "confirmation_request");
                           ("id", JStr ("msg_" ++ str_take 12 u));
                           ("ts", JNum ts);
                           ("payload", JObj payload)]) response c in
  (response ← r;
   action ← reply_action response;
   Ret (from_option (is_JStr "confirm") false action), c).

(** [approval.confirm_with_options]: the chosen option, [JNull] for
    [None]. *)
Definition confirm_with_options (title : string) (options : list json)
    (message : option string) (danger_level : string) (timeout_seconds : Z)
    (response : option json) (c : SpawnConnection) : result json * SpawnConnection :=
  let '(u, c) := fresh_uuid c in
  let request_id := "cfm_" ++ str_take 12 u in
  let '(u, c) := fresh_uuid c in
  let '(ts, c) := now c in
  let '(r, c) :=
    _request (list_to_map
      [("type", JStr "confirmation_request");
       ("id", JStr ("msg_" ++ str_take 12 u));
       ("ts", JNum ts);
       ("payload", dict [("request_id", JStr request_id);
                         ("title", JStr title);
                         ("summary", json_of_opt message);
                         ("danger_level", JStr danger_level);
                         ("timeout_seconds", JNum timeout_seconds);
                         ("options", JArr options)])]) response c in
  (response ← r;
   action ← reply_action response;
   Ret (default JNull action), c).

End Approval.

(** ** UI, status and progress modules *)

(** [xs or []] as a JSON list. *)
Definition json_list_or_empty (xs : option (list json)) : json :=
  JArr (if list_truthy xs then default [] xs else []).

(** The payload [ui.send_card] builds. *)
Definition card_payload (title : string) (subtitle value value_color icon : option string)
    (fields actions : option (list json)) (style : string) : gmap string json :=
  let payload : gmap string json :=
    list_to_map [("style", JStr style); ("title", JStr title)] in
  let payload := set_if (opt_truthy subtitle) "subtitle" (json_of_opt subtitle) payload in
  let payload :=
    set_if (opt_truthy value) "value"
      (JObj (set_if (opt_truthy value_color) "color" (json_of_opt value_color)
               (list_to_map [("text", json_of_opt value)]))) payload in
  let payload := set_if (opt_truthy icon) "icon" (json_of_opt icon) payload in
  let payload := set_if (list_truthy fields) "fields" (JArr (default [] fields)) payload in
  set_if (list_truthy actions) "actions" (JArr (default [] actions)) payload.

(** The class attributes of [status]. *)
Record status_state := {
  status_current : string;
  status_label : option string
}.

Definition initial_status : status_state :=
  {| status_current := "idle"; status_label := None |}.

(** [ProgressHandle] *)
Record ProgressHandle := {
  prg_id : string;
  prg_title : string;
  prg_steps : option (list string);
  prg_total : option Z;
  prg_current : Z
}.

(** The status of step [i] when [step] is the running one. *)
Definition step_status_at (step : Z) (i : nat) : string :=
  if Z.of_nat i <? step then "complete"
  else if Z.of_nat i =? step then "running"
  else "pending".

(** The list comprehension of [update]: label and status of each step. *)
Definition step_entries (steps : list string) (step : Z) : list (string * string) :=
  imap (λ i s, (s, step_status_at step i)) steps.

(** The position [xs[i]] names: a negative index counts from the end. *)
Definition py_index (len : nat) (i : Z) : option nat :=
  if (0 <=? i) && (i <? Z.of_nat len) then Some (Z.to_nat i)
  else if (- Z.of_nat len <=? i) && (i <? 0) then Some (Z.to_nat (Z.of_nat len + i))
  else None.

(** [payload["steps"][step]["status"] = step_status] *)
Definition override_status (entries : list (string * string)) (step : Z)
    (step_status : string) : result (list (string * string)) :=
  match py_index (length entries) step with
  | Some k => Ret (alter (λ e, (e.1, step_status)) k entries)
  | None => Raise IndexError
  end.

Definition json_of_entries (entries : list (string * string)) : json :=
  JArr ((λ e, dict [("label", JStr e.1); ("status", JStr e.2)]) <$> entries).

(** The steps that [update] reports, if any. *)
Definition update_steps (steps : option (list string)) (step : option Z)
    (step_status : option string) : result (option (list (string * string))) :=
  match step with
  | Some k =>
      if list_truthy steps then
        let entries := step_entries (default [] steps) k in
        if opt_truthy step_status
        then es ← override_status entries k (default "" step_status); Ret (Some es)
        else Ret (Some entries)
      else Ret None
  | None => Ret None
  end.

Section Ui.
Context `{Host}.

(** Python's [current / total] as the JSON number it is sent as; numbers
    that are not integers are values of this development only through
    this function and through the caller's [progress] argument. *)
Variable truediv : Z → Z → json.

(** [ui.send_text] *)
Definition send_text (content format : string) (c : SpawnConnection) : SpawnConnection :=
  send (list_to_map [("type", JStr "text");
                     ("payload", dict [("content", JStr content);
                                       ("format", JStr format)])]) c.

(** [ui.send_card] *)
Definition send_card (title : string) (subtitle value value_color icon : option string)
    (fields actions : option (list json)) (style : string) (c : SpawnConnection)
    : SpawnConnection :=
  send (list_to_map
          [("type", JStr "card");
           ("payload", JObj (card_payload title subtitle value value_color icon
                               fields actions style))]) c.

(** [ui.send_error] *)
Definition send_error (code title message severity : string) (recoverable : bool)
    (actions : option (list json)) (c : SpawnConnection) : SpawnConnection :=
  send (list_to_map
          [("type", JStr "error");
           ("payload", dict [("code", JStr code);
                             ("title", JStr title);
                             ("message", JStr message);
                             ("severity", JStr severity);
                             ("recoverable", JBool recoverable);
                             ("actions", json_list_or_empty actions)])]) c.

(** [status.set] *)
Definition status_set (state : string) (label : option string)
    (st : status_state * SpawnConnection) : status_state * SpawnConnection :=
  ({| status_current := state; status_label := label |},
   send (list_to_map [("type", JStr "status_update");
                      ("payload", dict [("status", JStr state);
                                        ("label", json_of_opt label)])]) st.2).

(** [status.get] *)
Definition status_get (st : status_state) : string := status_current st.

(** [progress.start] *)
Definition progress_start (title : string) (steps : option (list string))
    (total : option Z) (cancelable : bool) (c : SpawnConnection)
    : ProgressHandle * SpawnConnection :=
  let '(u, c) := fresh_uuid c in
  let handle := {| prg_id := "prg_" ++ str_take 12 u; prg_title := title;
                   prg_steps := steps; prg_total := total; prg_current := 0 |} in
  let payload : gmap string json :=
    list_to_map [("request_id", JStr (prg_id handle));
                 ("title", JStr title);
                 ("status", JStr "running");
                 ("progress", JNum 0);
                 ("cancelable", JBool cancelable)] in
  let payload :=
    set_if (list_truthy steps) "steps"
      (json_of_entries ((λ s, (s, "pending")) <$> default [] steps)) payload in
  (handle, send (list_to_map [("type", JStr "progress"); ("payload", JObj payload)]) c).

(** The [progress] entry of [update], if any. *)
Definition update_progress (total : option Z) (current : option Z)
    (progress : option json) : option json :=
  match progress with
  | Some p => Some p
  | None =>
      match total, current with
      | Some t, Some cur => if t =? 0 then None else Some (truediv cur t)
      | _, _ => None
      end
  end.

(** [ProgressHandle.update] *)
Definition progress_update (self : ProgressHandle) (current step : option Z)
    (step_status : option string) (progress : option json) (message : option string)
    (c : SpawnConnection) : result () * (ProgressHandle * SpawnConnection) :=
  let self :=
    match current with
    | Some cur => {| prg_id := prg_id self; prg_title := prg_title self;
                     prg_steps := prg_steps self; prg_total := prg_total self;
                     prg_current := cur |}
    | None => self
    end in
  let payload : gmap string json := {["request_id" := JStr (prg_id self)]} in
  let payload :=
    match update_progress (prg_total self) current progress with
    | Some p => <["progress" := p]> payload
    | None => payload
    end in
  let payload := set_if (opt_truthy message) "message" (json_of_opt message) payload in
  match update_steps (prg_steps self) step step_status with
  | Raise e => (Raise e, (self, c))
  | Ret entries =>
      let payload :=
        match entries with
        | Some es => <["steps" := json_of_entries es]> payload
        | None => payload
        end in
      let payload := <["status" := JStr "running"]> payload in
      (Ret (), (self, send (list_to_map [("type", JStr "progress");
                                         ("payload", JObj payload)]) c))
  end.

End Ui.

(** ** The Clawdbot integration example

    [sdk/examples/clawdbot_integration.py].  The [step] objects belong to
    Clawdbot, which is outside this repository: a step is the record of the
    attributes the handlers read, and a call of one of its methods is
    recorded in the order it happens and assumed to return normally.  A
    handler that awaits confirmations takes the remote party's answers as
    arguments, one for each confirmation it may ask for. *)

Record Step := {
  target_path : string;
  content : string;
  command : string;
  sub_agent_name : string;
  sub_agent_role : option string;
  sub_agent_description : option string;
  required_permissions : option (list (gmap string json));
  spawn_reason : option string;
  sub_agent_task : string;
  (** [exit_code] of the value [execute] returns *)
  exit_code : Z;
  description : string;
  requires_file_write : bool;
  requires_shell : bool;
  requires_sub_agent : bool
}.

Inductive call := Execute | ExecuteSequentially.

(** The SDK module's state, the class attributes of [status], and the
    calls made on steps so far. *)
Record world := {
  sdk : state;
  agent_status : status_state;
  calls : list call
}.

(** Code that runs in a world and may raise. *)
Definition flow (A : Type) : Type := world → result A * world.

#[global] Instance flow_ret : MRet flow := λ A a w, (Ret a, w).
#[global] Instance flow_bind : MBind flow := λ A B f m w,
  match m w with
  | (Ret a, w) => f a w
  | (Raise e, w) => (Raise e, w)
  end.

Definition raising {A} (r : result A) : flow A := λ w, (r, w).

Definition the_policy : flow PolicyConfig := λ w, (Ret (get_policy (sdk w)), w).

Definition the_state : flow state := λ w, (Ret (sdk w), w).

Definition in_state {A} (f : state → result A * state) : flow A := λ w,
  let '(r, s) := f (sdk w) in
  (r, {| sdk := s; agent_status := agent_status w; calls := calls w |}).

Definition in_connection {A} (f : SpawnConnection → result A * SpawnConnection) : flow A :=
  in_state (λ s, let '(r, c) := f (_connection s) in (r, set_connection (λ _, c) s)).

Definition sending (f : SpawnConnection → SpawnConnection) : flow () :=
  in_connection (λ c, (Ret (), f c)).

Definition calling (k : call) : flow () := λ w,
  (Ret (), {| sdk := sdk w; agent_status := agent_status w;
              calls := (calls w ++ [k])%list |}).

(** U+2713, as the bytes of its UTF-8 encoding. *)
Definition check_mark : string := "✓".

Definition label_value (label value : string) : json :=
  dict [("label", JStr label); ("value", JStr value)].

Section Example.
Context `{Host}.

(** [SubAgent.send_task] *)
Definition send_task (self : SubAgent) (task : string) (c : SpawnConnection)
    : SpawnConnection :=
  send (list_to_map
          [("type", JStr "internal_command");
           ("payload", dict [("from", JStr "parent");
                             ("to", JStr (sub_id self));
                             ("command", JStr "task");
                             ("data", dict [("task", JStr task)])])]) c.

(** [SubAgent.wait_for_result]: its body is [pass]. *)
Definition wait_for_result (self : SubAgent) : flow json := mret JNull.

(** [status.set] in a world. *)
Definition set_status (state : string) (label : option string) : flow () := λ w,
  let '(st, c) := status_set state label (agent_status w, _connection (sdk w)) in
  (Ret (), {| sdk := set_connection (λ _, c) (sdk w); agent_status := st;
              calls := calls w |}).

(** [handle_file_write]; [reply_path] answers the question about a path
    outside the allowed folders, [reply_write] the one about writing. *)
Definition handle_file_write (step : Step) (reply_path reply_write : option json)
    : flow () :=
  let path := target_path step in
  let write : flow () :=
    calling Execute;;
    sending (send_text (check_mark ++ " Wrote " ++ path) "plain") in
  let ask_write : flow () :=
    cfg ← the_policy;
    if requires_approval cfg "files.write" then
      approved ← in_connection
        (confirm "Write File?" (Some ("I want to write to " ++ path)) "low"
           (Some [label_value "Path" path;
                  label_value "Size" (pretty (String.length (content step)) ++ " bytes")])
           300 reply_write);
      if approved : bool then write else mret ()
    else write in
  cfg ← the_policy;
  forbidden ← raising (is_path_forbidden cfg path);
  if forbidden : bool then
    sending (send_error "PATH_FORBIDDEN" "Cannot Write File"
               ("The path " ++ path ++ " is in your protected paths list.")
               "warning" true None)
  else
    cfg ← the_policy;
    allowed ← raising (is_path_allowed cfg path);
    if allowed : bool then ask_write
    else
      approved ← in_connection
        (confirm ("Write to " ++ path ++ "?")
           (Some "This path isn't in your allowed folders.") "medium" None 300
           reply_path);
      if approved : bool then ask_write
      else sending (send_text ("Skipping write to " ++ path) "plain").

(** [handle_shell_command] *)
Definition handle_shell_command (step : Step) (reply : option json) : flow () :=
  let command := command step in
  cfg ← the_policy;
  if is_forbidden cfg "system.shell" then
    sending (send_error "SHELL_FORBIDDEN" "Shell Access Disabled"
               ("I'd like to run: " ++ command
                ++ String LF (String LF "But shell access is disabled in your settings."))
               "warning" true
               (Some [dict [("id", JStr "copy"); ("label", JStr "Copy Command")]]))
  else
    cmd_name ← raising (match split command with
                        | [] => Raise IndexError
                        | w :: _ => Ret w
                        end);
    cfg ← the_policy;
    allowed ← raising (is_command_allowed cfg cmd_name);
    approved ←
      (if allowed : bool then
         in_connection (confirm ("Run " ++ cmd_name ++ "?") (Some command) "medium"
                          None 300 reply)
       else
         in_connection
           (confirm "Run Shell Command?"
              (Some ("This command isn't in your allowed list:"
                     ++ String LF (String LF command)))
              "high" None 300 reply));
    if approved : bool then
      set_status "working" (Some ("Running " ++ cmd_name ++ "..."));;
      calling Execute;;
      sending (send_card ("Command Result: " ++ cmd_name) None None None None
                 (Some [label_value "Exit code" (pretty (exit_code step))]) None
                 "default")
    else sending (send_text ("Skipped: " ++ command) "plain").

(** [handle_sub_agent]; the value is the one [wait_for_result] gave, or
    [None]. *)
Definition handle_sub_agent (step : Step) (reply : option json) : flow json :=
  s ← the_state;
  if negb (can_spawn s) then
    s ← the_state;
    sending (send_text
               ("I'd like to spawn a sub-agent for '" ++ sub_agent_name step ++ "', "
                ++ "but I've reached the limit of " ++ pretty (max_concurrent s)
                ++ " concurrent sub-agents. "
                ++ "I'll do this sequentially instead.") "plain");;
    calling ExecuteSequentially;;
    mret JNull
  else
    sub ← in_state (request_spawn (sub_agent_name step) (sub_agent_role step)
                      (sub_agent_description step) (required_permissions step)
                      "task_bound" (spawn_reason step) None reply);
    match sub with
    | Some sub =>
        sending (send_text (check_mark ++ " Spawned " ++ sub_name sub) "plain");;
        sending (send_task sub (sub_agent_task step));;
        result ← wait_for_result sub;
        in_state (λ s, (Ret (), terminate sub "Task complete" s));;
        mret result
    | None =>
        sending (send_text
                   ("Sub-agent '" ++ sub_agent_name step ++ "' wasn't approved. "
                    ++ "I'll handle this myself.") "plain");;
        calling ExecuteSequentially;;
        mret JNull
    end.

(** [execute_step_safely]; [reply_path] is used by [handle_file_write]
    only. *)
Definition execute_step_safely (step : Step) (reply_path reply : option json) : flow () :=
  set_status "working"
    (Some ("Executing: " ++ str_take 50 (description step) ++ "..."));;
  if requires_file_write step then handle_file_write step reply_path reply
  else if requires_shell step then handle_shell_command step reply
  else if requires_sub_agent step then handle_sub_agent step reply;; mret ()
  else calling Execute.

(** The wrapper that [spawn_safe permission danger_level] makes of a
    function named [name]; [func] is the call of the function on the
    wrapper's arguments, and [None] the wrapper's own [None]. *)
Definition spawn_safe {A} (permission danger_level name : string) (func : flow A)
    (reply : option json) : flow (option A) :=
  cfg ← the_policy;
  if is_forbidden cfg permission then
    sending (send_error "PERMISSION_DENIED" (permission ++ " is disabled")
               ("The function " ++ name ++ " requires " ++ permission
                ++ ", which is forbidden.") "warning" true None);;
    mret None
  else
    cfg ← the_policy;
    if requires_approval cfg permission then
      approved ← in_connection
        (confirm ("Allow " ++ name ++ "?")
           (Some ("This action requires " ++ permission ++ " permission."))
           danger_level None 300 reply);
      if approved : bool then a ← func; mret (Some a) else mret None
    else a ← func; mret (Some a).

End Example.

(** A reply that confirms: the [action] of its payload is [confirm]. *)
Definition confirms (reply : option json) : Prop :=
  ∃ o p, reply = Some (JObj o) ∧ o !! "payload" = Some (JObj p) ∧
         p !! "action" = Some (JStr "confirm").

(** What stays as it is while a handler only talks to the app. *)
Definition talks (w w' : world) : Prop :=
  calls w' = calls w ∧ agent_status w' = agent_status w ∧
  _active (sdk w') = _active (sdk w) ∧
  _spawned_this_hour (sdk w') = _spawned_this_hour (sdk w) ∧
  get_policy (sdk w') = get_policy (sdk w).

(** ** Turns of the tasks that share the module

    Between two suspension points a task runs alone.  The tasks are the
    message loop and the callers of the module; of the calls below only
    [request_spawn] suspends, at the [await] in [_request]. *)

(** The module, the calls of [request_spawn] that are suspended, oldest
    first, and the exception that ended the message loop, if any. *)
Record tasks := {
  module_state : state;
  awaiting : list spawn_call;
  loop_ended : option exn
}.

(** One turn of one task.  [TRequestSpawn] is a call of [request_spawn] up
    to its [await]; [TResume i timed_out] is the [i]-th suspended call
    going on, after the timeout of [wait_for] expired or not; [TFrame] is
    one iteration of the message loop; the others are calls that run to
    their end in one turn. *)
Inductive turn :=
| TRequestSpawn (a : spawn_args)
| TSpawn (a : spawn_args)
| TTerminate (sub : SubAgent) (reason : string)
| TKillAll (reason : string) (transport : nat → option exn)
| TPauseSpawning
| TFrame (data : json)
| TResume (i : nat) (timed_out : bool).

Definition with_module (f : state → state) (w : tasks) : tasks :=
  {| module_state := f (module_state w); awaiting := awaiting w;
     loop_ended := loop_ended w |}.

Definition start (s : state) : tasks :=
  {| module_state := s; awaiting := []; loop_ended := None |}.

Section Turns.
Context `{Host}.

(** An exception of a call is its caller's to handle; the state the call
    leaves behind stays.  A suspended call whose future is still pending
    cannot go on.  The result is [None] after a policy push that the typed
    policy does not follow. *)
Definition run_turn (w : tasks) (t : turn) : option tasks :=
  match t with
  | TRequestSpawn a =>
      match request_spawn_begin (arg_name a) (arg_role a) (arg_description a)
              (arg_permissions a) (arg_lifespan a) (arg_reason a) (arg_icon a)
              (module_state w) with
      | (Ret call, s) =>
          Some {| module_state := s; awaiting := (awaiting w ++ [call])%list;
                  loop_ended := loop_ended w |}
      | (Raise _, s) => Some (with_module (λ _, s) w)
      end
  | TSpawn a => Some (with_module (λ s, (do_spawn a s).2) w)
  | TTerminate sub reason => Some (with_module (terminate sub reason) w)
  | TKillAll reason transport =>
      Some (with_module (λ s, (kill_all reason transport s).2) w)
  | TPauseSpawning => Some (with_module pause_spawning w)
  | TFrame data =>
      match loop_ended w with
      | Some _ => Some w
      | None =>
          match message_loop_turn (_connection (module_state w)) data with
          | Ret (Some c, _) => Some (with_module (set_connection (λ _, c)) w)
          | Ret (None, _) => None
          | Raise e =>
              Some {| module_state := module_state w; awaiting := awaiting w;
                      loop_ended := Some e |}
          end
      end
  | TResume i timed_out =>
      match awaiting w !! i with
      | None => Some w
      | Some call =>
          let s :=
            if timed_out
            then set_connection (_request_timeout (call_future call)) (module_state w)
            else module_state w in
          match futures (_connection s) !! call_future call with
          | Some Pending => Some w
          | _ =>
              Some {| module_state := (request_spawn_resume call s).2;
                      awaiting := delete i (awaiting w);
                      loop_ended := loop_ended w |}
          end
      end
  end.

Fixpoint run_turns (w : tasks) (ts : list turn) : option tasks :=
  match ts with
  | [] => Some w
  | t :: rest => w' ← run_turn w t; run_turns w' rest
  end.

(** What the caller does before [request_spawn] and [spawn]: it asks
    [can_spawn], as the example integration does, and with [alone] it also
    calls them only while no call of [request_spawn] is suspended. *)
Fixpoint follows (alone : bool) (w : tasks) (ts : list turn) : bool :=
  match ts with
  | [] => true
  | t :: rest =>
      match t with
      | TRequestSpawn _ | TSpawn _ =>
          can_spawn (module_state w)
          && (negb alone || match awaiting w with [] => true | _ => false end)
      | _ => true
      end
      && from_option (λ w', follows alone w' rest) true (run_turn w t)
  end.

Definition guarded : tasks → list turn → bool := follows false.

Definition disciplined : tasks → list turn → bool := follows true.

End Turns.

(** A frame that pushes a policy. *)
Definition is_policy_push (data : json) : bool :=
  match data with
  | JObj o => is_JStr "policy_update" (default JNull (o !! "type"))
  | _ => false
  end.

(** The policy stays in force: no frame is a policy push. *)
Definition policy_in_force (ts : list turn) : bool :=
  forallb (λ t, match t with
                | TFrame data => negb (is_policy_push data)
                | _ => true
                end) ts.

(** ** More sample inputs *)

(** A handler that returns. *)
Definition accept_all : handler := λ _, Ret ().

Definition typing_frame : gmap string json :=
  list_to_map [("type", JStr "typing_indicator")].

Definition confirmation_reply_frame (request_id action : string) : gmap string json :=
  list_to_map
    [("type", JStr "confirmation_response");
     ("payload", dict [("request_id", JStr request_id);
                       ("action", JStr action)])].

Definition mode_update : gmap string json := {["auto_spawn_mode" := JStr "trusted"]}.

Definition cap_update : gmap string json := {["max_concurrent_sub_agents" := JNum 2]}.

Definition policy_push (payload : gmap string json) : gmap string json :=
  list_to_map [("type", JStr "policy_update"); ("payload", JObj payload)].

Definition push_without_payload : gmap string json :=
  list_to_map [("type", JStr "policy_update")].

Definition build_steps : list string := ["fetch"; "build"; "test"].

Definition fresh_world : world :=
  {| sdk := initial_state; agent_status := initial_status; calls := [] |}.

Definition sample_step : Step := {|
  target_path := "/tmp/report.txt";
  content := "done";
  command := "ls -l";
  sub_agent_name := "Log Reader";
  sub_agent_role := None;
  sub_agent_description := None;
  required_permissions := None;
  spawn_reason := None;
  sub_agent_task := "read the logs";
  exit_code := 0;
  description := "write the report";
  requires_file_write := true;
  requires_shell := false;
  requires_sub_agent := false
|}.

(** The id of the spawn request that draws its identifiers from the
    [n]-th on, under [serial_host]. *)
Definition spawn_request_id (n : nat) : string :=
  "spawn_req_" ++ str_take 12 (uuid4_hex (Host := serial_host) n).

(** A call of [request_spawn], the reply that approves it, and the call
    going on. *)
Definition approved_request (n : nat) : list turn :=
  [TRequestSpawn worker; TFrame (approval (spawn_request_id n)); TResume 0 false].

Definition six_approved_requests : list turn :=
  (approved_request 0 ++ approved_request 3 ++ approved_request 6
   ++ approved_request 9 ++ approved_request 12 ++ approved_request 15)%list.

(** Two calls of [request_spawn] that overlap: both are made before either
    reply arrives. *)
Definition overlapping_requests : list turn :=
  [TRequestSpawn worker; TRequestSpawn worker;
   TFrame (approval (spawn_request_id 0)); TFrame (approval (spawn_request_id 3));
   TResume 0 false; TResume 0 false].

Definition busy_schedule : list turn :=
  [TRequestSpawn worker; TTerminate (new_sub_agent "sub_x" "x" None) "done";
   TFrame (approval (spawn_request_id 0)); TResume 0 false;
   TSpawn worker; TKillAll "User requested" (transport_down_at 1);
   TKillAll "User requested" transport_up;
   TSpawn worker; TRequestSpawn worker; TResume 0 true].

(** * Properties *)

Lemma py_in_true (x : string) (xs : list string) : py_in x xs = true ↔ x ∈ xs.
Proof. apply bool_decide_eq_true. Qed.

Lemma py_in_false (x : string) (xs : list string) : py_in x xs = false ↔ x ∉ xs.
Proof. apply bool_decide_eq_false. Qed.

(** Membership in a literal list, decided by evaluation. *)
Ltac in_list := apply (proj1 (py_in_true _ _)); vm_compute; reflexivity.
Ltac not_in_list := apply (proj1 (py_in_false _ _)); vm_compute; reflexivity.

Lemma truthy_false (s : string) : truthy s = false ↔ s = "".
Proof. destruct s; simpl; split; congruence. Qed.

Lemma result_bind_ret {A B} (f : A → result B) (m : result A) (b : B) :
  m ≫= f = Ret b ↔ ∃ a, m = Ret a ∧ f a = Ret b.
Proof.
  destruct m as [a|e]; simpl; split.
  - intros Hf. by exists a.
  - by intros (a' & [= <-] & Hf).
  - discriminate.
  - by intros (a' & [=] & _).
Qed.

(** ** [is_allowed] *)

Section PolicyFacts.
Context `{Host}.

Lemma is_allowed_forbidden (cfg : PolicyConfig) (p : string) (t : option string) :
  p ∈ permissions_forbidden cfg → is_allowed cfg p t = Ret false.
Proof.
  intros Hf. unfold is_allowed.
  by rewrite (proj2 (py_in_true _ _) Hf).
Qed.

Lemma is_allowed_not_granted (cfg : PolicyConfig) (p : string) (t : option string) :
  p ∉ permissions_allowed cfg → is_allowed cfg p t = Ret false.
Proof.
  intros Ha. unfold is_allowed.
  rewrite (proj2 (py_in_false p (permissions_allowed cfg)) Ha).
  by destruct (py_in p (permissions_forbidden cfg)).
Qed.

(** The value of the path check that [is_allowed] delegates to. *)
Lemma is_allowed_with_target (cfg : PolicyConfig) (p path : string) :
  p ∉ permissions_forbidden cfg → p ∈ permissions_allowed cfg →
  startswith p "files." = true → path ≠ "" →
  is_allowed cfg p (Some path) =
    (a ← is_path_allowed cfg path;
     if a : bool then f ← is_path_forbidden cfg path; Ret (negb f) else Ret false).
Proof.
  intros Hf Ha Hp Ht. unfold is_allowed.
  rewrite (proj2 (py_in_false _ _) Hf), (proj2 (py_in_true _ _) Ha), Hp.
  destruct path; [done|]. done.
Qed.

Lemma is_allowed_plain (cfg : PolicyConfig) (p : string) (t : option string) :
  p ∉ permissions_forbidden cfg → p ∈ permissions_allowed cfg →
  startswith p "files." = false ∨ t = None ∨ t = Some "" →
  is_allowed cfg p t = Ret true.
Proof.
  intros Hf Ha Hc. unfold is_allowed.
  rewrite (proj2 (py_in_false _ _) Hf), (proj2 (py_in_true _ _) Ha).
  destruct Hc as [-> | [-> | ->]]; [done | |]; by rewrite andb_false_r.
Qed.

(** C1, as amended: the forbidden set wins; a permission that is not
    forbidden and is in the allowed set, starts with [files.] and comes with
    a non-empty target is allowed exactly when the target matches the path
    allow-list and does not match the path forbid-list; a permission that
    is not forbidden and is in the allowed set is allowed in every other
    case (not file-scoped, no target, or the empty target); a permission
    that is not in the allowed set is not allowed. *)
Theorem is_allowed_precedence (cfg : PolicyConfig) (p : string) (t : option string) :
  (p ∈ permissions_forbidden cfg → is_allowed cfg p t = Ret false) ∧
  (p ∉ permissions_forbidden cfg → p ∈ permissions_allowed cfg →
   startswith p "files." = true →
   ∀ path, t = Some path → path ≠ "" →
     (is_allowed cfg p t = Ret true ↔
      is_path_allowed cfg path = Ret true ∧ is_path_forbidden cfg path = Ret false)) ∧
  (p ∉ permissions_forbidden cfg → p ∈ permissions_allowed cfg →
   startswith p "files." = false ∨ t = None ∨ t = Some "" →
   is_allowed cfg p t = Ret true) ∧
  (p ∉ permissions_allowed cfg → is_allowed cfg p t = Ret false).
Proof.
  split; [apply is_allowed_forbidden|].
  split; [|split; [apply is_allowed_plain | apply is_allowed_not_granted]].
  intros Hf Ha Hp path -> Ht.
  rewrite is_allowed_with_target by done.
  destruct (is_path_allowed cfg path) as [[]|e]; simpl.
  - destruct (is_path_forbidden cfg path) as [[]|e]; simpl; split;
      try discriminate; try done; by intros [_ [=]].
  - split; [discriminate | by intros [[=] _]].
  - split; [discriminate | by intros [[=] _]].
Qed.

(** C10, as amended: a file-scoped permission that is in the allowed set
    and not in the forbidden set is allowed when no target is given,
    whatever the path allow-list and forbid-list hold. *)
Theorem is_allowed_without_target (cfg : PolicyConfig) (p : string)
    (allowed forbidden : list string) :
  startswith p "files." = true →
  p ∈ permissions_allowed cfg →
  p ∉ permissions_forbidden cfg →
  is_allowed (with_paths allowed forbidden cfg) p None = Ret true.
Proof.
  intros _ Ha Hf. apply is_allowed_plain; auto.
Qed.

(** ** [is_command_allowed] *)

Lemma is_command_allowed_token (cfg : PolicyConfig) (command w : string) (ws : list string) :
  split command = w :: ws →
  is_command_allowed cfg command = Ret (py_in w (allowed_commands cfg)).
Proof.
  intros Hs. unfold is_command_allowed. rewrite Hs.
  destruct command; [done|]. done.
Qed.

Lemma is_command_allowed_empty (cfg : PolicyConfig) :
  is_command_allowed cfg "" = Ret (py_in "" (allowed_commands cfg)).
Proof. done. Qed.

Lemma is_command_allowed_blank (cfg : PolicyConfig) (command : string) :
  command ≠ "" → split command = [] →
  is_command_allowed cfg command = Raise IndexError.
Proof.
  intros Hne Hs. unfold is_command_allowed. rewrite Hs.
  destruct command; done.
Qed.

End PolicyFacts.

(** C1, counterexample: under the default policy [files.read] is allowed
    and file-scoped, the empty string is supplied as target, the path
    allow-list is empty and matches nothing, and yet the answer is true. *)
Lemma is_allowed_empty_target :
  "files.read" ∈ permissions_allowed default_policy ∧
  ("files.read" ∉ permissions_forbidden default_policy) ∧
  (startswith "files.read" "files." = true) ∧
  @is_allowed home_host default_policy "files.read" (Some "") = Ret true ∧
  @is_path_allowed home_host default_policy "" = Ret false ∧
  ¬ ((@is_allowed home_host default_policy "files.read" (Some "") = Ret true) ↔
     (@is_path_allowed home_host default_policy "" = Ret true ∧
      @is_path_forbidden home_host default_policy "" = Ret false)).
Proof.
  split; [in_list|]. split; [not_in_list|].
  repeat split; try done.
  intros [Hiff _]. by destruct Hiff as [[=] _].
Qed.

Lemma is_allowed_precedence_witness :
  @is_allowed home_host default_policy "system.shell" (Some "/tmp/x") = Ret false ∧
  ((@is_allowed home_host (with_paths ["/srv/**"] ["**/secrets/**"] default_policy)
      "files.read" (Some "/srv/data/log.txt") = Ret true) ↔
   (@is_path_allowed home_host (with_paths ["/srv/**"] ["**/secrets/**"] default_policy)
      "/srv/data/log.txt" = Ret true ∧
    @is_path_forbidden home_host (with_paths ["/srv/**"] ["**/secrets/**"] default_policy)
      "/srv/data/log.txt" = Ret false)) ∧
  @is_allowed home_host default_policy "agent.message" (Some "/tmp/x") = Ret true ∧
  @is_allowed home_host default_policy "network.fetch" None = Ret false.
Proof.
  split; [|split; [|split]].
  - apply (proj1 (is_allowed_precedence (H:=home_host) default_policy
                    "system.shell" (Some "/tmp/x"))).
    in_list.
  - apply (proj1 (proj2 (is_allowed_precedence (H:=home_host)
             (with_paths ["/srv/**"] ["**/secrets/**"] default_policy)
             "files.read" (Some "/srv/data/log.txt")))).
    + not_in_list.
    + in_list.
    + reflexivity.
    + reflexivity.
    + discriminate.
  - apply (proj1 (proj2 (proj2 (is_allowed_precedence (H:=home_host) default_policy
                                  "agent.message" (Some "/tmp/x"))))).
    + not_in_list.
    + in_list.
    + left. reflexivity.
  - apply (proj2 (proj2 (proj2 (is_allowed_precedence (H:=home_host) default_policy
                                  "network.fetch" None)))).
    not_in_list.
Defined.

(** C10, counterexample: a file-scoped permission that is in the allowed
    set and also in the forbidden set is refused when no target is
    given. *)
Lemma is_allowed_without_target_forbidden :
  (startswith "files.read" "files." = true) ∧
  "files.read" ∈ permissions_allowed
    (with_permissions ["files.read"] ["files.read"] [] default_policy) ∧
  @is_allowed home_host
    (with_permissions ["files.read"] ["files.read"] [] default_policy)
    "files.read" None = Ret false.
Proof. split; [done|]. split; [in_list|done]. Qed.

Lemma is_allowed_without_target_witness :
  @is_allowed home_host (with_paths [] ["**"] default_policy) "files.read" None = Ret true.
Proof.
  apply (is_allowed_without_target (H:=home_host) default_policy "files.read" [] ["**"]).
  - reflexivity.
  - in_list.
  - not_in_list.
Defined.

(** C8, the failing input: a command of one space has no token, and the
    lookup of the first token raises. *)
Lemma is_command_allowed_whitespace_only :
  split " " = [] ∧
  is_command_allowed default_policy " " = Raise IndexError ∧
  is_command_allowed default_policy "" = Ret false.
Proof. done. Qed.

(** ** [would_auto_approve] *)

Lemma check_permissions_false (cfg : PolicyConfig) (permissions : list (gmap string json)) :
  check_permissions cfg permissions = false ↔
  ∃ perm, perm ∈ permissions ∧
    (json_in (scope_of perm) (permissions_forbidden cfg) = true ∨
     (auto_spawn_mode cfg = "constrained" ∧
      json_in (scope_of perm) (permissions_ask cfg) = true)).
Proof.
  induction permissions as [|perm rest IH]; simpl.
  - split; [discriminate|]. intros (perm & Hin & _). by apply elem_of_nil in Hin.
  - destruct (json_in (scope_of perm) (permissions_forbidden cfg)) eqn:Hf.
    { split; [|done]. intros _. exists perm. split; [left|]; auto. }
    destruct (bool_decide (auto_spawn_mode cfg = "constrained")
              && json_in (scope_of perm) (permissions_ask cfg)) eqn:Ha.
    { apply andb_true_iff in Ha as [Hm Ha]. apply bool_decide_eq_true in Hm.
      split; [|done]. intros _. exists perm. split; [left|]; auto. }
    rewrite IH. split.
    + intros (q & Hin & Hq). exists q. split; [by right|done].
    + intros (q & Hin & Hq). apply elem_of_cons in Hin as [-> | Hin].
      * destruct Hq as [Hq | [Hm Hq]]; [congruence|].
        rewrite Hq, andb_true_r in Ha. apply bool_decide_eq_false in Ha. done.
      * by exists q.
Qed.

(** The membership test of the loop, spelled out: the scope of a
    requested permission is the value under its key [scope], or the empty
    string when it has none, and it is in a list of the policy when it is
    a string that occurs in the list. *)
Lemma json_in_scope (perm : gmap string json) (l : list string) :
  json_in (scope_of perm) l = true ↔
  ∃ s, default (JStr "") (perm !! "scope") = JStr s ∧ s ∈ l.
Proof.
  unfold scope_of, json_in.
  destruct (default (JStr "") (perm !! "scope")) as [| | |s| |];
    try (split; [discriminate | by intros (? & ? & _)]).
  rewrite py_in_true. split.
  - intros Hs. by exists s.
  - by intros (? & [= <-] & Hs).
Qed.

(** C5: [would_auto_approve] is false in the modes [off] and [queue] and
    true in [unrestricted]; in [trusted] it is false exactly when the scope
    of some requested permission is in the forbidden list, so a scope of
    the ask list alone does not prevent approval; in [constrained] it is
    false exactly when the scope of some requested permission is in the
    forbidden list or in the ask list; otherwise it is true. *)
Theorem would_auto_approve_modes (cfg : PolicyConfig) (permissions : list (gmap string json)) :
  (auto_spawn_mode cfg = "off" ∨ auto_spawn_mode cfg = "queue" →
   would_auto_approve cfg permissions = false) ∧
  (auto_spawn_mode cfg = "unrestricted" →
   would_auto_approve cfg permissions = true) ∧
  (auto_spawn_mode cfg = "trusted" →
   (would_auto_approve cfg permissions = false ↔
    ∃ perm s, perm ∈ permissions ∧
      default (JStr "") (perm !! "scope") = JStr s ∧
      s ∈ permissions_forbidden cfg)) ∧
  (auto_spawn_mode cfg = "constrained" →
   (would_auto_approve cfg permissions = false ↔
    ∃ perm s, perm ∈ permissions ∧
      default (JStr "") (perm !! "scope") = JStr s ∧
      (s ∈ permissions_forbidden cfg ∨ s ∈ permissions_ask cfg))).
Proof.
  unfold would_auto_approve. split; [|split; [|split]].
  - by intros [-> | ->].
  - by intros ->.
  - intros Hm. rewrite Hm. simpl. rewrite check_permissions_false. split.
    + intros (perm & Hin & [Hf | [Hc _]]); [|congruence].
      apply json_in_scope in Hf as (s & Hs & Hf). by exists perm, s.
    + intros (perm & s & Hin & Hs & Hf). exists perm. split; [done|]. left.
      apply json_in_scope. by exists s.
  - intros Hm. rewrite Hm. simpl. rewrite check_permissions_false. split.
    + intros (perm & Hin & [Hf | [_ Ha]]).
      * apply json_in_scope in Hf as (s & Hs & Hf). exists perm, s. auto.
      * apply json_in_scope in Ha as (s & Hs & Ha). exists perm, s. auto.
    + intros (perm & s & Hin & Hs & [Hf | Ha]); exists perm; (split; [done|]).
      * left. apply json_in_scope. by exists s.
      * right. split; [done|]. apply json_in_scope. by exists s.
Qed.

Lemma would_auto_approve_modes_witness :
  would_auto_approve (with_mode "queue" 5 10 default_policy)
    [{["scope" := JStr "files.read"]}] = false ∧
  would_auto_approve (with_mode "unrestricted" 5 10 default_policy)
    [{["scope" := JStr "system.shell"]}] = true ∧
  would_auto_approve (with_mode "trusted" 5 10 default_policy)
    [{["scope" := JStr "files.read"]}; {["scope" := JStr "system.shell"]}] = false ∧
  would_auto_approve (with_mode "trusted" 5 10 default_policy)
    [{["scope" := JStr "files.write"]}] = true ∧
  would_auto_approve (with_mode "constrained" 5 10 default_policy)
    [{["scope" := JStr "files.write"]}] = false ∧
  would_auto_approve (with_mode "constrained" 5 10 default_policy)
    [{["scope" := JStr "files.read"]}] = true.
Proof.
  split; [|split; [|split; [|split; [|split]]]].
  - apply (proj1 (would_auto_approve_modes (with_mode "queue" 5 10 default_policy)
                    [{["scope" := JStr "files.read"]}])).
    right. reflexivity.
  - apply (proj1 (proj2 (would_auto_approve_modes
                           (with_mode "unrestricted" 5 10 default_policy)
                           [{["scope" := JStr "system.shell"]}]))).
    reflexivity.
  - apply (proj1 (proj2 (proj2 (would_auto_approve_modes
                                  (with_mode "trusted" 5 10 default_policy)
                                  [{["scope" := JStr "files.read"]};
                                   {["scope" := JStr "system.shell"]}]))) eq_refl).
    exists {["scope" := JStr "system.shell"]}, "system.shell".
    split; [apply list_elem_of_further, list_elem_of_here|].
    split; [reflexivity | apply list_elem_of_here].
  - destruct (would_auto_approve (with_mode "trusted" 5 10 default_policy)
                [{["scope" := JStr "files.write"]}]) eqn:Hw; [reflexivity|].
    apply (proj1 (proj2 (proj2 (would_auto_approve_modes
                                  (with_mode "trusted" 5 10 default_policy)
                                  [{["scope" := JStr "files.write"]}]))) eq_refl) in Hw.
    destruct Hw as (perm & s & Hin & Hs & Hf).
    apply list_elem_of_singleton in Hin as ->.
    rewrite lookup_singleton_eq in Hs. injection Hs as <-.
    cbn in Hf. repeat (apply elem_of_cons in Hf as [Hf | Hf]; [discriminate Hf|]).
    by apply elem_of_nil in Hf.
  - apply (proj2 (proj2 (proj2 (would_auto_approve_modes
                                  (with_mode "constrained" 5 10 default_policy)
                                  [{["scope" := JStr "files.write"]}]))) eq_refl).
    exists {["scope" := JStr "files.write"]}, "files.write".
    split; [apply list_elem_of_here|].
    split; [reflexivity | right; apply list_elem_of_here].
  - destruct (would_auto_approve (with_mode "constrained" 5 10 default_policy)
                [{["scope" := JStr "files.read"]}]) eqn:Hw; [reflexivity|].
    apply (proj2 (proj2 (proj2 (would_auto_approve_modes
                                  (with_mode "constrained" 5 10 default_policy)
                                  [{["scope" := JStr "files.read"]}]))) eq_refl) in Hw.
    destruct Hw as (perm & s & Hin & Hs & Hf).
    apply list_elem_of_singleton in Hin as ->.
    rewrite lookup_singleton_eq in Hs. injection Hs as <-.
    cbn in Hf. destruct Hf as [Hf | Hf];
      repeat (apply elem_of_cons in Hf as [Hf | Hf]; [discriminate Hf|]);
      by apply elem_of_nil in Hf.
Defined.

(** The scenario of the specification: an ask-set scope is refused in
    [constrained] mode and approved in [trusted] mode. *)
Lemma would_auto_approve_ask_scope :
  would_auto_approve (with_mode "constrained" 5 10 default_policy)
    [{["scope" := JStr "files.write"]}] = false ∧
  would_auto_approve (with_mode "trusted" 5 10 default_policy)
    [{["scope" := JStr "files.write"]}] = true.
Proof. split; vm_compute; reflexivity. Qed.

(** ** The registry *)

Section AgentsFacts.
Context `{Host}.

Lemma send_policy (m : gmap string json) (c : SpawnConnection) :
  policy (send m c) = policy c.
Proof. unfold send, fresh_uuid, now. by repeat case_bool_decide. Qed.

Lemma send_sent (m : gmap string json) (c : SpawnConnection) :
  ∃ frame, sent (send m c) = (sent c ++ [frame])%list.
Proof. unfold send, fresh_uuid, now. repeat case_bool_decide; simpl; eauto. Qed.

Lemma _request_policy (m : gmap string json) (response : option json) (c : SpawnConnection) :
  policy (_request m response c).2 = policy c.
Proof.
  unfold _request, _request_begin.
  destruct (py_get _ _ _) as [rid|]; simpl; [|done].
  destruct (to_key _) as [key|]; simpl; [|done].
  by destruct response.
Qed.

Lemma terminate_frame (sub : SubAgent) (reason : string) (s : state) :
  _active (terminate sub reason s) = _active s ∧
  _spawned_this_hour (terminate sub reason s) = _spawned_this_hour s ∧
  _spawning_paused (terminate sub reason s) = _spawning_paused s ∧
  get_policy (terminate sub reason s) = get_policy s.
Proof.
  unfold terminate, get_policy. simpl. by rewrite send_policy.
Qed.

Lemma request_spawn_grows (a : spawn_args) (response : option json) (s : state) :
  grows_by_at_most_one s (do_request_spawn a response s).2.
Proof.
  unfold do_request_spawn, request_spawn, fresh_uuid, now. cbv zeta.
  match goal with |- context [_request ?m ?r ?c] =>
    pose proof (_request_policy m r c) as Hp; destruct (_request m r c) as [v c'] end.
  simpl in Hp. unfold grows_by_at_most_one, get_policy.
  destruct (v ≫= is_approved) as [[]|]; simpl; rewrite Hp; eauto.
Qed.

Lemma spawn_grows (a : spawn_args) (s : state) :
  grows_by_at_most_one s (do_spawn a s).2.
Proof.
  unfold do_spawn, spawn, fresh_uuid, grows_by_at_most_one, get_policy.
  destruct (negb _); [by auto|]. cbv zeta.
  destruct (arg_notify a); simpl; rewrite ?send_policy; eauto.
Qed.

(** C6: [spawn] raises a permission error exactly when
    [would_auto_approve] is false for the requested permissions, and then
    the state is the one it started from: no handle, the same active list
    and hourly counter, nothing sent. *)
Theorem spawn_permission_error (name : string) (role : option string)
    (permissions : option (list (gmap string json))) (lifespan : string)
    (notify : bool) (s : state) :
  ((∃ msg, (spawn name role permissions lifespan notify s).1 = Raise (PermissionError msg)) ↔
   would_auto_approve (get_policy s) (default [] permissions) = false) ∧
  (∀ e, (spawn name role permissions lifespan notify s).1 = Raise e →
     (∃ msg, e = PermissionError msg) ∧
     (spawn name role permissions lifespan notify s).2 = s ∧
     _active (spawn name role permissions lifespan notify s).2 = _active s ∧
     _spawned_this_hour (spawn name role permissions lifespan notify s).2
       = _spawned_this_hour s ∧
     sent (_connection (spawn name role permissions lifespan notify s).2)
       = sent (_connection s)).
Proof.
  unfold spawn.
  destruct (would_auto_approve (get_policy s) (default [] permissions)); simpl.
  - split.
    + split; [|done]. intros [msg Hr]. revert Hr. unfold fresh_uuid. discriminate.
    + intros e. unfold fresh_uuid. discriminate.
  - split.
    + split; [done|]. intros _. eauto.
    + intros e [= <-]. eauto 10.
Qed.

(** A spawn that is let through adds the handle, counts it and sends the
    spawn notice. *)
Lemma spawn_success (name : string) (role : option string)
    (permissions : option (list (gmap string json))) (lifespan : string)
    (notify : bool) (s : state) :
  would_auto_approve (get_policy s) (default [] permissions) = true →
  ∃ sub, (spawn name role permissions lifespan notify s).1 = Ret sub ∧
    sub_status sub = "online" ∧
    _active (spawn name role permissions lifespan notify s).2 = (_active s ++ [sub])%list ∧
    _spawned_this_hour (spawn name role permissions lifespan notify s).2
      = _spawned_this_hour s + 1.
Proof.
  intros Hw. unfold spawn. rewrite Hw. simpl. unfold fresh_uuid.
  eexists. split; [reflexivity|]. by destruct notify.
Qed.

(** [can_spawn] reads the policy, the active list and the hourly counter,
    and nothing else. *)
Lemma can_spawn_reads (s s' : state) :
  get_policy s' = get_policy s → _active s' = _active s →
  _spawned_this_hour s' = _spawned_this_hour s →
  can_spawn s' = can_spawn s.
Proof. intros Hp Ha Hn. unfold can_spawn. by rewrite Hp, Ha, Hn. Qed.

Lemma can_spawn_below_cap (s : state) :
  auto_spawn_mode (get_policy s) ≠ "off" → can_spawn s = true →
  active_count s < max_concurrent s.
Proof.
  unfold can_spawn, active_count, max_concurrent. intros Hm.
  rewrite bool_decide_eq_false_2 by done.
  destruct (Z.geb_spec (Z.of_nat (length (_active s)))
              (max_concurrent_sub_agents (get_policy s))); [discriminate|lia].
Qed.

End AgentsFacts.

Lemma spawn_permission_error_witness :
  ∃ msg, (@spawn home_host "Log Worker" None
            (Some [{["scope" := JStr "system.shell"]}]) "task_bound" true
            (state_with (with_mode "trusted" 5 10 default_policy))).1
         = Raise (PermissionError msg).
Proof.
  apply (proj1 (spawn_permission_error (H:=home_host) "Log Worker" None
                  (Some [{["scope" := JStr "system.shell"]}]) "task_bound" true
                  (state_with (with_mode "trusted" 5 10 default_policy)))).
  reflexivity.
Defined.

(** C3, the failing input: with a cap of one and one active handle,
    [terminate] sends its notice and changes nothing else: the handle is
    still in the active list with the status it had, [can_spawn] still
    answers false, and a second [terminate] sends a second notice. *)
Lemma terminate_leaves_handle_active :
  ∃ h : SubAgent,
    _active (@do_spawn home_host worker
               (state_with (with_mode "trusted" 1 10 default_policy))).2 = [h] ∧
    can_spawn (@do_spawn home_host worker
                 (state_with (with_mode "trusted" 1 10 default_policy))).2 = false ∧
    _active (@terminate home_host h "Task complete"
               (@do_spawn home_host worker
                  (state_with (with_mode "trusted" 1 10 default_policy))).2) = [h] ∧
    sub_status h = "online" ∧
    can_spawn (@terminate home_host h "Task complete"
                 (@do_spawn home_host worker
                    (state_with (with_mode "trusted" 1 10 default_policy))).2) = false ∧
    length (sent (_connection
      (@terminate home_host h "Task complete"
         (@terminate home_host h "Task complete"
            (@do_spawn home_host worker
               (state_with (with_mode "trusted" 1 10 default_policy))).2)))) =
    S (length (sent (_connection
      (@terminate home_host h "Task complete"
         (@do_spawn home_host worker
            (state_with (with_mode "trusted" 1 10 default_policy))).2)))).
Proof. eexists. repeat split; vm_compute; reflexivity. Qed.

(** C7, the failing input: after [pause_spawning] the flag is set, and
    yet [can_spawn] answers true and an approved [request_spawn] creates a
    sub-agent. *)
Lemma pause_spawning_not_honoured :
  _spawning_paused (pause_spawning initial_state) = Some true ∧
  can_spawn (pause_spawning initial_state) = true ∧
  ∃ sub : SubAgent,
    (@do_request_spawn home_host worker (Some (approval "r"))
       (pause_spawning initial_state)).1 = Ret (Some sub) ∧
    _active (@do_request_spawn home_host worker (Some (approval "r"))
               (pause_spawning initial_state)).2 = [sub].
Proof.
  split; [reflexivity|]. split; [reflexivity|].
  eexists. split; vm_compute; reflexivity.
Qed.

(** ** Reply correlation *)

Lemma set_result_pending (f f' : future) (v : json) :
  set_result f v = Ret f' → f = Pending ∧ f' = Finished v.
Proof. destruct f; simpl; [|discriminate..]. by intros [= <-]. Qed.

Lemma cancel_resolved (f : future) : f ≠ Pending → cancel f = f.
Proof. by destruct f. Qed.

(** A reply is delivered to a future that is registered and pending. *)
Lemma resolve_reply_some (c c' : SpawnConnection) (data : json) (key : pykey) :
  resolve_reply c data = Ret (Some (c', key)) →
  ∃ fut, _pending_responses c !! key = Some fut ∧
         futures c !! fut = Some Pending ∧
         c' = set_futures (<[fut := Finished data]>) c.
Proof.
  unfold resolve_reply. intros Hr.
  apply result_bind_ret in Hr as (payload & _ & Hr).
  apply result_bind_ret in Hr as ([] & _ & Hr); [|discriminate].
  apply result_bind_ret in Hr as (payload' & _ & Hr).
  apply result_bind_ret in Hr as (req_id & _ & Hr).
  apply result_bind_ret in Hr as (key' & _ & Hr).
  destruct (_pending_responses c !! key') as [fut|] eqn:Hk; [|discriminate].
  apply result_bind_ret in Hr as (f & Hf & Hr).
  apply result_bind_ret in Hr as (f' & Hset & Hr).
  injection Hr as <- <-.
  apply set_result_pending in Hset as [-> ->].
  exists fut. split; [done|]. split; [|done].
  by destruct (futures c !! fut); simplify_eq/=.
Qed.

(** An iteration of the loop changes the connection only by delivering a
    reply. *)
Lemma message_loop_body_effect (c c' : SpawnConnection) (data : json) (d : dispatch) :
  message_loop_body c data = Ret (c', d) →
  c' = c ∨ ∃ key, resolve_reply c data = Ret (Some (c', key)).
Proof.
  unfold message_loop_body. intros Hb.
  apply result_bind_ret in Hb as (msg_type & _ & Hb).
  apply result_bind_ret in Hb as (r & Hr & Hb).
  destruct r as [[c1 key]|].
  { injection Hb as <- <-. right. by exists key. }
  left.
  apply result_bind_ret in Hb as (tkey & _ & Hb).
  repeat (first
    [ match goal with
      | Hx : _ ≫= _ = Ret _ |- _ => apply result_bind_ret in Hx as (? & ? & Hx)
      end
    | case_match ]; simplify_eq/=); done.
Qed.

Section ConnectionFacts.

(** A future that is no longer pending keeps its state whatever happens
    next: its slot is filled at most once. *)
Lemma run_event_resolved (c : SpawnConnection) (dead : option exn) (ev : event)
    (fut : nat) (f : future) :
  f ≠ Pending → futures c !! fut = Some f →
  futures (run_event (c, dead) ev).1 !! fut = Some f.
Proof.
  intros Hf Hfut. destruct ev as [data | message | fut' | key]; simpl.
  - destruct dead; [done|].
    destruct (message_loop_body c data) as [[c' d]|e] eqn:Hb; [|done].
    apply message_loop_body_effect in Hb as [-> | [key Hr]]; [done|].
    apply resolve_reply_some in Hr as (fut' & _ & Hp & ->). simpl.
    rewrite lookup_insert_ne; [done|]. intros ->. congruence.
  - destruct (_request_begin message c) as [[[key fut'] c']|e] eqn:Hb; [|done].
    unfold _request_begin in Hb.
    apply result_bind_ret in Hb as (rid & _ & Hb).
    apply result_bind_ret in Hb as (key' & _ & Hb).
    injection Hb as <- <- <-. simpl.
    rewrite lookup_insert_ne; [done|]. intros Heq.
    apply (is_fresh (dom (futures c))). rewrite Heq.
    apply elem_of_dom. by exists f.
  - unfold _request_timeout. simpl. rewrite lookup_alter.
    case_decide; [|done]. subst. rewrite Hfut. simpl. by rewrite cancel_resolved.
  - done.
Qed.

(** The same along any schedule: once a slot is filled or cancelled, no
    later reply, timeout, return or new request changes it. *)
Lemma run_events_resolved (st : SpawnConnection * option exn) (evs : list event)
    (fut : nat) (f : future) :
  f ≠ Pending → futures st.1 !! fut = Some f →
  futures (run_events st evs).1 !! fut = Some f.
Proof.
  unfold run_events. revert st.
  induction evs as [|ev evs IH]; intros [c dead] Hf Hfut; simpl; [done|].
  apply IH; [done|]. by apply run_event_resolved.
Qed.

(** Once the loop has stopped, no frame is handled any more. *)
Lemma run_event_dead (c : SpawnConnection) (e : exn) (data : json) :
  run_event (c, Some e) (EvFrame data) = (c, Some e).
Proof. done. Qed.

End ConnectionFacts.

(** C4, the failing input: one request in flight and two replies that
    carry its request id, handled one after the other.  The first fills
    the slot; the entry is still in the table when the second comes, its
    [set_result] raises and the loop ends: the frame behind it is never
    handled.  The slot itself keeps the first reply.  A reply that comes
    after the timeout cancelled the future and before the caller removed
    the entry ends the loop in the same way. *)
Lemma duplicate_reply_stops_loop :
  _pending_responses one_request_pending !! Some (inl "cfm_1") = Some 0%nat ∧
  futures one_request_pending !! 0%nat = Some Pending ∧
  (_message_loop one_request_pending
     [confirmation_reply "cfm_1" "confirm"; confirmation_reply "cfm_1" "confirm";
      dict [("type", JStr "status")]]).1.2 = [Resolved (Some (inl "cfm_1"))] ∧
  (_message_loop one_request_pending
     [confirmation_reply "cfm_1" "confirm"; confirmation_reply "cfm_1" "confirm";
      dict [("type", JStr "status")]]).2 = Some InvalidStateError ∧
  futures (_message_loop one_request_pending
     [confirmation_reply "cfm_1" "confirm"; confirmation_reply "cfm_1" "confirm";
      dict [("type", JStr "status")]]).1.1 !! 0%nat
    = Some (Finished (confirmation_reply "cfm_1" "confirm")) ∧
  (run_events (one_request_pending, None)
     [EvFrame (confirmation_reply "cfm_1" "confirm");
      EvFrame (confirmation_reply "cfm_1" "cancel")]).2 = Some InvalidStateError ∧
  (run_events (one_request_pending, None)
     [EvTimeout 0; EvFrame (confirmation_reply "cfm_1" "confirm")]).2
    = Some InvalidStateError ∧
  (run_events (one_request_pending, None)
     [EvFrame (confirmation_reply "cfm_1" "confirm"); EvReturn (Some (inl "cfm_1"));
      EvFrame (confirmation_reply "cfm_1" "cancel")]).2 = None.
Proof. repeat split; vm_compute; reflexivity. Qed.

(** ** [_match_glob] *)

(** The regular expressions of the two patterns of the specification. *)
Lemma secrets_patterns_compile :
  compile "^.*/secrets/.*$" =
    Some ([IBol; IStar CAny] ++ (IOne ∘ CLit <$> list_ascii_of_string "/secrets/")
          ++ [IStar CAny; IEol])%list ∧
  compile "^[^/]*/secrets/[^/]*$" =
    Some ([IBol; IStar CNotSlash] ++ (IOne ∘ CLit <$> list_ascii_of_string "/secrets/")
          ++ [IStar CNotSlash; IEol])%list.
Proof. split; vm_compute; reflexivity. Qed.

(** C9, the examples of the claim and the failing inputs: the pattern
    [**/secrets/**] matches the two paths under a [secrets] directory and
    not [/home/u/secretsfoo]; it does not match a path under [secrets]
    whose first part holds a line feed, which [**] should run over; and the
    pattern [x] matches the two-character path made of [x] and a line
    feed, which a whole-string match should refuse. *)
Lemma match_glob_line_feed :
  @_match_glob home_host "/home/u/secrets/x" "**/secrets/**" = Ret true ∧
  @_match_glob home_host "/home/u/a/secrets/b/c" "**/secrets/**" = Ret true ∧
  @_match_glob home_host "/home/u/secretsfoo" "**/secrets/**" = Ret false ∧
  @_match_glob home_host "a/secrets/b" "*/secrets/*" = Ret true ∧
  @_match_glob home_host "/home/u/secrets/x" "*/secrets/*" = Ret false ∧
  @_match_glob home_host path_with_line_feed "**/secrets/**" = Ret false ∧
  @_match_glob home_host (String "x" (String LF "")) "x" = Ret true.
Proof. repeat split; vm_compute; reflexivity. Qed.

(** ** The glob translation, step by step *)

(** The lexer and the tokenizer on one character. *)
Lemma lex_plain (c : ascii) (r : string) :
  plain_char c = true → c ≠ "."%char → c ≠ "*"%char →
  lex (String c r) = cons (TCls (CLit c)) <$> lex r.
Proof.
  intros Hp Hd Hs.
  destruct c as [[] [] [] [] [] [] [] []]; try done.
Qed.

Lemma glob_tokens_char (c : ascii) (r : string) :
  c ≠ "*"%char → glob_tokens (String c r) = GChar c :: glob_tokens r.
Proof.
  intros Hs. destruct c as [[] [] [] [] [] [] [] []]; first [done | by destruct Hs].
Qed.

Lemma startswith_app (s p : string) : startswith (p ++ s) p = true.
Proof. induction p as [|c p IH]; simpl; [done|]. by rewrite bool_decide_eq_true_2. Qed.

Lemma startswith_head (c d : ascii) (s p : string) :
  c ≠ d → startswith (String d s) (String c p) = false.
Proof. intros Hne. simpl. by rewrite bool_decide_eq_false_2. Qed.

Lemma replace_from_skip (u s old new : string) :
  replace_from (String.length u) (u ++ s) old new = replace_from O s old new.
Proof. induction u as [|c u IH]; simpl; done. Qed.

Lemma replace_hit (c : ascii) (o s new : string) :
  replace (String c o ++ s) (String c o) new = new ++ replace s (String c o) new.
Proof.
  unfold replace. change (String c o ++ s) with (String c (o ++ s)).
  cbn [replace_from].
  change (String c (o ++ s)) with (String c o ++ s). rewrite startswith_app.
  cbn [String.length]. rewrite Nat.sub_1_r. cbn [Nat.pred].
  by rewrite replace_from_skip.
Qed.

Lemma replace_miss (c : ascii) (s old new : string) :
  startswith (String c s) old = false →
  replace (String c s) old new = String c (replace s old new).
Proof. intros Hm. unfold replace. cbn [replace_from]. by rewrite Hm. Qed.

Lemma replace_pass (u s : string) (c : ascii) (o new : string) :
  has_char c u = false →
  replace (u ++ s) (String c o) new = u ++ replace s (String c o) new.
Proof.
  induction u as [|x u IH]; [done|]. cbn [has_char]. intros Hn.
  apply orb_false_iff in Hn as [Hx Hu]. apply bool_decide_eq_false in Hx.
  change (String x u ++ s) with (String x (u ++ s)).
  rewrite replace_miss by (by apply startswith_head).
  by rewrite IH.
Qed.

Lemma plain_star : plain_char "*" = true.
Proof. reflexivity. Qed.

Lemma glob_tokens_star (s : string) :
  not_star_head s = true → glob_tokens (String "*" s) = GStar :: glob_tokens s.
Proof.
  destruct s as [|c s]; [done|]. simpl not_star_head. intros Hc.
  apply negb_true_iff, bool_decide_eq_false in Hc.
  destruct c as [[] [] [] [] [] [] [] []]; first [done | by destruct Hc].
Qed.

Lemma glob_tokens_tokenizes_upto (n : nat) (pattern : string) :
  (String.length pattern < n)%nat → plain_pattern pattern = true →
  tokenizes pattern (glob_tokens pattern).
Proof.
  revert pattern. induction n as [|n IH]; intros pattern Hn Hp; [lia|].
  destruct pattern as [|c r]; [constructor|].
  simpl in Hn, Hp. apply andb_true_iff in Hp as [Hc Hr].
  destruct (decide (c = "*"%char)) as [->|Hc'].
  - destruct r as [|d r']; [by repeat constructor|].
    destruct (decide (d = "*"%char)) as [->|Hd].
    + simpl in Hn, Hr. change (glob_tokens (String "*" (String "*" r')))
        with (GStarStar :: glob_tokens r').
      constructor. apply IH; [lia|done].
    + rewrite glob_tokens_star by (simpl; by rewrite bool_decide_eq_false_2).
      constructor; [simpl; by rewrite bool_decide_eq_false_2|].
      apply IH; [lia|done].
  - rewrite glob_tokens_char by done. constructor; [done..|].
    apply IH; [lia|done].
Qed.

Lemma glob_tokens_tokenizes (pattern : string) :
  plain_pattern pattern = true → tokenizes pattern (glob_tokens pattern).
Proof. apply (glob_tokens_tokenizes_upto (S (String.length pattern))). lia. Qed.

Lemma render_cons (f : gtok → string) (t : gtok) (ts : list gtok) :
  render f (t :: ts) = f t ++ render f ts.
Proof. reflexivity. Qed.

Lemma chunk_escaped_char (c : ascii) :
  c ≠ "."%char → chunk_escaped (GChar c) = String c "".
Proof. intros Hc. destruct c as [[] [] [] [] [] [] [] []]; first [done | by destruct Hc]. Qed.

(** The head of what a step writes for a tokenized pattern is never a
    star, unless the pattern starts with one. *)
Lemma escaped_head (s : string) (ts : list gtok) :
  tokenizes s ts → not_star_head s = true →
  not_star_head (render chunk_escaped ts) = true.
Proof.
  intros Ht. destruct Ht as [|c r ts Hc Hp Ht|s ts Hs Ht|r ts Ht];
    rewrite ?render_cons; cbn [not_star_head]; try done.
  intros _. destruct (decide (c = "."%char)) as [->|Hd]; [done|].
    rewrite chunk_escaped_char by done. simpl. by rewrite bool_decide_eq_false_2.
Qed.

(** The four [replace] steps, on the text of a tokenized pattern. *)
Lemma step_escape (s : string) (ts : list gtok) :
  tokenizes s ts → replace s "." "\." = render chunk_escaped ts.
Proof.
  induction 1 as [|c r ts Hc Hp Ht IH|s ts Hs Ht IH|r ts Ht IH].
  - done.
  - destruct (decide (c = "."%char)) as [->|Hd].
    + change (String "." r) with ("." ++ r). rewrite replace_hit, IH. done.
    + rewrite replace_miss by (by apply startswith_head).
      rewrite IH, render_cons. by rewrite chunk_escaped_char.
  - rewrite replace_miss by done. by rewrite IH.
  - rewrite replace_miss by done. rewrite replace_miss by done. by rewrite IH.
Qed.

Lemma step_mark (s : string) (ts : list gtok) :
  tokenizes s ts →
  replace (render chunk_escaped ts) "**" "<<<DOUBLESTAR>>>" = render chunk_marked ts.
Proof.
  induction 1 as [|c r ts Hc Hp Ht IH|s ts Hs Ht IH|r ts Ht IH]; rewrite ?render_cons.
  - done.
  - rewrite replace_pass, IH; [done|].
    destruct (decide (c = "."%char)) as [->|Hd]; [done|].
    rewrite chunk_escaped_char by done. simpl. by rewrite bool_decide_eq_false_2.
  - pose proof (escaped_head s ts Ht Hs) as Hh.
    change (chunk_escaped GStar ++ ?r) with (String "*" r).
    rewrite replace_miss, IH; [done|].
    simpl. destruct (render chunk_escaped ts) as [|d rest]; [done|].
    simpl in Hh. apply negb_true_iff, bool_decide_eq_false in Hh.
    simpl. rewrite (bool_decide_eq_false_2 ("*"%char = d)) by done. done.
  - change (chunk_escaped GStarStar) with "**". by rewrite replace_hit, IH.
Qed.

Lemma step_star (s : string) (ts : list gtok) :
  tokenizes s ts →
  replace (render chunk_marked ts) "*" "[^/]*" = render chunk_starred ts.
Proof.
  induction 1 as [|c r ts Hc Hp Ht IH|s ts Hs Ht IH|r ts Ht IH]; rewrite ?render_cons.
  - done.
  - rewrite replace_pass, IH; [done|].
    destruct (decide (c = "."%char)) as [->|Hd]; [done|].
    change (chunk_marked (GChar c)) with (chunk_escaped (GChar c)).
    rewrite chunk_escaped_char by done. simpl. by rewrite bool_decide_eq_false_2.
  - change (chunk_marked GStar) with "*". by rewrite replace_hit, IH.
  - by rewrite replace_pass, IH.
Qed.

Lemma plain_not_lt (c : ascii) : plain_char c = true → c ≠ "<"%char.
Proof. by intros Hp ->. Qed.

Lemma step_unmark (s : string) (ts : list gtok) :
  tokenizes s ts →
  replace (render chunk_starred ts) "<<<DOUBLESTAR>>>" ".*" = render chunk_regex ts.
Proof.
  induction 1 as [|c r ts Hc Hp Ht IH|s ts Hs Ht IH|r ts Ht IH]; rewrite ?render_cons.
  - done.
  - rewrite replace_pass, IH; [done|].
    destruct (decide (c = "."%char)) as [->|Hd]; [done|].
    change (chunk_starred (GChar c)) with (chunk_escaped (GChar c)).
    rewrite chunk_escaped_char by done. simpl.
    rewrite bool_decide_eq_false_2; [done|]. by apply plain_not_lt.
  - by rewrite replace_pass, IH.
  - change (chunk_starred GStarStar) with "<<<DOUBLESTAR>>>". by rewrite replace_hit, IH.
Qed.

Lemma lex_regex (s rest : string) (ts : list gtok) :
  tokenizes s ts →
  lex (render chunk_regex ts ++ rest) = app (ts ≫= tokens_of) <$> lex rest.
Proof.
  induction 1 as [|c r ts Hc Hp Ht IH|s ts Hs Ht IH|r ts Ht IH]; rewrite ?render_cons.
  - change (lex rest = id <$> lex rest). by destruct (lex rest).
  - destruct (decide (c = "."%char)) as [->|Hd].
    + change ((chunk_regex (GChar ".") ++ ?x) ++ rest)
        with (String "\" (String "." (x ++ rest))).
      cbn [lex]. rewrite IH. by destruct (lex rest).
    + change (chunk_regex (GChar c)) with (chunk_escaped (GChar c)).
      rewrite chunk_escaped_char by done.
      change ((String c "" ++ ?x) ++ rest) with (String c (x ++ rest)).
      rewrite lex_plain, IH by done. by destruct (lex rest).
  - change ((chunk_regex GStar ++ ?x) ++ rest)
      with (String "[" (String "^" (String "/" (String "]" (String "*" (x ++ rest)))))).
    cbn [lex]. rewrite IH. by destruct (lex rest).
  - change ((chunk_regex GStarStar ++ ?x) ++ rest)
      with (String "." (String "*" (x ++ rest))).
    cbn [lex]. rewrite IH. by destruct (lex rest).
Qed.

Lemma tokens_head (ts : list gtok) (tail : list token) :
  not_star_token tail = true →
  not_star_token ((ts ≫= tokens_of) ++ tail)%list = true.
Proof. intros Ht. destruct ts as [|[] ts]; done. Qed.

Lemma quantify_regex (ts : list gtok) (tail : list token) (items : list item) :
  not_star_token tail = true → quantify tail = Some items →
  quantify ((ts ≫= tokens_of) ++ tail)%list = Some ((item_of <$> ts) ++ items)%list.
Proof.
  intros Ht Hq. induction ts as [|t ts IH]; [done|].
  pose proof (tokens_head ts tail Ht) as Hh.
  destruct t as [c| |]; cbn [mbind list_bind tokens_of app fmap list_fmap item_of] in *.
  - destruct ((ts ≫= tokens_of) ++ tail)%list as [|[] ?]; simplify_eq/=; by rewrite ?IH.
  - cbn [quantify]. by rewrite IH.
  - cbn [quantify]. by rewrite IH.
Qed.

(** The expression built for a tokenized pattern compiles to the items of
    its tokens between the two anchors. *)
Lemma compile_regex (s : string) (ts : list gtok) :
  tokenizes s ts →
  compile ("^" ++ render chunk_regex ts ++ "$")
    = Some (IBol :: (item_of <$> ts) ++ [IEol])%list.
Proof.
  intros Ht. unfold compile.
  change ("^" ++ ?x) with (String "^" x). cbn [lex].
  rewrite (lex_regex s "$" ts Ht). simpl.
  by rewrite (quantify_regex ts [TEol] [IEol]).
Qed.

Lemma append_nil (s : string) : "" ++ s = s.
Proof. reflexivity. Qed.

Lemma append_cons (c : ascii) (u s : string) : String c u ++ s = String c (u ++ s).
Proof. reflexivity. Qed.

(** ** What the compiled expression matches *)

Lemma has_char_app (c : ascii) (u s : string) :
  has_char c (u ++ s) = has_char c u || has_char c s.
Proof.
  induction u as [|x u IH]; [done|].
  change (String x u ++ s) with (String x (u ++ s)). cbn [has_char].
  by rewrite IH, orb_assoc.
Qed.

Lemma match_star_bos_free (k : cclass) (rest : bool → string → bool) :
  bos_free rest → bos_free (match_star k rest).
Proof.
  intros Hr b b' s. destruct s as [|x s]; cbn [match_star]; [apply Hr|].
  by rewrite (Hr b b').
Qed.

(** A starred class matches a run of characters of the class, and the
    rest of the expression matches what follows the run. *)
Lemma match_star_spec (k : cclass) (rest : bool → string → bool) (b : bool) (s : string) :
  bos_free rest →
  match_star k rest b s = true ↔
  ∃ run s', s = run ++ s' ∧
    (∀ x, has_char x run = true → cclass_matches k x = true) ∧
    rest b s' = true.
Proof.
  intros Hr. revert b. induction s as [|x s IH]; intros b; cbn [match_star].
  - split.
    + intros Hm. exists "", "". done.
    + intros (run & s' & Hs & _ & Hm). destruct run; rewrite ?append_nil, ?append_cons in Hs; [|done].
      by subst.
  - rewrite orb_true_iff, andb_true_iff, IH. split.
    + intros [[Hx (run & s' & -> & Hall & Hm)] | Hm].
      * exists (String x run), s'. split; [done|]. split; [|by rewrite (Hr b false)].
        intros y. cbn [has_char]. rewrite orb_true_iff, bool_decide_eq_true.
        intros [-> | Hy]; auto.
      * exists "", (String x s). done.
    + intros (run & s' & Hs & Hall & Hm). destruct run as [|y run].
      * right. rewrite append_nil in Hs. by subst.
      * left. rewrite append_cons in Hs. injection Hs as <- ->. split.
        -- apply Hall. cbn. by rewrite bool_decide_eq_true_2.
        -- exists run, s'. split; [done|]. split; [|by rewrite (Hr false b)].
           intros z Hz. apply Hall. cbn. by rewrite Hz, orb_true_r.
Qed.

Lemma match_items_bos_free (ts : list gtok) :
  bos_free (match_here ((item_of <$> ts) ++ [IEol])%list).
Proof.
  induction ts as [|[c| |] ts IH]; intros b b' s; cbn; try done.
  - by apply match_star_bos_free.
  - by apply match_star_bos_free.
Qed.

Lemma at_eol_no_line_feed (s : string) :
  has_char LF s = false → at_eol s = true ↔ s = "".
Proof.
  destruct s as [|x [|y s]]; cbn; try done.
  rewrite orb_false_r. intros ->. done.
Qed.

Lemma glob_matches_star_inv (k : gtok) (ts : list gtok) (s : string) :
  k = GStar ∨ k = GStarStar →
  glob_matches (k :: ts) s →
  ∃ run s', s = run ++ s' ∧ glob_matches ts s' ∧
    (k = GStar → has_char "/" run = false).
Proof.
  intros Hk Hm. inversion Hm; subst; try (by destruct Hk); eauto 10.
  exists run, s0. split; [done|]. split; [done|]. done.
Qed.

(** On a subject with no line feed the compiled tokens match what the
    specification's reading of the tokens matches. *)
Lemma match_items_glob (ts : list gtok) (b : bool) (s : string) :
  has_char LF s = false →
  match_here ((item_of <$> ts) ++ [IEol])%list b s = true ↔ glob_matches ts s.
Proof.
  revert b s. induction ts as [|t ts IH]; intros b s Hlf.
  - cbn. rewrite andb_true_r, at_eol_no_line_feed by done. split.
    + intros ->. constructor.
    + by inversion 1.
  - destruct t as [c| |]; cbn [fmap list_fmap item_of app match_here].
    + destruct s as [|x s]; [split; [done | inversion 1]|].
      cbn in Hlf. apply orb_false_iff in Hlf as [_ Hlf].
      cbn [cclass_matches]. rewrite andb_true_iff, bool_decide_eq_true, IH by done.
      split.
      * intros [-> Hm]. by constructor.
      * inversion 1; subst. done.
    + rewrite match_star_spec by apply match_items_bos_free. split.
      * intros (run & s' & -> & Hall & Hm).
        rewrite has_char_app in Hlf. apply orb_false_iff in Hlf as [_ Hlf].
        constructor; [|by apply (IH b)].
        destruct (has_char "/" run) eqn:Hs; [|done].
        by specialize (Hall _ Hs).
      * intros Hm. apply glob_matches_star_inv in Hm as (run & s' & -> & Hm & Hs); [|auto].
        rewrite has_char_app in Hlf. apply orb_false_iff in Hlf as [_ Hlf].
        exists run, s'. split; [done|]. split; [|by apply IH].
        intros x Hx. cbn. apply negb_true_iff, bool_decide_eq_false.
        intros ->. rewrite Hs in Hx; done.
    + rewrite match_star_spec by apply match_items_bos_free. split.
      * intros (run & s' & -> & Hall & Hm).
        rewrite has_char_app in Hlf. apply orb_false_iff in Hlf as [_ Hlf].
        constructor. by apply (IH b).
      * intros Hm. apply glob_matches_star_inv in Hm as (run & s' & -> & Hm & _); [|auto].
        rewrite has_char_app in Hlf. apply orb_false_iff in Hlf as [Hrun Hlf].
        exists run, s'. split; [done|]. split; [|by apply IH].
        intros x Hx. cbn. apply negb_true_iff, bool_decide_eq_false.
        intros ->. rewrite Hrun in Hx; done.
Qed.

Section GlobFacts.
Context `{Host}.

(** For a plain pattern [_match_glob] runs the matcher on the items of the
    pattern's tokens and never leaves the modelled fragment. *)
Lemma match_glob_regex (path pattern : string) :
  plain_pattern pattern = true →
  _match_glob path pattern =
    Ret (match_here ((item_of <$> glob_tokens pattern) ++ [IEol])%list true path).
Proof.
  intros Hp. pose proof (glob_tokens_tokenizes pattern Hp) as Ht.
  unfold _match_glob, re_match.
  rewrite (step_escape _ _ Ht), (step_mark _ _ Ht), (step_star _ _ Ht),
    (step_unmark _ _ Ht), (compile_regex _ _ Ht).
  done.
Qed.

(** On plain patterns and paths with no line feed [_match_glob] is the
    matcher of the specification: anchored at both ends, [*] for a run
    free of separators and [**] for any run. *)
Theorem match_glob_refines (path pattern : string) :
  plain_pattern pattern = true → has_char LF path = false →
  ∃ b, _match_glob path pattern = Ret b ∧
       (b = true ↔ glob_matches (glob_tokens pattern) path).
Proof.
  intros Hp Hlf. rewrite match_glob_regex by done.
  eexists. split; [done|]. by apply match_items_glob.
Qed.

End GlobFacts.

(** ** The command name [is_command_allowed] looks up *)

Lemma append_assoc (u v w : string) : (u ++ v) ++ w = u ++ (v ++ w).
Proof. induction u as [|c u IH]; [done|]. rewrite !append_cons. by rewrite IH. Qed.

Lemma split_from_word (w s : string) :
  head (split_from (Some w) s) = Some (w ++ take_token s).
Proof.
  revert w. induction s as [|c s IH]; intros w; cbn [split_from take_token].
  - cbn. f_equal. induction w as [|x w IHw]; [done|]. rewrite append_cons. by rewrite <- IHw.
  - destruct (isspace c).
    + cbn. f_equal. induction w as [|x w IHw]; [done|]. rewrite append_cons. by rewrite <- IHw.
    + rewrite IH. cbn [default]. by rewrite append_assoc.
Qed.

Lemma split_first_token (s : string) : head (split s) = first_token s.
Proof.
  unfold split, first_token. induction s as [|c s IH]; [done|].
  cbn [split_from lstrip]. destruct (isspace c) eqn:Hc; [done|].
  rewrite split_from_word. cbn [default take_token]. rewrite Hc. done.
Qed.

(** [is_command_allowed] looks up the first whitespace-delimited token of
    the command; with no token it looks up the empty string when the
    command is empty and raises otherwise. *)
Theorem is_command_allowed_first_token (cfg : PolicyConfig) (command : string) :
  is_command_allowed cfg command =
    match first_token command with
    | Some w => Ret (py_in w (allowed_commands cfg))
    | None => if truthy command then Raise IndexError
              else Ret (py_in "" (allowed_commands cfg))
    end.
Proof.
  rewrite <- split_first_token. unfold is_command_allowed.
  destruct command as [|c r]; [done|]. cbn [truthy].
  by destruct (split (String c r)).
Qed.

Lemma match_here_bos_free (r : list item) :
  no_bol r = true → bos_free (match_here r).
Proof.
  induction r as [|[| |k|k] r IH]; cbn [no_bol forallb]; intros Hr b b' s; try done.
  - cbn [match_here]. by rewrite (IH Hr b b').
  - apply match_star_bos_free. by apply IH.
Qed.

Lemma match_literal (lit : string) (rest : list item) (b : bool) (s : string) :
  bos_free (match_here rest) →
  match_here ((IOne ∘ CLit <$> list_ascii_of_string lit) ++ rest)%list b s = true ↔
  ∃ s', s = lit ++ s' ∧ match_here rest b s' = true.
Proof.
  intros Hr. revert b s. induction lit as [|c lit IH]; intros b s.
  - cbn [list_ascii_of_string fmap list_fmap app]. split; [intros Hm; by exists s|].
    by intros (s' & -> & Hm).
  - cbn [list_ascii_of_string fmap list_fmap app match_here compose].
    destruct s as [|x s].
    { split; [done|]. by intros (s' & Hs & _). }
    cbn [cclass_matches]. rewrite andb_true_iff, bool_decide_eq_true, IH. split.
    + intros [-> (s' & -> & Hm)]. exists s'. split; [done|]. by rewrite (Hr b false).
    + intros (s' & Hs & Hm). rewrite append_cons in Hs. injection Hs as -> ->.
      split; [done|]. exists s'. split; [done|]. by rewrite (Hr false b).
Qed.

Lemma match_here_star (k : cclass) (r : list item) :
  match_here (IStar k :: r) = match_star k (match_here r).
Proof. reflexivity. Qed.

Lemma match_here_eol (b : bool) (s : string) : match_here [IEol] b s = at_eol s.
Proof. cbn. apply andb_true_r. Qed.

Lemma Ret_eq {A} (a b : A) : Ret a = Ret b ↔ a = b.
Proof. split; [by intros [=] | by intros ->]. Qed.

Section SecretsFacts.
Context `{Host}.

(** The pattern [*/secrets/*] matches exactly the paths with one
    separator-free segment before [secrets] and one after it. *)
Theorem match_glob_one_level (path : string) :
  _match_glob path "*/secrets/*" = Ret true ↔
  ∃ a b, path = a ++ "/secrets/" ++ b ∧
         has_char "/" a = false ∧ has_char "/" b = false.
Proof.
  rewrite match_glob_regex, Ret_eq by reflexivity.
  change ((item_of <$> glob_tokens "*/secrets/*") ++ [IEol])%list
    with (IStar CNotSlash ::
          (IOne ∘ CLit <$> list_ascii_of_string "/secrets/")
          ++ [IStar CNotSlash; IEol])%list.
  rewrite match_here_star.
  assert (Hsep : ∀ run, (∀ x, has_char x run = true → cclass_matches CNotSlash x = true)
                        ↔ has_char "/" run = false).
  { intros run. split.
    - intros Hall. destruct (has_char "/" run) eqn:Hs; [|done]. by specialize (Hall _ Hs).
    - intros Hs x Hx. cbn. apply negb_true_iff, bool_decide_eq_false.
      intros ->. by rewrite Hs in Hx. }
  split.
  - intros Hm.
    apply match_star_spec in Hm as (a & s1 & -> & Ha & Hm);
      [|by apply match_here_bos_free].
    apply match_literal in Hm as (s2 & -> & Hm); [|by apply match_here_bos_free].
    rewrite match_here_star in Hm.
    apply match_star_spec in Hm as (run & s3 & -> & Hrun & Hm);
      [|by apply match_here_bos_free].
    rewrite match_here_eol in Hm.
    exists a, (run ++ s3). split; [done|]. split; [by apply Hsep|].
    rewrite has_char_app. apply orb_false_iff. split; [by apply Hsep|].
    destruct s3 as [|x [|y s3]]; [done| |done].
    cbn in Hm. apply bool_decide_eq_true in Hm as ->. done.
  - intros (a & b & -> & Ha & Hb).
    apply match_star_spec; [by apply match_here_bos_free|].
    exists a, ("/secrets/" ++ b). split; [done|]. split; [by apply Hsep|].
    apply match_literal; [by apply match_here_bos_free|].
    exists b. split; [done|]. rewrite match_here_star.
    apply match_star_spec; [by apply match_here_bos_free|].
    exists b, "". split; [|split; [by apply Hsep|done]].
    clear. induction b as [|c b IH]; [done|]. rewrite append_cons. by rewrite <- IH.
Qed.

End SecretsFacts.

Lemma match_glob_refines_witness :
  ∃ b, @_match_glob home_host "/home/u/a/secrets/b/c" "**/secrets/**" = Ret b ∧
       (b = true ↔ glob_matches (glob_tokens "**/secrets/**") "/home/u/a/secrets/b/c").
Proof.
  apply (match_glob_refines (H:=home_host) "/home/u/a/secrets/b/c" "**/secrets/**");
    reflexivity.
Defined.

Lemma run_events_resolved_witness :
  futures (run_events (one_request_pending, None)
             [EvFrame (confirmation_reply "cfm_1" "confirm");
              EvFrame (confirmation_reply "cfm_1" "cancel");
              EvTimeout 0;
              EvReturn (Some (inl "cfm_1"));
              EvRequest (confirmation_request "cfm_1")]).1 !! 0%nat
  = Some (Finished (confirmation_reply "cfm_1" "confirm")).
Proof.
  apply (run_events_resolved
           (run_event (one_request_pending, None)
              (EvFrame (confirmation_reply "cfm_1" "confirm")))
           [EvFrame (confirmation_reply "cfm_1" "cancel");
            EvTimeout 0;
            EvReturn (Some (inl "cfm_1"));
            EvRequest (confirmation_request "cfm_1")]
           0%nat (Finished (confirmation_reply "cfm_1" "confirm"))).
  - discriminate.
  - vm_compute. reflexivity.
Defined.

Lemma spawn_success_witness :
  ∃ sub, (@spawn home_host "Log Worker" None
            (Some [{["scope" := JStr "files.write"]}]) "task_bound" false
            (state_with (with_mode "trusted" 5 10 default_policy))).1 = Ret sub ∧
    sub_status sub = "online" ∧
    _active (@spawn home_host "Log Worker" None
               (Some [{["scope" := JStr "files.write"]}]) "task_bound" false
               (state_with (with_mode "trusted" 5 10 default_policy))).2
      = ([] ++ [sub])%list ∧
    _spawned_this_hour
      (@spawn home_host "Log Worker" None
         (Some [{["scope" := JStr "files.write"]}]) "task_bound" false
         (state_with (with_mode "trusted" 5 10 default_policy))).2 = 0 + 1.
Proof.
  apply (spawn_success (H:=home_host) "Log Worker" None
           (Some [{["scope" := JStr "files.write"]}]) "task_bound" false
           (state_with (with_mode "trusted" 5 10 default_policy))).
  reflexivity.
Defined.

(** ** More on the registry and the loop *)

(** [_request] hands its caller the reply that came, or [None]. *)
Lemma _request_returns (message : gmap string json) (p : gmap string json)
    (rid : string) (response : option json) (c : SpawnConnection) :
  message !! "payload" = Some (JObj p) → p !! "request_id" = Some (JStr rid) →
  truthy rid = true →
  (_request message response c).1 = Ret response.
Proof.
  intros Hp Hr Ht. unfold _request, _request_begin.
  rewrite Hp. simpl. rewrite Hr. simpl. rewrite Ht. simpl.
  unfold _request_value.
  destruct response as [data|]; cbn.
  - by rewrite lookup_insert_eq.
  - rewrite lookup_alter, decide_True by done. by rewrite lookup_insert_eq.
Qed.

(** [can_spawn] is true in mode [off]; in any other mode it is true exactly
    when the active count is below the concurrency cap and the hourly
    count below the hourly cap. *)
Theorem can_spawn_spec (s : state) :
  (auto_spawn_mode (get_policy s) = "off" → can_spawn s = true) ∧
  (auto_spawn_mode (get_policy s) ≠ "off" →
   (can_spawn s = true ↔
    active_count s < max_concurrent s ∧
    _spawned_this_hour s < max_sub_agents_per_hour (get_policy s))).
Proof.
  unfold can_spawn, active_count, max_concurrent. split.
  - intros ->. done.
  - intros Hm. rewrite bool_decide_eq_false_2 by done.
    destruct (Z.geb_spec (Z.of_nat (length (_active s)))
                (max_concurrent_sub_agents (get_policy s)));
      [split; [done | lia]|].
    destruct (Z.geb_spec (_spawned_this_hour s)
                (max_sub_agents_per_hour (get_policy s)));
      [split; [done | lia]|].
    split; [lia | done].
Qed.

(** [pause_spawning] changes nothing that [can_spawn] reads. *)
Theorem can_spawn_ignores_pause (s : state) :
  can_spawn (pause_spawning s) = can_spawn s.
Proof. by apply can_spawn_reads. Qed.

Section RequestFacts.
Context `{Host}.

Lemma spawn_request_message_payload (request_id sub_agent_id msg_id : string) (ts : Z)
    (name : string) (role description : option string)
    (permissions : option (list (gmap string json))) (lifespan : string)
    (reason icon : option string) :
  ∃ p, spawn_request_message request_id sub_agent_id msg_id ts name role description
         permissions lifespan reason icon !! "payload" = Some (JObj p) ∧
       p !! "request_id" = Some (JStr request_id).
Proof.
  unfold spawn_request_message, dict. cbn [list_to_map foldr uncurry fst snd].
  eexists. split.
  - rewrite !lookup_insert_ne by done. apply lookup_insert_eq.
  - apply lookup_insert_eq.
Qed.

End RequestFacts.

Section TerminateFacts.
Context `{Host}.

(** [terminate] touches the connection only: the active list, the hourly
    counter, the pause flag and the policy are as before, and so is the
    answer of [can_spawn]. *)
Theorem terminate_only_sends (sub : SubAgent) (reason : string) (s : state) :
  _active (terminate sub reason s) = _active s ∧
  _spawned_this_hour (terminate sub reason s) = _spawned_this_hour s ∧
  _spawning_paused (terminate sub reason s) = _spawning_paused s ∧
  get_policy (terminate sub reason s) = get_policy s ∧
  can_spawn (terminate sub reason s) = can_spawn s ∧
  length (sent (_connection (terminate sub reason s)))
    = S (length (sent (_connection s))).
Proof.
  destruct (terminate_frame sub reason s) as (Ha & Hn & Hf & Hp).
  do 4 (split; [done|]). split.
  - by apply can_spawn_reads.
  - unfold terminate. cbn [set_connection _connection].
    destruct (send_sent (list_to_map
       [("type", JStr "sub_agent_terminate");
        ("payload", dict [("sub_agent_id", JStr (sub_id sub));
                          ("reason", JStr reason);
                          ("notify_user", JBool true)])]) (_connection s)) as [frame ->].
    rewrite length_app. simpl. lia.
Qed.

End TerminateFacts.

(** A frame of a type that has no handler and is not reserved, with no
    payload, is dropped and the loop goes on with the connection as it
    was. *)
Theorem unknown_type_dropped (c : SpawnConnection) (t : string) :
  _handlers c !! t = None → t ≠ "policy_update" → t ≠ "message" →
  message_loop_body c (dict [("type", JStr t)]) = Ret (c, Dropped).
Proof.
  intros Hh Hp Hm.
  assert (Ht : py_get (dict [("type", JStr t)]) "type" JNull = Ret (JStr t))
    by (vm_compute; reflexivity).
  assert (Hr : resolve_reply c (dict [("type", JStr t)]) = Ret None)
    by (vm_compute; reflexivity).
  unfold message_loop_body. rewrite Ht, Hr. simpl. rewrite Hh. simpl.
  by rewrite !bool_decide_eq_false_2.
Qed.

Lemma unknown_type_dropped_witness :
  message_loop_body one_request_pending (dict [("type", JStr "typing_indicator")])
  = Ret (one_request_pending, Dropped).
Proof.
  apply (unknown_type_dropped one_request_pending "typing_indicator").
  - reflexivity.
  - discriminate.
  - discriminate.
Defined.

Lemma can_spawn_spec_witness :
  can_spawn (state_with default_policy) = true ∧
  (can_spawn (state_with (with_mode "trusted" 0 10 default_policy)) = true ↔
   active_count (state_with (with_mode "trusted" 0 10 default_policy))
     < max_concurrent (state_with (with_mode "trusted" 0 10 default_policy)) ∧
   _spawned_this_hour (state_with (with_mode "trusted" 0 10 default_policy))
     < max_sub_agents_per_hour
         (get_policy (state_with (with_mode "trusted" 0 10 default_policy)))).
Proof.
  split.
  - apply (proj1 (can_spawn_spec (state_with default_policy))). reflexivity.
  - apply (proj2 (can_spawn_spec (state_with (with_mode "trusted" 0 10 default_policy)))).
    discriminate.
Defined.

(** * Properties of the rest of the module *)

Section SendFacts.
Context `{Host}.

Lemma send_frame_spec (m : gmap string json) (c : SpawnConnection) :
  ∃ m', sent (send m c) = (sent c ++ [JObj m'])%list ∧
    m' !! "id" = Some (default (JStr ("msg_" ++ str_take 12 (uuid4_hex (uuid_calls c))))
                         (m !! "id")) ∧
    m' !! "ts" = Some (default (JNum (now_timestamp (clock_calls c))) (m !! "ts")) ∧
    (∀ k, k ≠ "id" → k ≠ "ts" → m' !! k = m !! k) ∧
    _pending_responses (send m c) = _pending_responses c ∧
    futures (send m c) = futures c ∧
    _handlers (send m c) = _handlers c ∧
    policy (send m c) = policy c.
Proof.
  unfold send, fresh_uuid, now.
  generalize (JStr ("msg_" ++ str_take 12 (uuid4_hex (uuid_calls c)))). intros i.
  repeat case_bool_decide; simpl; eexists; (split; [done|]);
    repeat match goal with
    | Hs : is_Some _ |- _ => destruct Hs as [? Hs]
    | Hs : ¬ is_Some _ |- _ => apply eq_None_not_Some in Hs
    end;
    simplify_map_eq;
    (repeat split; try done);
    intros k Hk Hk'; by rewrite ?lookup_insert_ne.
Qed.

(** [send] hands one frame to the transport: the message with its own
    [id] and [ts] when it has them and fresh ones otherwise, every other
    key as given; the table, the futures, the handlers and the policy are
    untouched. *)
Theorem send_fills_id_and_ts (m : gmap string json) (c : SpawnConnection) :
  ∃ m', sent (send m c) = (sent c ++ [JObj m'])%list ∧
    m' !! "id" = Some (default (JStr ("msg_" ++ str_take 12 (uuid4_hex (uuid_calls c))))
                         (m !! "id")) ∧
    m' !! "ts" = Some (default (JNum (now_timestamp (clock_calls c))) (m !! "ts")) ∧
    (∀ k, k ≠ "id" → k ≠ "ts" → m' !! k = m !! k) ∧
    _pending_responses (send m c) = _pending_responses c ∧
    futures (send m c) = futures c ∧
    _handlers (send m c) = _handlers c ∧
    policy (send m c) = policy c.
Proof. apply send_frame_spec. Qed.

End SendFacts.

(** When [_request] returns, the message has been sent as it is, with no
    [id] or [ts] added, and the table has no entry under the request id,
    whether one was there before or not. *)
Theorem _request_leaves_no_entry (m : gmap string json) (response v : option json)
    (c c' : SpawnConnection) :
  _request m response c = (Ret v, c') →
  ∃ rid key, request_id_of m = Ret rid ∧ to_key rid = Ret key ∧
    _pending_responses c' = delete key (_pending_responses c) ∧
    sent c' = (sent c ++ [JObj m])%list ∧
    v = response.
Proof.
  unfold _request, _request_begin, request_id_of. intros Hr.
  destruct (py_get _ _ _) as [rid|e]; simpl in *; [|done].
  destruct (to_key _) as [key|e] eqn:Hk; simpl in *; [|done].
  injection Hr as <- <-. eexists _, key. split; [done|]. split; [done|].
  unfold _request_value, _request_end, _request_timeout.
  destruct response as [data|]; simpl.
  - rewrite delete_insert_eq. split; [done|]. split; [done|].
    by rewrite lookup_insert_eq.
  - rewrite delete_insert_eq. split; [done|]. split; [done|].
    rewrite lookup_alter, decide_True by done. by rewrite lookup_insert_eq.
Qed.

Lemma answers_nothing_resolve (c : SpawnConnection) (o : gmap string json) :
  answers_nothing c o → resolve_reply c (JObj o) = Ret None.
Proof.
  unfold resolve_reply, py_get, py_item.
  intros [Hp | (p & Hp & [Hr | (v & key & Hr & Hk & Ht)])]; rewrite Hp; simpl.
  - done.
  - rewrite bool_decide_eq_false_2 by (rewrite Hr; by intros [? [=]]). done.
  - rewrite bool_decide_eq_true_2 by (rewrite Hr; eauto). simpl.
    rewrite Hr. simpl. rewrite Hk. simpl. by rewrite Ht.
Qed.

Lemma message_loop_body_handled (c : SpawnConnection) (t : string)
    (h : handler) (o : gmap string json) :
  o !! "type" = Some (JStr t) → answers_nothing c o → _handlers c !! t = Some h →
  message_loop_body c (JObj o) = (h (JObj o) ≫= λ _, Ret (c, Handled t)).
Proof.
  intros Ht Ha Hh. unfold message_loop_body.
  rewrite (answers_nothing_resolve c o Ha).
  unfold py_get. rewrite Ht. simpl. by rewrite Hh.
Qed.

(** After [on(event, handler)] a frame of that type that answers no
    pending request is given to the handler, and the loop goes on or ends
    as the handler returns or raises. *)
Theorem registered_handler_takes_frame (c : SpawnConnection) (t : string)
    (h : handler) (o : gmap string json) :
  o !! "type" = Some (JStr t) → answers_nothing c o →
  message_loop_body (on t h c) (JObj o)
    = (h (JObj o) ≫= λ _, Ret (on t h c, Handled t)).
Proof.
  intros Ht Ha. apply message_loop_body_handled; [done..|].
  apply lookup_insert_eq.
Qed.

(** A frame that answers no pending request, a late reply for one, whose
    type has no handler and is not reserved is dropped. *)
Theorem late_reply_dropped (c : SpawnConnection) (t : string) (o : gmap string json) :
  o !! "type" = Some (JStr t) → answers_nothing c o →
  _handlers c !! t = None → t ≠ "policy_update" → t ≠ "message" →
  message_loop_body c (JObj o) = Ret (c, Dropped).
Proof.
  intros Ht Ha Hh Hp Hm. unfold message_loop_body.
  rewrite (answers_nothing_resolve c o Ha).
  unfold py_get. rewrite Ht. simpl. rewrite Hh. simpl.
  by rewrite !bool_decide_eq_false_2.
Qed.

(** A frame whose payload carries the request id of a pending request
    fills that request's future with the whole frame and goes to no
    handler, whatever its type. *)
Theorem reply_resolves_request (c : SpawnConnection) (o p : gmap string json)
    (v : json) (key : pykey) (fut : nat) :
  o !! "payload" = Some (JObj p) → p !! "request_id" = Some v →
  to_key v = Ret key → _pending_responses c !! key = Some fut →
  futures c !! fut = Some Pending →
  message_loop_body c (JObj o)
    = Ret (set_futures (<[fut := Finished (JObj o)]>) c, Resolved key) ∧
  _request_value fut (set_futures (<[fut := Finished (JObj o)]>) c) = Some (JObj o).
Proof.
  intros Hp Hr Hk Ht Hf. split.
  - unfold message_loop_body, resolve_reply, py_get, py_item. rewrite Hp. simpl.
    rewrite bool_decide_eq_true_2 by (rewrite Hr; eauto). simpl.
    rewrite Hr. simpl. rewrite Hk. simpl. rewrite Ht, Hf. simpl.
    by destruct (o !! "type").
  - unfold _request_value. simpl. by rewrite lookup_insert_eq.
Qed.

Lemma field_of_name_name (f : field) : field_of_name (field_name f) = Some f.
Proof. by destruct f. Qed.

Lemma field_of_name_Some (key : string) (f : field) :
  field_of_name key = Some f → key = field_name f.
Proof.
  unfold field_of_name. intros Hf. apply find_some in Hf as [_ Hf].
  by apply bool_decide_eq_true in Hf.
Qed.

Lemma field_name_inj (f g : field) : field_name f = field_name g → f = g.
Proof.
  intros Hn. pose proof (field_of_name_name f) as Hf. rewrite Hn in Hf.
  rewrite field_of_name_name in Hf. by injection Hf.
Qed.

Lemma field_name_plain (f : field) : startswith (field_name f) "__" = false.
Proof. by destruct f. Qed.

Lemma set_field_get (f g : field) (a : attr) (cfg cfg' : PolicyConfig) :
  set_field f a cfg = Some cfg' →
  get_field g cfg' = if decide (g = f) then a else get_field g cfg.
Proof.
  destruct cfg. destruct f, a; simpl; intros [= <-]; by destruct g.
Qed.

Lemma decode_set_field (f : field) (v : json) (a : attr) (cfg : PolicyConfig) :
  decode f v = Some a → is_Some (set_field f a cfg).
Proof.
  destruct cfg. unfold decode.
  destruct f, v; simpl; try discriminate;
    try (intros [= <-]; by eexists);
    destruct (strings_of l); simpl; intros [= <-]; by eexists.
Qed.

Lemma get_field_ext (a b : PolicyConfig) :
  (∀ f, get_field f a = get_field f b) → a = b.
Proof.
  intros He. destruct a, b.
  pose proof (He f_auto_spawn_mode). pose proof (He f_max_concurrent_sub_agents).
  pose proof (He f_max_sub_agents_per_hour). pose proof (He f_max_tokens_per_sub_agent).
  pose proof (He f_permissions_allowed). pose proof (He f_permissions_forbidden).
  pose proof (He f_permissions_ask). pose proof (He f_allowed_paths).
  pose proof (He f_forbidden_paths). pose proof (He f_allowed_commands).
  pose proof (He f_allowed_network_domains). pose proof (He f_check_in_hours).
  simpl in *. congruence.
Qed.

Lemma update_attr_spec (key : string) (v : json) (cfg cfg' : PolicyConfig) :
  update_attr key v cfg = Some cfg' →
  startswith key "__" = false ∧
  match field_of_name key with
  | Some f => ∃ a, decode f v = Some a ∧
      ∀ g, get_field g cfg' = if decide (g = f) then a else get_field g cfg
  | None => cfg' = cfg
  end.
Proof.
  unfold update_attr. destruct (startswith key "__"); [done|]. intros Hu. split; [done|].
  destruct (field_of_name key) as [f|]; [|by injection Hu].
  destruct (decode f v) as [a|]; [|done]. simpl in Hu.
  exists a. split; [done|]. intros g. by apply (set_field_get f g a cfg cfg').
Qed.

Lemma update_policy_invariant (cfg : PolicyConfig) (data : gmap string json) :
  (is_Some (update_attrs cfg data) ↔ well_typed data) ∧
  (∀ cfg', update_attrs cfg data = Some cfg' → ∀ f, field_after cfg cfg' data f).
Proof.
  unfold update_attrs.
  apply (map_fold_weak_ind (λ r m,
    (is_Some r ↔ well_typed m) ∧
    (∀ cfg', r = Some cfg' → ∀ f, field_after cfg cfg' m f))).
  - split.
    + split; [|by eauto]. intros _ key v Hk. by rewrite lookup_empty in Hk.
    + intros cfg' [= <-] f. unfold field_after. by rewrite lookup_empty.
  - intros key v m r Hfresh [Hdef Hspec]. split.
    + split.
      * intros [cfg' Hu]. destruct r as [c1|]; [|done]. simpl in Hu.
        apply update_attr_spec in Hu as [Hplain Hf].
        intros k w Hk. destruct (decide (k = key)) as [->|Hne].
        -- rewrite lookup_insert_eq in Hk. injection Hk as <-. split; [done|].
           intros f Hfn. rewrite Hfn in Hf. destruct Hf as (a & Hd & _). by eauto.
        -- rewrite lookup_insert_ne in Hk by done.
           apply (proj1 Hdef); eauto.
      * intros Hwt. destruct (proj2 Hdef) as [c1 ->].
        { intros k w Hk. apply Hwt. rewrite lookup_insert_ne; [done|]. congruence. }
        simpl. destruct (Hwt key v (lookup_insert_eq _ _ _)) as [Hplain Hdec].
        unfold update_attr. rewrite Hplain.
        destruct (field_of_name key) as [f|]; [|by eauto].
        destruct (Hdec f eq_refl) as [a Ha]. rewrite Ha. simpl.
        by apply (decode_set_field f v).
    + intros cfg' Hu f. destruct r as [c1|]; [|done]. simpl in Hu.
      apply update_attr_spec in Hu as [Hplain Hf].
      specialize (Hspec c1 eq_refl f). unfold field_after in *.
      destruct (decide (field_name f = key)) as [<-|Hne].
      * rewrite lookup_insert_eq. rewrite field_of_name_name in Hf.
        destruct Hf as (a & Hd & Hg). by rewrite Hg, decide_True.
      * rewrite lookup_insert_ne by done.
        assert (Hsame : get_field f cfg' = get_field f c1).
        { destruct (field_of_name key) as [g|] eqn:Hg; [|by subst].
          destruct Hf as (a & _ & Hf). rewrite Hf.
          apply field_of_name_Some in Hg. rewrite decide_False; [done|].
          intros ->. done. }
        by rewrite Hsame.
Qed.

(** The typed record holds the outcome of a policy update exactly when
    each field the payload names gets a value of the field's type and no
    key starts with two underscores; the update then leaves in every field
    it names the value of the payload, and every other field as it was. *)
Theorem update_attrs_fields (cfg : PolicyConfig) (data : gmap string json) :
  (is_Some (update_attrs cfg data) ↔ well_typed data) ∧
  (∀ cfg', update_attrs cfg data = Some cfg' → ∀ f, field_after cfg cfg' data f).
Proof. apply update_policy_invariant. Qed.

(** A payload that names no field of the policy changes nothing. *)
Theorem update_attrs_unknown_keys (cfg : PolicyConfig) (data : gmap string json) :
  well_typed data → (∀ f, data !! field_name f = None) →
  update_attrs cfg data = Some cfg.
Proof.
  intros Hwt Hnone.
  destruct (update_policy_invariant cfg data) as [Hdef Hspec].
  destruct (proj2 Hdef Hwt) as [cfg' Hu]. rewrite Hu. f_equal.
  apply get_field_ext. intros f. specialize (Hspec cfg' Hu f).
  unfold field_after in Hspec. by rewrite Hnone in Hspec.
Qed.

(** Applying the same update twice is applying it once. *)
Theorem update_attrs_idempotent (cfg cfg' : PolicyConfig) (data : gmap string json) :
  update_attrs cfg data = Some cfg' → update_attrs cfg' data = Some cfg'.
Proof.
  intros Hu. destruct (update_policy_invariant cfg data) as [Hdef Hspec].
  destruct (update_policy_invariant cfg' data) as [Hdef' Hspec'].
  destruct (proj2 Hdef' (proj1 Hdef (mk_is_Some _ _ Hu))) as [cfg'' Hu'].
  rewrite Hu'. f_equal. apply get_field_ext. intros f.
  specialize (Hspec cfg' Hu f). specialize (Hspec' cfg'' Hu' f).
  unfold field_after in *. destruct (data !! field_name f); [congruence|done].
Qed.

(** Two updates in a row are one update with the second payload laid over
    the first. *)
Theorem update_attrs_compose (cfg cfg1 cfg2 : PolicyConfig) (d1 d2 : gmap string json) :
  update_attrs cfg d1 = Some cfg1 → update_attrs cfg1 d2 = Some cfg2 →
  update_attrs cfg (d2 ∪ d1) = Some cfg2.
Proof.
  intros H1 H2.
  destruct (update_policy_invariant cfg d1) as [Hdef1 Hspec1].
  destruct (update_policy_invariant cfg1 d2) as [Hdef2 Hspec2].
  destruct (update_policy_invariant cfg (d2 ∪ d1)) as [Hdef Hspec].
  assert (Hwt : well_typed (d2 ∪ d1)).
  { intros key v Hk. apply lookup_union_Some_raw in Hk as [Hk | [_ Hk]].
    - by apply (proj1 Hdef2 (mk_is_Some _ _ H2) key v).
    - by apply (proj1 Hdef1 (mk_is_Some _ _ H1) key v). }
  destruct (proj2 Hdef Hwt) as [cfg' Hu]. rewrite Hu. f_equal.
  apply get_field_ext. intros f.
  specialize (Hspec cfg' Hu f). specialize (Hspec1 cfg1 H1 f).
  specialize (Hspec2 cfg2 H2 f). unfold field_after in *.
  rewrite lookup_union in Hspec.
  destruct (d2 !! field_name f) as [v2|], (d1 !! field_name f) as [v1|];
    simpl in Hspec; congruence.
Qed.

Lemma strings_of_strings (l : list string) : strings_of (JStr <$> l) = Some l.
Proof.
  unfold strings_of. induction l as [|x l IH]; [done|].
  cbn. cbn in IH. by rewrite IH.
Qed.

(** A policy push whose payload is well typed replaces the fields it names
    and keeps the others, when no handler is registered under
    [policy_update]. *)
Theorem policy_update_applies (c : SpawnConnection) (o p : gmap string json) :
  o !! "type" = Some (JStr "policy_update") → o !! "payload" = Some (JObj p) →
  answers_nothing c o → _handlers c !! "policy_update" = None →
  well_typed p →
  ∃ cfg', message_loop_turn c (JObj o)
            = Ret (Some (set_policy (λ _, cfg') c), PolicyUpdate (JObj p)) ∧
          ∀ f, field_after (policy c) cfg' p f.
Proof.
  intros Ht Hp Ha Hh Hwt.
  destruct (update_policy_invariant (policy c) p) as [Hdef Hspec].
  destruct (proj2 Hdef Hwt) as [cfg' Hu]. exists cfg'. split; [|by apply Hspec].
  unfold message_loop_turn, message_loop_body.
  rewrite (answers_nothing_resolve c o Ha).
  unfold py_get. rewrite Ht. simpl. rewrite Hh, Hp. simpl. by rewrite Hu.
Qed.

(** A handler registered under [policy_update] takes the push: the policy
    stays as it is. *)
Theorem policy_update_shadowed (c : SpawnConnection) (h : handler)
    (o : gmap string json) :
  o !! "type" = Some (JStr "policy_update") → answers_nothing c o →
  h (JObj o) = Ret () →
  message_loop_turn (on "policy_update" h c) (JObj o)
    = Ret (Some (on "policy_update" h c), Handled "policy_update") ∧
  policy (on "policy_update" h c) = policy c.
Proof.
  intros Ht Ha Hh. split; [|done].
  unfold message_loop_turn.
  rewrite (message_loop_body_handled (on "policy_update" h c) "policy_update" h o Ht Ha)
    by apply lookup_insert_eq.
  by rewrite Hh.
Qed.

(** A push with no payload, or a [message] frame with no payload while
    [on_message] is registered, raises [KeyError] and ends the loop. *)
Theorem missing_payload_stops_loop (c : SpawnConnection) (o : gmap string json)
    (h : handler) :
  o !! "payload" = None →
  (o !! "type" = Some (JStr "policy_update") → _handlers c !! "policy_update" = None →
   message_loop_body c (JObj o) = Raise KeyError) ∧
  (o !! "type" = Some (JStr "message") → _handlers c !! "message" = None →
   _handlers c !! "on_message" = Some h →
   message_loop_body c (JObj o) = Raise KeyError).
Proof.
  intros Hp.
  assert (Hr : resolve_reply c (JObj o) = Ret None)
    by (apply answers_nothing_resolve; by left).
  split.
  - intros Ht Hh. unfold message_loop_body. rewrite Hr.
    unfold py_get. rewrite Ht. simpl. by rewrite Hh, Hp.
  - intros Ht Hh Hm. unfold message_loop_body. rewrite Hr.
    unfold py_get, py_item. rewrite Ht. simpl. by rewrite Hh, Hm, Hp.
Qed.

Lemma _request_runs (m : gmap string json) (rid : json) (key : pykey)
    (response : option json) (c : SpawnConnection) :
  request_id_of m = Ret rid → to_key rid = Ret key →
  ∃ c', _request m response c = (Ret response, c') ∧
    _pending_responses c' = delete key (_pending_responses c) ∧
    sent c' = (sent c ++ [JObj m])%list ∧
    policy c' = policy c ∧ _handlers c' = _handlers c ∧
    uuid_calls c' = uuid_calls c ∧ clock_calls c' = clock_calls c.
Proof.
  unfold _request, _request_begin, request_id_of. intros Hr Hk.
  destruct (py_get _ _ _) as [rid'|e]; simpl in *; [|done].
  injection Hr as <-. rewrite Hk. simpl.
  unfold _request_value, _request_end, _request_timeout.
  destruct response as [data|]; simpl.
  - rewrite lookup_insert_eq. eexists. split; [done|]. simpl.
    by rewrite delete_insert_eq.
  - rewrite lookup_alter, decide_True by done. rewrite lookup_insert_eq. simpl.
    eexists. split; [done|]. simpl. by rewrite delete_insert_eq.
Qed.

Section FetchFacts.
Context `{Host}.

(** [_fetch_policy] sends one [get_policy] request; on a timeout the
    policy stays as it is, and on a reply with a well-typed payload the
    fields the payload names are replaced and the others kept. *)
Theorem fetch_policy_outcome (c : SpawnConnection) :
  (∃ c', _fetch_policy None c = (Ret (), Some c') ∧ policy c' = policy c ∧
     ∃ frame, sent c' = (sent c ++ [JObj frame])%list ∧
              frame !! "type" = Some (JStr "get_policy")) ∧
  (∀ o p, o !! "payload" = Some (JObj p) → well_typed p →
     ∃ c', _fetch_policy (Some (JObj o)) c = (Ret (), Some c') ∧
           ∀ f, field_after (policy c) (policy c') p f).
Proof.
  unfold _fetch_policy, fresh_uuid, now. cbv zeta.
  set (m := list_to_map _).
  assert (Hm : ∃ i, request_id_of m = Ret (JStr i) ∧ m !! "type" = Some (JStr "get_policy")).
  { eexists. split; reflexivity. }
  destruct Hm as (i & Hid & Hty).
  split.
  - destruct (_request_runs m (JStr i) (Some (inl i)) None
                (set_clock_calls S (set_uuid_calls S c)) Hid eq_refl)
      as (c' & -> & _ & Hs & Hp & _).
    exists c'. split; [done|]. split; [done|]. exists m. done.
  - intros o p Hp Hwt.
    destruct (_request_runs m (JStr i) (Some (inl i)) (Some (JObj o))
                (set_clock_calls S (set_uuid_calls S c)) Hid eq_refl)
      as (c' & -> & _ & _ & Hpol & _).
    assert (Ht : json_truthy (JObj o) = true).
    { simpl. rewrite bool_decide_eq_false_2; [done|]. intros ->.
      by rewrite lookup_empty in Hp. }
    rewrite Ht. unfold py_get. rewrite Hp. simpl.
    destruct (update_policy_invariant (policy c') p) as [Hdef Hspec].
    destruct (proj2 Hdef Hwt) as [cfg' Hu]. rewrite Hu. simpl.
    eexists. split; [done|]. simpl. intros f.
    specialize (Hspec cfg' Hu f). unfold field_after in *.
    simpl in Hpol. by rewrite Hpol in Hspec.
Qed.

End FetchFacts.

Lemma set_if_lookup (cond : bool) (key k : string) (value : json)
    (payload : gmap string json) :
  set_if cond key value payload !! k
    = if cond && bool_decide (key = k) then Some value else payload !! k.
Proof.
  unfold set_if. destruct cond; simpl; [|done].
  case_bool_decide as Hk; [subst; apply lookup_insert_eq | by apply lookup_insert_ne].
Qed.

(** The payload of a confirmation request: the request id, title, danger
    level and timeout as given; a summary exactly when the message is not
    empty; [requires_slide] exactly for the danger levels [high] and
    [critical], and [requires_biometric] exactly for [critical]. *)
Lemma confirm_payload_lookups (request_id title : string) (message : option string)
    (danger_level : string) (details : option (list json)) (timeout_seconds : Z) :
  let p := confirm_payload request_id title message danger_level details timeout_seconds in
  p !! "request_id" = Some (JStr request_id) ∧
  p !! "danger_level" = Some (JStr danger_level) ∧
  p !! "summary" = (if opt_truthy message then Some (json_of_opt message) else None) ∧
  p !! "requires_slide"
    = (if bool_decide (danger_level = "high" ∨ danger_level = "critical")
       then Some (JBool true) else None) ∧
  p !! "requires_biometric"
    = (if bool_decide (danger_level = "critical") then Some (JBool true) else None).
Proof.
  assert (Hin : py_in danger_level ["high"; "critical"]
                = bool_decide (danger_level = "high" ∨ danger_level = "critical")).
  { unfold py_in. apply bool_decide_ext. rewrite !elem_of_cons, elem_of_nil. tauto. }
  cbv zeta. unfold confirm_payload. rewrite !set_if_lookup, Hin.
  destruct (bool_decide (danger_level = "critical")),
    (bool_decide (danger_level = "high" ∨ danger_level = "critical")),
    (list_truthy details), (opt_truthy message); repeat split; reflexivity.
Qed.

Lemma reply_action_confirm (response : option json) :
  (action ← reply_action response; Ret (from_option (is_JStr "confirm") false action))
    = Ret true ↔
  ∃ o p, response = Some (JObj o) ∧ o !! "payload" = Some (JObj p) ∧
         p !! "action" = Some (JStr "confirm").
Proof.
  unfold reply_action. split.
  - intros Hr. destruct response as [r|]; [|done].
    destruct (json_truthy r); [|done].
    destruct r as [| | | | |o]; try done. simpl in Hr.
    destruct (o !! "payload") as [[| | | | |p]|] eqn:Hp; try done; simpl in Hr.
    destruct (p !! "action") as [[| | |s| |]|] eqn:Ha; try done; simpl in Hr.
    injection Hr as Hs. apply bool_decide_eq_true in Hs as ->. eauto.
  - intros (o & p & -> & Hp & Ha).
    assert (Ht : json_truthy (JObj o) = true).
    { simpl. rewrite bool_decide_eq_false_2; [done|]. intros ->.
      by rewrite lookup_empty in Hp. }
    rewrite Ht. simpl. rewrite Hp. simpl. by rewrite Ha.
Qed.

Section ApprovalFacts.
Context `{Host}.

Lemma confirm_runs (title : string) (message : option string) (danger_level : string)
    (details : option (list json)) (timeout_seconds : Z)
    (response : option json) (c : SpawnConnection) :
  ∃ frame,
    (confirm title message danger_level details timeout_seconds response c).1
      = (action ← reply_action response;
         Ret (from_option (is_JStr "confirm") false action)) ∧
    sent (confirm title message danger_level details timeout_seconds response c).2
      = (sent c ++ [JObj frame])%list ∧
    frame !! "type" = Some (JStr "confirmation_request") ∧
    frame !! "payload"
      = Some (JObj (confirm_payload ("cfm_" ++ str_take 12 (uuid4_hex (uuid_calls c)))
                      title message danger_level details timeout_seconds)) ∧
    _pending_responses
      (confirm title message danger_level details timeout_seconds response c).2
      = delete (Some (inl ("cfm_" ++ str_take 12 (uuid4_hex (uuid_calls c)))))
          (_pending_responses c) ∧
    policy (confirm title message danger_level details timeout_seconds response c).2
      = policy c.
Proof.
  unfold confirm, fresh_uuid, now. cbv zeta.
  set (rid := "cfm_" ++ str_take 12 (uuid4_hex (uuid_calls c))).
  set (m := list_to_map _).
  assert (Hid : request_id_of m = Ret (JStr rid)).
  { unfold request_id_of.
    change (m !! "payload") with
      (Some (JObj (confirm_payload rid title message danger_level details
                     timeout_seconds))).
    cbn [from_option py_get id].
    destruct (confirm_payload_lookups rid title message danger_level details
                timeout_seconds) as [-> _]. done. }
  destruct (_request_runs m (JStr rid) (Some (inl rid)) response
              (set_clock_calls S (set_uuid_calls S (set_uuid_calls S c))) Hid eq_refl)
    as (c' & -> & Hpend & Hsent & Hpol & _).
  exists m. simpl. done.
Qed.

(** [confirm] returns true exactly when a reply came and the [action] of
    its payload is [confirm]; a timeout is a refusal.  One confirmation
    request is sent, and the table keeps no entry for it. *)
Theorem confirm_decision (title : string) (message : option string)
    (danger_level : string) (details : option (list json)) (timeout_seconds : Z)
    (response : option json) (c : SpawnConnection) :
  ((confirm title message danger_level details timeout_seconds response c).1 = Ret true ↔
   ∃ o p, response = Some (JObj o) ∧ o !! "payload" = Some (JObj p) ∧
          p !! "action" = Some (JStr "confirm")) ∧
  (confirm title message danger_level details timeout_seconds None c).1 = Ret false ∧
  (∃ frame,
     sent (confirm title message danger_level details timeout_seconds response c).2
       = (sent c ++ [JObj frame])%list ∧
     frame !! "type" = Some (JStr "confirmation_request")) ∧
  _pending_responses
    (confirm title message danger_level details timeout_seconds response c).2
    !! Some (inl ("cfm_" ++ str_take 12 (uuid4_hex (uuid_calls c)))) = None.
Proof.
  destruct (confirm_runs title message danger_level details timeout_seconds response c)
    as (frame & Hr & Hs & Ht & _ & Hp & _).
  destruct (confirm_runs title message danger_level details timeout_seconds None c)
    as (frame' & Hr' & _).
  split; [rewrite Hr; apply reply_action_confirm|].
  split; [by rewrite Hr'|].
  split; [by exists frame|].
  rewrite Hp. apply lookup_delete_eq.
Qed.

(** [confirm_with_options] returns the [action] of the reply's payload as
    it is, the string [cancel] included, and [None] only after a timeout or
    when the reply names no action. *)
Theorem confirm_with_options_action (title : string) (options : list json)
    (message : option string) (danger_level : string) (timeout_seconds : Z)
    (c : SpawnConnection) :
  (confirm_with_options title options message danger_level timeout_seconds None c).1
    = Ret JNull ∧
  ∀ o p, o !! "payload" = Some (JObj p) →
    (confirm_with_options title options message danger_level timeout_seconds
       (Some (JObj o)) c).1 = Ret (default JNull (p !! "action")).
Proof.
  unfold confirm_with_options, fresh_uuid, now. cbv zeta.
  set (rid := "cfm_" ++ str_take 12 (uuid4_hex (uuid_calls c))).
  set (m := list_to_map _).
  assert (Hid : request_id_of m = Ret (JStr rid)) by reflexivity.
  split.
  - destruct (_request_runs m (JStr rid) (Some (inl rid)) None
                (set_clock_calls S (set_uuid_calls S (set_uuid_calls S c))) Hid eq_refl)
      as (c' & -> & _). done.
  - intros o p Hp.
    destruct (_request_runs m (JStr rid) (Some (inl rid)) (Some (JObj o))
                (set_clock_calls S (set_uuid_calls S (set_uuid_calls S c))) Hid eq_refl)
      as (c' & -> & _).
    assert (Ht : json_truthy (JObj o) = true).
    { simpl. rewrite bool_decide_eq_false_2; [done|]. intros ->.
      by rewrite lookup_empty in Hp. }
    cbn [fst mbind result_bind reply_action]. rewrite Ht. simpl. by rewrite Hp.
Qed.

End ApprovalFacts.

Lemma step_entries_lookup (steps : list string) (step : Z) (i : nat) :
  step_entries steps step !! i = (λ s, (s, step_status_at step i)) <$> steps !! i.
Proof. unfold step_entries. apply list_lookup_imap. Qed.

Lemma py_index_Some (len : nat) (i : Z) (k : nat) :
  py_index len i = Some k ↔
  (0 ≤ i < Z.of_nat len ∧ k = Z.to_nat i) ∨
  (- Z.of_nat len ≤ i < 0 ∧ k = Z.to_nat (Z.of_nat len + i)).
Proof.
  unfold py_index.
  destruct (Z.leb_spec 0 i), (Z.ltb_spec i (Z.of_nat len)),
    (Z.leb_spec (- Z.of_nat len) i), (Z.ltb_spec i 0); simpl;
    split; try (intros [= <-]); try lia; try (intros [[? ->]|[? ->]]; (done || lia)).
Qed.

(** The steps [update] reports keep the labels of the handle in order.
    Without a status override, step [i] is complete below [step], running
    at [step] and pending above it, so a [step] past the end marks every
    step complete and a negative one marks every step pending.  With an
    override the call raises [IndexError] when [step] is outside
    [-len, len); otherwise the override lands on the step that [step]
    indexes, counting from the end when it is negative. *)
Theorem update_steps_spec (steps : list string) (step : Z) (step_status : option string) :
  steps ≠ [] →
  (opt_truthy step_status = false →
   update_steps (Some steps) (Some step) step_status
     = Ret (Some (step_entries steps step)) ∧
   ∀ i s, steps !! i = Some s →
     step_entries steps step !! i = Some (s, step_status_at step i)) ∧
  (opt_truthy step_status = true →
   (py_index (length steps) step = None →
    update_steps (Some steps) (Some step) step_status = Raise IndexError) ∧
   (∀ k, py_index (length steps) step = Some k →
    ∃ es, update_steps (Some steps) (Some step) step_status = Ret (Some es) ∧
      length es = length steps ∧
      ∀ i s, steps !! i = Some s →
        es !! i = Some (s, if decide (i = k) then default "" step_status
                           else step_status_at step i))).
Proof.
  intros Hne. unfold update_steps.
  assert (Ht : list_truthy (Some steps) = true) by (by destruct steps).
  rewrite Ht. cbn [from_option id]. split.
  - intros ->. split; [done|]. intros i s Hi.
    by rewrite step_entries_lookup, Hi.
  - intros ->. unfold override_status.
    assert (Hlen : length (step_entries steps step) = length steps)
      by (unfold step_entries; apply length_imap).
    rewrite Hlen. split.
    + by intros ->.
    + intros k ->. simpl. eexists. split; [done|].
      split; [by rewrite length_alter|].
      intros i s Hi. destruct (decide (i = k)) as [->|Hik].
      * rewrite list_lookup_alter_eq, step_entries_lookup, Hi. done.
      * rewrite list_lookup_alter_ne by done.
        by rewrite step_entries_lookup, Hi.
Qed.

Section UiFacts.
Context `{Host}.
Variable truediv : Z → Z → json.

(** [update] stores [current] in the handle in every case.  When the
    status override is out of range it raises before anything is sent;
    otherwise it sends one [progress] frame with status [running], the id
    of the handle, the steps computed above and, for the progress value,
    the caller's number or else [current / total] when a non-zero total
    and a current value are known. *)
Theorem progress_update_outcome (self : ProgressHandle) (current step : option Z)
    (step_status : option string) (progress : option json) (message : option string)
    (c : SpawnConnection) :
  prg_current (progress_update truediv self current step step_status progress message c).2.1
    = default (prg_current self) current ∧
  match update_steps (prg_steps self) step step_status with
  | Raise e =>
      (progress_update truediv self current step step_status progress message c).1
        = Raise e ∧
      (progress_update truediv self current step step_status progress message c).2.2 = c
  | Ret entries =>
      (progress_update truediv self current step step_status progress message c).1
        = Ret () ∧
      ∃ frame payload,
        sent (progress_update truediv self current step step_status progress message c).2.2
          = (sent c ++ [JObj frame])%list ∧
        frame !! "type" = Some (JStr "progress") ∧
        frame !! "payload" = Some (JObj payload) ∧
        payload !! "status" = Some (JStr "running") ∧
        payload !! "request_id" = Some (JStr (prg_id self)) ∧
        payload !! "steps" = json_of_entries <$> entries ∧
        payload !! "progress" = update_progress truediv (prg_total self) current progress
  end.
Proof.
  unfold progress_update.
  set (self' := match current with Some _ => _ | None => self end).
  assert (Hid : prg_id self' = prg_id self) by (by destruct current).
  assert (Hst : prg_steps self' = prg_steps self) by (by destruct current).
  assert (Htot : prg_total self' = prg_total self) by (by destruct current).
  assert (Hcur : prg_current self' = default (prg_current self) current)
    by (by destruct current).
  clearbody self'. rewrite Hid, Hst, Htot.
  destruct (update_steps (prg_steps self) step step_status) as [entries|e];
    cbn [fst snd]; [|done].
  split; [done|]. split; [done|].
  match goal with |- context [send ?m c] =>
    destruct (send_frame_spec m c) as (frame & Hs & _ & _ & Hk & _) end.
  exists frame. eexists.
  split; [exact Hs|].
  split; [by rewrite Hk|].
  split; [rewrite Hk by done; reflexivity|].
  split; [apply lookup_insert_eq|].
  rewrite !lookup_insert_ne by done.
  destruct entries as [es|]; rewrite ?lookup_insert_ne by done;
    rewrite ?lookup_insert_eq, ?set_if_lookup;
    rewrite ?bool_decide_eq_false_2, ?andb_false_r by done;
    destruct (update_progress truediv (prg_total self) current progress);
    rewrite ?lookup_insert_ne by done; rewrite ?lookup_insert_eq;
    rewrite ?lookup_singleton_eq; rewrite ?lookup_singleton_ne by done; repeat split;
    rewrite ?set_if_lookup; rewrite ?bool_decide_eq_false_2, ?andb_false_r by done;
    rewrite ?lookup_insert_eq; rewrite ?lookup_singleton_ne by done; done.
Qed.

End UiFacts.

Lemma talks_refl (w : world) : talks w w.
Proof. by repeat split. Qed.

Lemma talks_trans (w1 w2 w3 : world) : talks w1 w2 → talks w2 w3 → talks w1 w3.
Proof.
  unfold talks. intros (?&?&?&?&?) (?&?&?&?&?). repeat split; congruence.
Qed.

Lemma flow_bind_eq {A B} (m : flow A) (f : A → flow B) (w : world) :
  (m ≫= f) w = match m w with
               | (Ret a, w1) => f a w1
               | (Raise e, w1) => (Raise e, w1)
               end.
Proof. reflexivity. Qed.

Lemma calls_grow (l : list call) (k : call) : (l ++ [k])%list ≠ l.
Proof. intros Hl. apply (f_equal length) in Hl. rewrite length_app in Hl. simpl in Hl. lia. Qed.

Lemma append_nil_r (s : string) : s ++ "" = s.
Proof. induction s as [|c s IH]; [done|]. by rewrite append_cons, IH. Qed.

Lemma split_from_token (cur : option string) (t : string) :
  take_token t ≠ "" ∨ is_Some cur →
  split_from cur (take_token t) = [default "" cur ++ take_token t].
Proof.
  revert cur. induction t as [|c r IH]; intros cur Hne.
  - destruct Hne as [?|[w ->]]; [done|]. simpl. by rewrite append_nil_r.
  - cbn [take_token] in *. destruct (isspace c) eqn:Hc.
    + destruct Hne as [?|[w ->]]; [done|]. simpl. by rewrite append_nil_r.
    + cbn [split_from]. rewrite Hc, IH by (right; eauto). cbn [from_option id].
      by rewrite append_assoc.
Qed.

Lemma split_head_token (s w : string) (ws : list string) :
  split s = w :: ws → split w = [w].
Proof.
  intros Hs. pose proof (split_first_token s) as Hh. rewrite Hs in Hh.
  unfold first_token in Hh. simpl in Hh.
  destruct (take_token (lstrip s)) as [|c u] eqn:Ht; [done|].
  injection Hh as ->. rewrite <- Ht. unfold split.
  rewrite split_from_token by (left; by rewrite Ht). done.
Qed.

Section ExampleFacts.
Context `{Host}.

Lemma sending_send (f : SpawnConnection → SpawnConnection) (m : gmap string json)
    (w : world) :
  (∀ c, f c = send m c) →
  ∃ w' frame, sending f w = (Ret (), w') ∧ talks w w' ∧
    sent (_connection (sdk w')) = (sent (_connection (sdk w)) ++ [JObj frame])%list ∧
    ∀ k, k ≠ "id" → k ≠ "ts" → frame !! k = m !! k.
Proof.
  intros Hf.
  destruct (send_frame_spec m (_connection (sdk w)))
    as (frame & Hs & _ & _ & Hk & _ & _ & _ & Hp).
  eexists _, frame. split; [reflexivity|]. simpl. rewrite Hf.
  split; [|split; [exact Hs | exact Hk]].
  repeat split. exact Hp.
Qed.

Lemma confirm_world (title : string) (message : option string) (danger_level : string)
    (details : option (list json)) (timeout_seconds : Z) (reply : option json)
    (w : world) :
  ∃ w' frame p,
    in_connection (confirm title message danger_level details timeout_seconds reply) w
      = ((action ← reply_action reply;
          Ret (from_option (is_JStr "confirm") false action)), w') ∧
    talks w w' ∧
    sent (_connection (sdk w')) = (sent (_connection (sdk w)) ++ [JObj frame])%list ∧
    frame !! "type" = Some (JStr "confirmation_request") ∧
    frame !! "payload" = Some (JObj p) ∧
    p !! "danger_level" = Some (JStr danger_level).
Proof.
  destruct (confirm_runs title message danger_level details timeout_seconds reply
              (_connection (sdk w))) as (frame & Hr & Hs & Ht & Hp & _ & Hpol).
  unfold in_connection, in_state.
  destruct (confirm _ _ _ _ _ _ _) as [r c'] eqn:Hc. simpl in *. subst r.
  eexists _, frame, _. split; [reflexivity|]. split; [by repeat split|].
  split; [exact Hs|]. split; [exact Ht|]. split; [exact Hp|].
  apply confirm_payload_lookups.
Qed.

Lemma confirmed_iff (reply : option json) :
  (action ← reply_action reply; Ret (from_option (is_JStr "confirm") false action))
    = Ret true ↔ confirms reply.
Proof. apply reply_action_confirm. Qed.

Ltac run_calling :=
  rewrite ?flow_bind_eq; unfold calling at 1; cbn beta iota.

Ltac run_sending w1 Ht :=
  rewrite ?flow_bind_eq;
  match goal with |- context [sending ?f ?w0] =>
    let frame := fresh "frame" in
    let Hs := fresh "Hs" in
    edestruct (sending_send f _ w0 (λ c, eq_refl)) as (w1 & frame & Hs & Ht & _);
    rewrite Hs; clear Hs; cbn beta iota
  end.

Ltac run_confirm w1 Ht :=
  rewrite ?flow_bind_eq;
  match goal with |- context [in_connection (confirm ?a ?b ?c ?d ?e ?f) ?w0] =>
    let frame := fresh "frame" in
    let p := fresh "p" in
    let Hc := fresh "Hc" in
    destruct (confirm_world a b c d e f w0) as (w1 & frame & p & Hc & Ht & _);
    rewrite Hc; clear Hc
  end.

Ltac no_call :=
  let Hl := fresh in
  intros Hl; symmetry in Hl; by apply calls_grow in Hl.

(** [handle_file_write] calls [execute] at most once, and it does exactly
    when the path is not forbidden, the path is allowed or the question
    about it was confirmed, and writing needs no approval or the question
    about it was confirmed. *)
Theorem handle_file_write_executes (step : Step) (reply_path reply_write : option json)
    (w : world) :
  let cfg := get_policy (sdk w) in
  let w' := (handle_file_write step reply_path reply_write w).2 in
  (calls w' = (calls w ++ [Execute])%list ∨ calls w' = calls w) ∧
  (calls w' = (calls w ++ [Execute])%list ↔
   is_path_forbidden cfg (target_path step) = Ret false ∧
   (is_path_allowed cfg (target_path step) = Ret true ∨
    is_path_allowed cfg (target_path step) = Ret false ∧ confirms reply_path) ∧
   (requires_approval cfg "files.write" = true → confirms reply_write)).
Proof.
  cbv zeta. pattern ((handle_file_write step reply_path reply_write w).2).
  match goal with |- ?P _ => set (Q := P) end.
  unfold handle_file_write.
  set (write := calling Execute ;; _).
  set (ask_write := the_policy ≫= λ cfg, if requires_approval cfg "files.write" then _ else _).
  assert (Hwrite : ∀ w0, calls (write w0).2 = (calls w0 ++ [Execute])%list).
  { intros w0. unfold write. run_calling. run_sending w1 Ht. apply Ht. }
  assert (Hask : ∀ w0, get_policy (sdk w0) = get_policy (sdk w) → calls w0 = calls w →
            (calls (ask_write w0).2 = (calls w ++ [Execute])%list ∨
             calls (ask_write w0).2 = calls w) ∧
            (calls (ask_write w0).2 = (calls w ++ [Execute])%list ↔
             (requires_approval (get_policy (sdk w)) "files.write" = true →
              confirms reply_write))).
  { intros w0 Hp Hc. unfold ask_write. rewrite flow_bind_eq. cbn [the_policy].
    rewrite Hp. destruct (requires_approval _ _).
    - run_confirm w1 Ht.
      pose proof (confirmed_iff reply_write) as Hiff.
      destruct (_ ≫= _) as [[|]|e].
      + rewrite Hwrite. destruct Ht as [-> _]. rewrite Hc.
        split; [by left|]. split; [intros _ _; by apply Hiff | done].
      + simpl. destruct Ht as [-> _]. rewrite Hc. split; [by right|].
        split; [no_call|].
        intros Hr. specialize (Hr eq_refl). by apply Hiff in Hr.
      + simpl. destruct Ht as [-> _]. rewrite Hc. split; [by right|].
        split; [no_call|].
        intros Hr. specialize (Hr eq_refl). by apply Hiff in Hr.
    - rewrite Hwrite, Hc. split; [by left|]. split; [done|done]. }
  rewrite flow_bind_eq. cbn [the_policy]. rewrite flow_bind_eq. unfold raising at 1. cbn beta.
  destruct (is_path_forbidden _ _) as [[|]|e].
  - run_sending w1 Ht. subst Q. simpl. destruct Ht as [-> _].
    split; [by right|]. split; [no_call|].
    by intros [? _].
  - rewrite flow_bind_eq. cbn [the_policy]. rewrite flow_bind_eq. unfold raising.
    destruct (is_path_allowed _ _) as [[|]|e].
    + subst Q. cbn beta. destruct (Hask w eq_refl eq_refl) as [Hor Hiff]. split; [exact Hor|].
      rewrite Hiff. split; [intros ?; split; [done|]; split; [by left|done]|].
      by intros (_ & _ & ?).
    + run_confirm w1 Ht.
      pose proof (confirmed_iff reply_path) as Hiff.
      destruct (_ ≫= _) as [[|]|e].
      * subst Q. cbn beta. destruct Ht as (Hc & _ & _ & _ & Hp).
        destruct (Hask w1 Hp Hc) as [Hor Hiff']. split; [exact Hor|].
        rewrite Hiff'. split.
        -- intros ?. split; [done|]. split; [right; split; [done|by apply Hiff]|done].
        -- by intros (_ & _ & ?).
      * run_sending w2 Ht2. subst Q. simpl.
        destruct Ht as [Hc _], Ht2 as [-> _]. rewrite Hc.
        split; [by right|]. split; [no_call|].
        intros (_ & [?|[_ Hr]] & _); [done|]. by apply Hiff in Hr.
      * subst Q. simpl. destruct Ht as [-> _].
        split; [by right|]. split; [no_call|].
        intros (_ & [?|[_ Hr]] & _); [done|]. by apply Hiff in Hr.
    + subst Q. simpl. split; [by right|].
      split; [no_call|].
      by intros (_ & [?|[? _]] & _).
  - subst Q. simpl. split; [by right|].
    split; [no_call|]. by intros [? _].
Qed.

Lemma set_status_run (state : string) (label : option string) (w : world) :
  ∃ w' frame, set_status state label w = (Ret (), w') ∧
    calls w' = calls w ∧ status_current (agent_status w') = state ∧
    get_policy (sdk w') = get_policy (sdk w) ∧
    sent (_connection (sdk w')) = (sent (_connection (sdk w)) ++ [JObj frame])%list.
Proof.
  unfold set_status, status_set. cbn [snd].
  match goal with |- context [send ?m ?c] =>
    destruct (send_frame_spec m c) as (frame & Hs & _ & _ & _ & _ & _ & _ & Hp) end.
  eexists _, frame. split; [reflexivity|].
  split; [reflexivity|]. split; [reflexivity|]. split; [exact Hp | exact Hs].
Qed.

(** [handle_shell_command]: while [system.shell] is forbidden the only
    thing that happens is one [SHELL_FORBIDDEN] error frame, whatever the
    command.  Otherwise a command with no token raises [IndexError] before
    anything is sent, and a command with a first token is put to the user,
    at danger level [medium] when that token is an allowed command and
    [high] when it is not; [execute] is called, once, exactly when the
    reply confirms. *)
Theorem handle_shell_command_outcome (step : Step) (reply : option json) (w : world) :
  let cfg := get_policy (sdk w) in
  let run := handle_shell_command step reply w in
  (is_forbidden cfg "system.shell" = true →
   run.1 = Ret () ∧ calls run.2 = calls w ∧
   ∃ frame p,
     sent (_connection (sdk run.2)) = (sent (_connection (sdk w)) ++ [JObj frame])%list ∧
     frame !! "type" = Some (JStr "error") ∧
     frame !! "payload" = Some (JObj p) ∧
     p !! "code" = Some (JStr "SHELL_FORBIDDEN")) ∧
  (is_forbidden cfg "system.shell" = false →
   (split (command step) = [] → run = (Raise IndexError, w)) ∧
   (∀ cmd rest, split (command step) = cmd :: rest →
      (∃ frame p more,
         sent (_connection (sdk run.2))
           = (sent (_connection (sdk w)) ++ JObj frame :: more)%list ∧
         frame !! "type" = Some (JStr "confirmation_request") ∧
         frame !! "payload" = Some (JObj p) ∧
         p !! "danger_level"
           = Some (JStr (if py_in cmd (allowed_commands cfg) then "medium" else "high"))) ∧
      (confirms reply → calls run.2 = (calls w ++ [Execute])%list) ∧
      (¬ confirms reply → calls run.2 = calls w))).
Proof.
  cbv zeta. pattern (handle_shell_command step reply w).
  match goal with |- ?P _ => set (Q := P) end.
  unfold handle_shell_command. rewrite flow_bind_eq. cbn [the_policy].
  destruct (is_forbidden _ _) eqn:Hf.
  - rewrite ?flow_bind_eq.
    match goal with |- context [sending ?f ?w0] =>
      edestruct (sending_send f _ w0 (λ c, eq_refl)) as (w1 & frame & -> & Ht & Hs & Hk)
    end.
    subst Q. cbn beta. split; [|done]. intros _. simpl.
    split; [done|]. split; [apply Ht|].
    eexists frame, _. split; [exact Hs|].
    split; [by rewrite Hk|]. split; [rewrite Hk by done; reflexivity|]. done.
  - rewrite flow_bind_eq. unfold raising at 1. cbn beta.
    destruct (split (command step)) as [|cmd rest] eqn:Hsplit.
    + subst Q. cbn beta. split; [done|]. intros _. split; [done|]. by intros ? ?.
    + cbn iota. rewrite flow_bind_eq. cbn [the_policy]. rewrite flow_bind_eq.
      unfold raising. cbn beta.
      rewrite (is_command_allowed_token _ cmd cmd []) by by eapply split_head_token.
      cbn iota.
      assert (Hask : ∃ w1 frame p,
        (if py_in cmd (allowed_commands (get_policy (sdk w)))
         then in_connection (confirm ("Run " ++ cmd ++ "?") (Some (command step))
                               "medium" None 300 reply)
         else in_connection
                (confirm "Run Shell Command?"
                   (Some ("This command isn't in your allowed list:"
                          ++ String LF (String LF (command step))))
                   "high" None 300 reply)) w
          = ((action ← reply_action reply;
              Ret (from_option (is_JStr "confirm") false action)), w1) ∧
        talks w w1 ∧
        sent (_connection (sdk w1)) = (sent (_connection (sdk w)) ++ [JObj frame])%list ∧
        frame !! "type" = Some (JStr "confirmation_request") ∧
        frame !! "payload" = Some (JObj p) ∧
        p !! "danger_level"
          = Some (JStr (if py_in cmd (allowed_commands (get_policy (sdk w)))
                        then "medium" else "high"))).
      { destruct (py_in _ _); apply confirm_world. }
      destruct Hask as (w1 & frame & p & Hrun & Ht & Hs & Hty & Hpay & Hd).
      rewrite flow_bind_eq, Hrun. clear Hrun.
      pose proof (confirmed_iff reply) as Hiff.
      destruct (_ ≫= _) as [[|]|e].
      * rewrite flow_bind_eq.
        destruct (set_status_run "working" (Some ("Running " ++ cmd ++ "...")) w1)
          as (w2 & frame2 & -> & Hc2 & _ & _ & Hs2).
        run_calling. rewrite ?flow_bind_eq.
        match goal with |- context [sending ?f ?w0] =>
          edestruct (sending_send f _ w0 (λ c, eq_refl))
            as (w3 & frame3 & -> & Ht3 & Hs3 & _)
        end.
        subst Q. cbn beta. split; [done|]. intros _. split; [done|].
        intros ? ? [= <- <-]. cbn [fst snd]. split; [|split].
        -- exists frame, p, [JObj frame2; JObj frame3].
           split; [|done]. rewrite Hs3. simpl. rewrite Hs2, Hs.
           by rewrite <- !app_assoc.
        -- intros _. destruct Ht3 as [-> _]. simpl. destruct Ht as [<- _].
           by rewrite Hc2.
        -- intros Hn. destruct Hn. by apply Hiff.
      * rewrite ?flow_bind_eq.
        match goal with |- context [sending ?f ?w0] =>
          edestruct (sending_send f _ w0 (λ c, eq_refl))
            as (w3 & frame3 & -> & Ht3 & Hs3 & _)
        end.
        subst Q. cbn beta. split; [done|]. intros _. split; [done|].
        intros ? ? [= <- <-]. cbn [fst snd]. split; [|split].
        -- exists frame, p, [JObj frame3].
           split; [|done]. rewrite Hs3, Hs. by rewrite <- !app_assoc.
        -- intros Hc. by apply Hiff in Hc.
        -- intros _. destruct Ht3 as [-> _]. by destruct Ht as [-> _].
      * subst Q. cbn beta. split; [done|]. intros _. split; [done|].
        intros ? ? [= <- <-]. cbn [fst snd]. split; [|split].
        -- exists frame, p, []. done.
        -- intros Hc. by apply Hiff in Hc.
        -- intros _. by destruct Ht as [-> _].
Qed.

Lemma request_spawn_runs (name : string) (role description : option string)
    (permissions : option (list (gmap string json))) (lifespan : string)
    (reason icon : option string) (response : option json) (s : state) :
  ∃ c' frame sub,
    sent c' = (sent (_connection s) ++ [JObj frame])%list ∧
    frame !! "type" = Some (JStr "agent_spawn_request") ∧
    policy c' = policy (_connection s) ∧
    sub_name sub = name ∧
    request_spawn name role description permissions lifespan reason icon response s
      = match is_approved response with
        | Raise e => (Raise e, set_connection (λ _, c') s)
        | Ret true => (Ret (Some sub), register sub (set_connection (λ _, c') s))
        | Ret false => (Ret None, set_connection (λ _, c') s)
        end.
Proof.
  unfold request_spawn, fresh_uuid, now. cbv zeta.
  match goal with |- context [_request ?m ?r ?c] =>
    destruct (spawn_request_message_payload
                ("spawn_req_" ++ str_take 12 (uuid4_hex (uuid_calls (_connection s))))
                (make_sub_agent_id name
                   (uuid4_hex (uuid_calls (set_uuid_calls S (_connection s)))))
                ("msg_" ++ str_take 12
                   (uuid4_hex (uuid_calls (set_uuid_calls S
                                             (set_uuid_calls S (_connection s))))))
                (now_timestamp (clock_calls (set_uuid_calls S (set_uuid_calls S
                                               (set_uuid_calls S (_connection s))))))
                name role description permissions lifespan reason icon)
      as (p & Hp & Hr);
    destruct (_request_runs m (JStr ("spawn_req_"
                ++ str_take 12 (uuid4_hex (uuid_calls (_connection s)))))
                (Some (inl ("spawn_req_"
                   ++ str_take 12 (uuid4_hex (uuid_calls (_connection s))))))
                r c) as (c' & -> & _ & Hs & Hpol & _)
  end.
  - unfold request_id_of. rewrite Hp. cbn [from_option py_get id]. by rewrite Hr.
  - reflexivity.
  - eexists c', _, _. split; [exact Hs|]. split; [reflexivity|].
    split; [exact Hpol|]. split; [|cbn [mbind result_bind]; reflexivity]. reflexivity.
Qed.

Lemma terminate_world (sub : SubAgent) (reason : string) (w : world) :
  ∃ w' frame p,
    in_state (λ s, (Ret (), terminate sub reason s)) w = (Ret (), w') ∧
    talks w w' ∧
    sent (_connection (sdk w')) = (sent (_connection (sdk w)) ++ [JObj frame])%list ∧
    frame !! "type" = Some (JStr "sub_agent_terminate") ∧
    frame !! "payload" = Some (JObj p) ∧
    p !! "sub_agent_id" = Some (JStr (sub_id sub)).
Proof.
  unfold in_state, terminate.
  match goal with |- context [send ?m] =>
    destruct (send_frame_spec m (_connection (sdk w)))
      as (frame & Hs & _ & _ & Hk & _ & _ & _ & Hp) end.
  eexists _, frame, _. split; [reflexivity|].
  split; [repeat split; exact Hp|]. split; [exact Hs|].
  split; [by rewrite Hk|]. split; [rewrite Hk by done; reflexivity|]. done.
Qed.

(** [handle_sub_agent]: when [can_spawn] refuses, the step runs
    sequentially after one text frame and no request is made.  When the
    request is approved the handle is appended to the active list and
    counted, and it is still there when the handler returns, although the
    last frame sent is the termination of that sub-agent.  When the request
    is not approved the step runs sequentially and the list is as
    before. *)
Theorem handle_sub_agent_outcome (step : Step) (reply : option json) (w : world) :
  let run := handle_sub_agent step reply w in
  (can_spawn (sdk w) = false →
   run.1 = Ret JNull ∧
   calls run.2 = (calls w ++ [ExecuteSequentially])%list ∧
   _active (sdk run.2) = _active (sdk w) ∧
   ∃ frame,
     sent (_connection (sdk run.2)) = (sent (_connection (sdk w)) ++ [JObj frame])%list ∧
     frame !! "type" = Some (JStr "text")) ∧
  (can_spawn (sdk w) = true →
   (is_approved reply = Ret true →
    run.1 = Ret JNull ∧ calls run.2 = calls w ∧
    ∃ sub frames frame p,
      sub_name sub = sub_agent_name step ∧
      _active (sdk run.2) = (_active (sdk w) ++ [sub])%list ∧
      _spawned_this_hour (sdk run.2) = _spawned_this_hour (sdk w) + 1 ∧
      sent (_connection (sdk run.2))
        = (sent (_connection (sdk w)) ++ frames ++ [JObj frame])%list ∧
      frame !! "type" = Some (JStr "sub_agent_terminate") ∧
      frame !! "payload" = Some (JObj p) ∧
      p !! "sub_agent_id" = Some (JStr (sub_id sub))) ∧
   (is_approved reply = Ret false →
    run.1 = Ret JNull ∧
    calls run.2 = (calls w ++ [ExecuteSequentially])%list ∧
    _active (sdk run.2) = _active (sdk w))).
Proof.
  cbv zeta. pattern (handle_sub_agent step reply w).
  match goal with |- ?P _ => set (Q := P) end.
  unfold handle_sub_agent. rewrite flow_bind_eq. cbn [the_state].
  destruct (can_spawn (sdk w)) eqn:Hcan; cbn [negb].
  - rewrite flow_bind_eq. unfold in_state at 1.
    match goal with |- context [request_spawn ?a ?b ?c ?d ?e ?f ?g ?h ?s] =>
      destruct (request_spawn_runs a b c d e f g h s)
        as (c' & frame & sub & Hs & Hty & Hpol & Hname & ->)
    end.
    destruct (is_approved reply) as [[|]|e] eqn:Happ.
    + set (w1 := {| sdk := _ |}).
      rewrite ?flow_bind_eq.
      match goal with |- context [sending ?f ?w0] =>
        edestruct (sending_send f _ w0 (λ c, eq_refl))
          as (w2 & frame2 & -> & Ht2 & Hs2 & _)
      end.
      cbn beta iota. rewrite ?flow_bind_eq.
      match goal with |- context [sending ?f ?w0] =>
        edestruct (sending_send f _ w0 (λ c, eq_refl))
          as (w3 & frame3 & -> & Ht3 & Hs3 & _)
      end.
      cbn beta iota. unfold wait_for_result. rewrite ?flow_bind_eq.
      cbn [mret flow_ret]. cbn beta iota.
      rewrite ?flow_bind_eq.
      destruct (terminate_world sub "Task complete" w3)
        as (w4 & frame4 & p4 & -> & Ht4 & Hs4 & Hty4 & Hp4 & Hid4).
      subst Q. cbn beta iota. split; [done|]. intros _. split; [|done].
      intros _. cbn [fst snd mret flow_ret].
      destruct Ht2 as (Hc2 & _ & Ha2 & Hn2 & _), Ht3 as (Hc3 & _ & Ha3 & Hn3 & _),
        Ht4 as (Hc4 & _ & Ha4 & Hn4 & _).
      split; [done|]. split; [by rewrite Hc4, Hc3, Hc2|].
      exists sub, [JObj frame; JObj frame2; JObj frame3], frame4, p4.
      split; [done|]. split; [by rewrite Ha4, Ha3, Ha2|].
      split; [by rewrite Hn4, Hn3, Hn2|].
      split; [|done]. rewrite Hs4, Hs3, Hs2. subst w1. simpl. rewrite Hs.
      by rewrite <- !app_assoc.
    + set (w1 := {| sdk := _ |}).
      rewrite ?flow_bind_eq.
      match goal with |- context [sending ?f ?w0] =>
        edestruct (sending_send f _ w0 (λ c, eq_refl))
          as (w2 & frame2 & -> & Ht2 & Hs2 & _)
      end.
      cbn beta iota. run_calling.
      subst Q. cbn beta iota. split; [done|]. intros _. split; [done|].
      intros _. cbn [fst snd mret flow_ret].
      destruct Ht2 as (Hc2 & _ & Ha2 & _).
      split; [done|]. simpl. by rewrite Hc2, Ha2.
    + subst Q. cbn beta iota. split; [done|]. intros _. split; done.
  - rewrite ?flow_bind_eq. cbn [the_state]. rewrite ?flow_bind_eq.
    match goal with |- context [sending ?f ?w0] =>
      edestruct (sending_send f _ w0 (λ c, eq_refl))
        as (w2 & frame2 & -> & Ht2 & Hs2 & Hk2)
    end.
    cbn beta iota. run_calling.
    subst Q. cbn beta iota. split; [|done]. intros _.
    cbn [fst snd mret flow_ret].
    destruct Ht2 as (Hc2 & _ & Ha2 & _).
    split; [done|]. simpl. rewrite Hc2, Ha2. split; [done|]. split; [done|].
    exists frame2. split; [done|]. by rewrite Hk2.
Qed.

(** The wrapper of [spawn_safe]: for a forbidden permission it sends one
    [PERMISSION_DENIED] error frame and returns [None] without running the
    function, also when the permission is in the ask list.  For a
    permission in neither list it runs the function at once: whether the
    permission is allowed is not looked at.  For a permission in the ask
    list it sends one confirmation request and runs the function exactly
    when the reply confirms. *)
Theorem spawn_safe_guard (permission danger_level name : string) (reply : option json)
    (w : world) :
  let cfg := get_policy (sdk w) in
  (is_forbidden cfg permission = true →
   ∃ w' frame p,
     (∀ A (func : flow A),
        spawn_safe permission danger_level name func reply w = (Ret None, w')) ∧
     talks w w' ∧
     sent (_connection (sdk w')) = (sent (_connection (sdk w)) ++ [JObj frame])%list ∧
     frame !! "type" = Some (JStr "error") ∧
     frame !! "payload" = Some (JObj p) ∧
     p !! "code" = Some (JStr "PERMISSION_DENIED")) ∧
  (is_forbidden cfg permission = false → requires_approval cfg permission = false →
   ∀ A (func : flow A),
     spawn_safe permission danger_level name func reply w
       = (a ← func; mret (Some a)) w) ∧
  (is_forbidden cfg permission = false → requires_approval cfg permission = true →
   ∃ w' frame,
     talks w w' ∧
     sent (_connection (sdk w')) = (sent (_connection (sdk w)) ++ [JObj frame])%list ∧
     frame !! "type" = Some (JStr "confirmation_request") ∧
     (confirms reply →
      ∀ A (func : flow A),
        spawn_safe permission danger_level name func reply w
          = (a ← func; mret (Some a)) w') ∧
     (¬ confirms reply →
      ∀ A (func : flow A),
        (spawn_safe permission danger_level name func reply w).2 = w' ∧
        ∀ a, (spawn_safe permission danger_level name func reply w).1 ≠ Ret (Some a))).
Proof.
  cbv zeta. split; [|split].
  - intros Hf.
    edestruct (sending_send
                 (send_error "PERMISSION_DENIED" (permission ++ " is disabled")
                    ("The function " ++ name ++ " requires " ++ permission
                     ++ ", which is forbidden.") "warning" true None)
                 _ w (λ c, eq_refl)) as (w1 & frame & Hrun & Ht & Hs & Hk).
    eexists w1, frame, _. split.
    { intros A func. unfold spawn_safe. rewrite flow_bind_eq. cbn [the_policy].
      rewrite Hf, flow_bind_eq, Hrun. reflexivity. }
    split; [exact Ht|]. split; [exact Hs|].
    split; [by rewrite Hk|]. split; [rewrite Hk by done; reflexivity|]. done.
  - intros Hf Ha A func. unfold spawn_safe. rewrite flow_bind_eq. cbn [the_policy].
    rewrite Hf, flow_bind_eq. cbn [the_policy]. by rewrite Ha.
  - intros Hf Ha.
    destruct (confirm_world ("Allow " ++ name ++ "?")
                (Some ("This action requires " ++ permission ++ " permission."))
                danger_level None 300 reply w)
      as (w1 & frame & p & Hrun & Ht & Hs & Hty & _).
    exists w1, frame. split; [exact Ht|]. split; [exact Hs|]. split; [exact Hty|].
    pose proof (confirmed_iff reply) as Hiff.
    split.
    + intros Hc A func. apply Hiff in Hc.
      unfold spawn_safe. rewrite flow_bind_eq. cbn [the_policy].
      rewrite Hf, flow_bind_eq. cbn [the_policy]. rewrite Ha, flow_bind_eq, Hrun, Hc.
      reflexivity.
    + intros Hc A func.
      unfold spawn_safe. rewrite flow_bind_eq. cbn [the_policy].
      rewrite Hf, flow_bind_eq. cbn [the_policy]. rewrite Ha, flow_bind_eq, Hrun.
      destruct (_ ≫= _) as [[|]|e]; [by destruct Hc; apply Hiff|by split|by split].
Qed.

End ExampleFacts.

(** ** Calls that overlap, and [kill_all] over a transport that raises *)

Section TurnsFacts.
Context `{Host}.

Lemma send_stamped (m : gmap string json) (c : SpawnConnection) :
  send m c = ws_send (JObj (stamped m c).1) (stamped m c).2.
Proof.
  unfold send, stamped, fresh_uuid, now. by repeat case_bool_decide.
Qed.

Lemma stamped_policy (m : gmap string json) (c : SpawnConnection) :
  policy (stamped m c).2 = policy c ∧ sent (stamped m c).2 = sent c.
Proof.
  unfold stamped, fresh_uuid, now. by repeat case_bool_decide.
Qed.

(** [request_spawn] is its two turns with the reply, or the timeout, in
    between. *)
Lemma request_spawn_turns (name : string) (role description : option string)
    (permissions : option (list (gmap string json))) (lifespan : string)
    (reason icon : option string) (response : option json) (s : state) :
  request_spawn name role description permissions lifespan reason icon response s
  = match request_spawn_begin name role description permissions lifespan reason icon s with
    | (Raise e, s) => (Raise e, s)
    | (Ret call, s) =>
        request_spawn_resume call
          (set_connection
             (match response with
              | Some data => set_futures (<[call_future call := Finished data]>)
              | None => _request_timeout (call_future call)
              end) s)
    end.
Proof.
  unfold request_spawn, request_spawn_begin, request_spawn_resume, _request,
    fresh_uuid, now. cbv zeta.
  destruct (_request_begin _ _) as [[[key fut] c]|e]; [|reflexivity].
  cbn [mbind result_bind call_future call_key call_sub_agent_id call_name call_role].
  destruct response as [data|]; reflexivity.
Qed.

Lemma terminate_raises_frame (sub : SubAgent) (reason : string) (s : state) :
  _active (terminate_raises sub reason s) = _active s ∧
  _spawned_this_hour (terminate_raises sub reason s) = _spawned_this_hour s ∧
  get_policy (terminate_raises sub reason s) = get_policy s ∧
  sent (_connection (terminate_raises sub reason s)) = sent (_connection s).
Proof.
  unfold terminate_raises, get_policy. cbn [_active _spawned_this_hour set_connection
    _connection].
  match goal with |- context [stamped ?m ?c] =>
    destruct (stamped_policy m c) as [-> ->] end.
  done.
Qed.

Lemma terminate_each_frame (reason : string) (transport : nat → option exn) (k : nat)
    (subs : list SubAgent) (s : state) :
  _active (terminate_each reason transport k subs s).2 = _active s ∧
  _spawned_this_hour (terminate_each reason transport k subs s).2
    = _spawned_this_hour s ∧
  get_policy (terminate_each reason transport k subs s).2 = get_policy s.
Proof.
  revert k s. induction subs as [|sub subs IH]; intros k s; cbn [terminate_each]; [done|].
  destruct (transport k).
  - cbn [snd]. by destruct (terminate_raises_frame sub reason s) as (-> & -> & -> & _).
  - destruct (IH (S k) (terminate sub reason s)) as (-> & -> & ->).
    by destruct (terminate_frame sub reason s) as (-> & -> & _ & ->).
Qed.

(** [kill_all] empties the active list, or leaves it as it is when a
    [terminate] raises; the policy stays. *)
Lemma kill_all_active (reason : string) (transport : nat → option exn) (s : state) :
  get_policy (kill_all reason transport s).2 = get_policy s ∧
  (_active (kill_all reason transport s).2 = [] ∨
   _active (kill_all reason transport s).2 = _active s).
Proof.
  unfold kill_all.
  destruct (terminate_each_frame reason transport 0 (_active s) s) as (Ha & _ & Hp).
  destruct (terminate_each _ _ _ _ _) as [[[]|e] s']; cbn [snd] in *.
  - split; [exact Hp | by left].
  - split; [exact Hp | by right].
Qed.

Lemma _request_begin_policy (m : gmap string json) (c c' : SpawnConnection)
    (key : pykey) (fut : nat) :
  _request_begin m c = Ret (key, fut, c') → policy c' = policy c.
Proof.
  unfold _request_begin.
  destruct (py_get _ _ _) as [rid|]; simpl; [|done].
  destruct (to_key _) as [k|]; simpl; [|done].
  by intros [= _ _ <-].
Qed.

Lemma request_spawn_begin_frame (name : string) (role description : option string)
    (permissions : option (list (gmap string json))) (lifespan : string)
    (reason icon : option string) (s : state) :
  _active (request_spawn_begin name role description permissions lifespan reason
             icon s).2 = _active s ∧
  get_policy (request_spawn_begin name role description permissions lifespan reason
                icon s).2 = get_policy s.
Proof.
  unfold request_spawn_begin, fresh_uuid, now, get_policy. cbv zeta.
  destruct (_request_begin _ _) as [[[key fut] c]|e] eqn:Hb; cbn [snd]; [|done].
  apply _request_begin_policy in Hb. split; [done|]. cbn. by rewrite Hb.
Qed.

Lemma request_spawn_resume_grows (call : spawn_call) (s : state) :
  grows_by_at_most_one s (request_spawn_resume call s).2.
Proof.
  unfold request_spawn_resume, grows_by_at_most_one, get_policy. cbv zeta.
  destruct (is_approved _) as [[|]|e]; cbn; eauto.
Qed.

Lemma message_loop_body_policy (c c' : SpawnConnection) (data : json) (d : dispatch) :
  message_loop_body c data = Ret (c', d) → policy c' = policy c.
Proof.
  intros Hb. apply message_loop_body_effect in Hb as [-> | [key Hr]]; [done|].
  apply resolve_reply_some in Hr as (fut & _ & _ & ->). done.
Qed.

Lemma message_loop_turn_in_force (c : SpawnConnection) (data : json) :
  is_policy_push data = false →
  message_loop_turn c data
  = (r ← message_loop_body c data; Ret (Some r.1, r.2)).
Proof.
  intros Hn. unfold message_loop_turn.
  destruct (message_loop_body c data) as [[c' d]|e] eqn:Hb; [|done].
  cbn [mbind result_bind fst snd].
  destruct d as [key | t | payload | |]; try done.
  exfalso. unfold message_loop_body in Hb.
  destruct data as [| | | | |o]; try done.
  unfold is_policy_push in Hn. cbn [py_get] in Hb.
  cbn [mbind result_bind] in Hb.
  destruct (resolve_reply c (JObj o)) as [[[c1 k]|]|]; cbn [mbind result_bind] in Hb;
    [done| |done].
  destruct (to_key _) as [tk|]; cbn [mbind result_bind] in Hb; [|done].
  destruct (match default JNull (o !! "type") with JStr t => _ | _ => None end)
    as [[t h]|]; [by destruct (h (JObj o))|].
  rewrite Hn in Hb.
  destruct (is_JStr "message" _); [|done].
  destruct (_handlers c !! "on_message") as [h|]; [|done].
  destruct (py_item _ _) as [p|]; cbn [mbind result_bind] in Hb; [|done].
  by destruct (h p).
Qed.

Lemma run_turn_cap (w : tasks) (t : turn) :
  auto_spawn_mode (get_policy (module_state w)) ≠ "off" →
  active_count (module_state w) + Z.of_nat (length (awaiting w))
    ≤ max_concurrent (module_state w) →
  policy_in_force [t] = true →
  disciplined w [t] = true →
  ∃ w', run_turn w t = Some w' ∧
    get_policy (module_state w') = get_policy (module_state w) ∧
    active_count (module_state w') + Z.of_nat (length (awaiting w'))
      ≤ max_concurrent (module_state w).
Proof.
  intros Hm Hle Hf Hd. unfold active_count, max_concurrent in *.
  unfold disciplined in Hd. cbn [follows] in Hd.
  apply andb_true_iff in Hd as [Hd _].
  cbn [policy_in_force forallb] in Hf. rewrite andb_true_r in Hf.
  assert (Hgrow : ∀ s', grows_by_at_most_one (module_state w) s' →
            get_policy s' = get_policy (module_state w) ∧
            Z.of_nat (length (_active s')) ≤ Z.of_nat (length (_active (module_state w))) + 1).
  { intros s' [Hp [-> | [sub ->]]]; (split; [done|]); [lia|].
    rewrite length_app. simpl. lia. }
  destruct t as [a | a | sub reason | reason transport | | data | i timed_out];
    cbn [run_turn].
  - apply andb_true_iff in Hd as [Hc Ha]. cbn [negb orb] in Ha.
    destruct (awaiting w) as [|? ?] eqn:Haw; [|done].
    pose proof (can_spawn_below_cap _ Hm Hc) as Hlt.
    unfold active_count, max_concurrent in Hlt.
    destruct (request_spawn_begin_frame (arg_name a) (arg_role a) (arg_description a)
                (arg_permissions a) (arg_lifespan a) (arg_reason a) (arg_icon a)
                (module_state w)) as [Hact Hpol].
    destruct (request_spawn_begin _ _ _ _ _ _ _ _) as [[call|e] s']; cbn [snd] in *;
      (eexists; split; [reflexivity|]);
      cbn [module_state awaiting with_module]; rewrite ?Haw, Hact;
      (split; [done|]); simpl; lia.
  - apply andb_true_iff in Hd as [Hc Ha]. cbn [negb orb] in Ha.
    destruct (awaiting w) as [|? ?] eqn:Haw; [|done].
    pose proof (can_spawn_below_cap _ Hm Hc) as Hlt.
    unfold active_count, max_concurrent in Hlt.
    eexists; split; [reflexivity|].
    cbn [module_state awaiting with_module]. rewrite Haw.
    destruct (Hgrow _ (spawn_grows a (module_state w))) as [Hp Hl].
    split; [done|]. simpl. lia.
  - eexists; split; [reflexivity|]. cbn [module_state awaiting with_module].
    by destruct (terminate_frame sub reason (module_state w)) as (-> & _ & _ & ->).
  - eexists; split; [reflexivity|]. cbn [module_state awaiting with_module].
    destruct (kill_all_active reason transport (module_state w)) as [Hp [-> | ->]];
      (split; [done|]); [simpl; lia | done].
  - eexists; split; [reflexivity|]. done.
  - destruct (loop_ended w); [by eexists|].
    rewrite message_loop_turn_in_force by by apply negb_true_iff.
    destruct (message_loop_body _ _) as [[c d]|e] eqn:Hb;
      cbn [mbind result_bind fst snd]; [|by eexists].
    eexists; split; [reflexivity|].
    cbn [module_state awaiting with_module]. apply message_loop_body_policy in Hb.
    split; [unfold get_policy; cbn; by rewrite Hb | done].
  - destruct (awaiting w !! i) as [call|] eqn:Hi; [|by eexists].
    set (s := if timed_out then _ else _).
    assert (Hs : get_policy s = get_policy (module_state w) ∧
                 _active s = _active (module_state w)) by (subst s; by destruct timed_out).
    destruct Hs as [Hsp Hsa].
    assert (Hresume :
      get_policy (request_spawn_resume call s).2 = get_policy (module_state w) ∧
      Z.of_nat (length (_active (request_spawn_resume call s).2))
        + Z.of_nat (length (delete i (awaiting w)))
        ≤ max_concurrent_sub_agents (get_policy (module_state w))).
    { destruct (request_spawn_resume_grows call s) as [Hp Ha].
      split; [by rewrite Hp|].
      rewrite length_delete by eauto.
      apply lookup_lt_Some in Hi.
      destruct Ha as [-> | [sub ->]]; rewrite ?length_app, Hsa; simpl; lia. }
    destruct (futures _ !! _) as [[| |]|]; (eexists; split; [reflexivity|]);
      cbn [module_state awaiting]; done.
Qed.

(** C2, as amended: under a policy whose auto-spawn mode is not [off] and
    which stays in force, when [request_spawn] and [spawn] are called only
    after [can_spawn] answered true and only while no call of
    [request_spawn] is awaiting its reply, the number of active handles
    never exceeds [max_concurrent_sub_agents], however the replies, the
    timeouts, [terminate] and [kill_all] fall in between. *)
Theorem guarded_spawns_respect_cap (w : tasks) (ts : list turn) :
  auto_spawn_mode (get_policy (module_state w)) ≠ "off" →
  awaiting w = [] →
  active_count (module_state w) ≤ max_concurrent (module_state w) →
  policy_in_force ts = true →
  disciplined w ts = true →
  ∃ w', run_turns w ts = Some w' ∧
    active_count (module_state w') ≤ max_concurrent (module_state w').
Proof.
  intros Hm Ha Hle Hf Hd.
  assert (Hinv : active_count (module_state w) + Z.of_nat (length (awaiting w))
                 ≤ max_concurrent (module_state w)) by (rewrite Ha; simpl; lia).
  clear Ha Hle. revert w Hm Hinv Hd.
  induction ts as [|t ts IH]; intros w Hm Hinv Hd; cbn [run_turns].
  - exists w. split; [done|lia].
  - cbn [policy_in_force forallb] in Hf. apply andb_true_iff in Hf as [Hft Hf].
    unfold disciplined in Hd. cbn [follows] in Hd.
    apply andb_true_iff in Hd as [Ht Hd].
    destruct (run_turn_cap w t Hm Hinv) as (w1 & Hrun & Hp & Hcap).
    { cbn [policy_in_force forallb]. by rewrite Hft. }
    { unfold disciplined. cbn [follows]. rewrite Ht. simpl.
      by destruct (run_turn w t). }
    rewrite Hrun in Hd |- *. cbn [from_option mbind option_bind] in *.
    apply (IH Hf w1); [by rewrite Hp | | exact Hd].
    unfold max_concurrent. rewrite Hp. exact Hcap.
Qed.

Lemma is_JStr_true (s : string) (v : json) : is_JStr s v = true ↔ v = JStr s.
Proof.
  destruct v; simpl; try (split; [discriminate|discriminate]).
  rewrite bool_decide_eq_true. split; [by intros -> | by intros [= ->]].
Qed.

Lemma is_approved_approved (response : option json) :
  is_approved response = Ret true ↔
  ∃ o p, response = Some (JObj o) ∧ o !! "payload" = Some (JObj p) ∧
         p !! "decision" = Some (JStr "approved").
Proof.
  unfold is_approved. split.
  - intros Hr. destruct response as [r|]; [|done].
    destruct (json_truthy r); [|done].
    destruct r as [| | | | |o]; try done. simpl in Hr.
    destruct (o !! "payload") as [[| | | | |p]|] eqn:Hp; try done; simpl in Hr.
    destruct (p !! "decision") as [d|] eqn:Hd; simpl in Hr; [|done].
    injection Hr as Hs. apply is_JStr_true in Hs as ->. eauto.
  - intros (o & p & -> & Hp & Hd).
    assert (Ht : json_truthy (JObj o) = true).
    { simpl. rewrite bool_decide_eq_false_2; [done|]. intros ->.
      by rewrite lookup_empty in Hp. }
    rewrite Ht. simpl. rewrite Hp. simpl. by rewrite Hd.
Qed.

Lemma is_approved_refused (response : option json) :
  response = None ∨
  (∃ o p, response = Some (JObj o) ∧ o !! "payload" = Some (JObj p) ∧
          p !! "decision" ≠ Some (JStr "approved")) →
  is_approved response = Ret false.
Proof.
  unfold is_approved. intros [-> | (o & p & -> & Hp & Hd)]; [done|].
  assert (Ht : json_truthy (JObj o) = true).
  { simpl. rewrite bool_decide_eq_false_2; [done|]. intros ->.
    by rewrite lookup_empty in Hp. }
  rewrite Ht. simpl. rewrite Hp. simpl.
  destruct (p !! "decision") as [d|]; simpl; [|done].
  destruct (is_JStr "approved" d) eqn:Hs; [|done].
  apply is_JStr_true in Hs as ->. done.
Qed.

Lemma request_spawn_decided (name : string) (role description : option string)
    (permissions : option (list (gmap string json))) (lifespan : string)
    (reason icon : option string) (response : option json) (s : state) :
  ∃ c' sub,
    sub_name sub = name ∧ sub_status sub = "online" ∧
    request_spawn name role description permissions lifespan reason icon response s
      = match is_approved response with
        | Raise e => (Raise e, set_connection (λ _, c') s)
        | Ret true => (Ret (Some sub), register sub (set_connection (λ _, c') s))
        | Ret false => (Ret None, set_connection (λ _, c') s)
        end.
Proof.
  unfold request_spawn, fresh_uuid, now. cbv zeta.
  match goal with |- context [_request ?m ?r ?c] =>
    destruct (spawn_request_message_payload
                ("spawn_req_" ++ str_take 12 (uuid4_hex (uuid_calls (_connection s))))
                (make_sub_agent_id name
                   (uuid4_hex (uuid_calls (set_uuid_calls S (_connection s)))))
                ("msg_" ++ str_take 12
                   (uuid4_hex (uuid_calls (set_uuid_calls S
                                             (set_uuid_calls S (_connection s))))))
                (now_timestamp (clock_calls (set_uuid_calls S (set_uuid_calls S
                                               (set_uuid_calls S (_connection s))))))
                name role description permissions lifespan reason icon)
      as (p & Hp & Hr);
    destruct (_request_runs m (JStr ("spawn_req_"
                ++ str_take 12 (uuid4_hex (uuid_calls (_connection s)))))
                (Some (inl ("spawn_req_"
                   ++ str_take 12 (uuid4_hex (uuid_calls (_connection s))))))
                r c) as (c' & -> & _)
  end.
  - unfold request_id_of. rewrite Hp. cbn [from_option py_get id]. by rewrite Hr.
  - reflexivity.
  - eexists c', _. split; [|split; [|cbn [mbind result_bind]; reflexivity]]; reflexivity.
Qed.

(** [request_spawn] answered by a reply whose payload has the decision
    [approved] returns an online handle of the requested name, appends it
    to the active list and counts it; on a timeout, and on a reply whose
    payload has another decision or none, it returns nothing and leaves the
    active list and the counter as they were. *)
Theorem request_spawn_outcome (a : spawn_args) (response : option json) (s : state) :
  ((∃ o p, response = Some (JObj o) ∧ o !! "payload" = Some (JObj p) ∧
           p !! "decision" = Some (JStr "approved")) →
   ∃ sub, (do_request_spawn a response s).1 = Ret (Some sub) ∧
     sub_name sub = arg_name a ∧ sub_status sub = "online" ∧
     _active (do_request_spawn a response s).2 = (_active s ++ [sub])%list ∧
     _spawned_this_hour (do_request_spawn a response s).2 = _spawned_this_hour s + 1) ∧
  (response = None ∨
   (∃ o p, response = Some (JObj o) ∧ o !! "payload" = Some (JObj p) ∧
           p !! "decision" ≠ Some (JStr "approved")) →
   (do_request_spawn a response s).1 = Ret None ∧
   _active (do_request_spawn a response s).2 = _active s ∧
   _spawned_this_hour (do_request_spawn a response s).2 = _spawned_this_hour s).
Proof.
  unfold do_request_spawn.
  destruct (request_spawn_decided (arg_name a) (arg_role a) (arg_description a)
              (arg_permissions a) (arg_lifespan a) (arg_reason a) (arg_icon a)
              response s) as (c' & sub & Hn & Hst & ->).
  split.
  - intros Ha. apply is_approved_approved in Ha. rewrite Ha.
    exists sub. repeat split; done.
  - intros Hr. apply is_approved_refused in Hr. rewrite Hr. done.
Qed.

Lemma terminate_sends (sub : SubAgent) (reason : string) (s : state) :
  ∃ frame p,
    sent (_connection (terminate sub reason s))
      = (sent (_connection s) ++ [JObj frame])%list ∧
    frame !! "type" = Some (JStr "sub_agent_terminate") ∧
    frame !! "payload" = Some (JObj p) ∧
    p !! "sub_agent_id" = Some (JStr (sub_id sub)).
Proof.
  unfold terminate. cbn [_connection set_connection].
  match goal with |- context [send ?m ?c] =>
    destruct (send_frame_spec m c) as (frame & Hs & _ & _ & Hk & _) end.
  eexists frame, _. split; [exact Hs|].
  split; [by rewrite Hk|]. split; [rewrite Hk by done; reflexivity|]. done.
Qed.

Lemma terminate_each_sent (reason : string) (transport : nat → option exn) (k : nat)
    (subs : list SubAgent) (s : state) :
  (∀ i, (i < length subs)%nat → transport (k + i)%nat = None) →
  (terminate_each reason transport k subs s).1 = Ret () ∧
  ∃ frames,
    sent (_connection (terminate_each reason transport k subs s).2)
      = (sent (_connection s) ++ frames)%list ∧
    length frames = length subs ∧
    ∀ i sub, subs !! i = Some sub →
      ∃ frame p, frames !! i = Some (JObj frame) ∧
        frame !! "type" = Some (JStr "sub_agent_terminate") ∧
        frame !! "payload" = Some (JObj p) ∧
        p !! "sub_agent_id" = Some (JStr (sub_id sub)).
Proof.
  revert k s. induction subs as [|sub subs IH]; intros k s Hup; cbn [terminate_each].
  - split; [done|]. exists []. split; [by rewrite app_nil_r|]. split; [done|].
    intros i sub Hi. by rewrite lookup_nil in Hi.
  - pose proof (Hup 0%nat ltac:(simpl; lia)) as H0. rewrite Nat.add_0_r in H0.
    rewrite H0.
    destruct (IH (S k) (terminate sub reason s)) as (Hr & frames & Hs & Hl & Hf).
    { intros i Hi. replace (S k + i)%nat with (k + S i)%nat by lia.
      apply Hup. simpl. lia. }
    split; [exact Hr|].
    destruct (terminate_sends sub reason s) as (frame & p & Hs1 & Hty & Hp & Hid).
    exists (JObj frame :: frames). split; [|split].
    + rewrite Hs, Hs1. by rewrite <- app_assoc.
    + simpl. by rewrite Hl.
    + intros [|i] sub' Hi; simpl in Hi.
      * injection Hi as <-. by exists frame, p.
      * by apply Hf.
Qed.

Lemma terminate_each_raises (reason : string) (transport : nat → option exn)
    (k j : nat) (e : exn) (subs : list SubAgent) (s : state) :
  (j < length subs)%nat → transport (k + j)%nat = Some e →
  (∀ i, (i < j)%nat → transport (k + i)%nat = None) →
  (terminate_each reason transport k subs s).1 = Raise e ∧
  ∃ frames,
    sent (_connection (terminate_each reason transport k subs s).2)
      = (sent (_connection s) ++ frames)%list ∧
    length frames = j.
Proof.
  revert k j s. induction subs as [|sub subs IH]; intros k j s Hj He Hup;
    cbn [terminate_each]; [simpl in Hj; lia|].
  destruct j as [|j].
  - rewrite Nat.add_0_r in He. rewrite He. split; [done|].
    exists []. split; [|done]. cbn [snd]. rewrite app_nil_r.
    by destruct (terminate_raises_frame sub reason s) as (_ & _ & _ & ->).
  - pose proof (Hup 0%nat ltac:(lia)) as H0. rewrite Nat.add_0_r in H0. rewrite H0.
    destruct (IH (S k) j (terminate sub reason s)) as (Hr & frames & Hs & Hl).
    { simpl in Hj. lia. }
    { by replace (S k + j)%nat with (k + S j)%nat by lia. }
    { intros i Hi. replace (S k + i)%nat with (k + S i)%nat by lia.
      apply Hup. lia. }
    split; [exact Hr|].
    destruct (terminate_sends sub reason s) as (frame & p & Hs1 & _).
    exists (JObj frame :: frames). split; [|simpl; by rewrite Hl].
    rewrite Hs, Hs1. by rewrite <- app_assoc.
Qed.

(** [kill_all] leaves the policy as it is.  When the transport takes every
    frame it sends one termination notice for each active handle, in the
    order of the list, and leaves the list empty.  When the transport
    raises on the frame of the [k]-th handle, the exception leaves
    [kill_all] there: the notices of the handles before it were sent, the
    others were not, and the active list is not cleared. *)
Theorem kill_all_outcome (reason : string) (transport : nat → option exn) (s : state) :
  get_policy (kill_all reason transport s).2 = get_policy s ∧
  ((∀ i, (i < length (_active s))%nat → transport i = None) →
   (kill_all reason transport s).1 = Ret () ∧
   _active (kill_all reason transport s).2 = [] ∧
   ∃ frames,
     sent (_connection (kill_all reason transport s).2)
       = (sent (_connection s) ++ frames)%list ∧
     length frames = length (_active s) ∧
     ∀ i sub, _active s !! i = Some sub →
       ∃ frame p, frames !! i = Some (JObj frame) ∧
         frame !! "type" = Some (JStr "sub_agent_terminate") ∧
         frame !! "payload" = Some (JObj p) ∧
         p !! "sub_agent_id" = Some (JStr (sub_id sub))) ∧
  (∀ k e, (k < length (_active s))%nat → transport k = Some e →
     (∀ i, (i < k)%nat → transport i = None) →
     (kill_all reason transport s).1 = Raise e ∧
     _active (kill_all reason transport s).2 = _active s ∧
     ∃ frames,
       sent (_connection (kill_all reason transport s).2)
         = (sent (_connection s) ++ frames)%list ∧
       length frames = k).
Proof.
  split; [apply kill_all_active|]. split.
  - intros Hup. unfold kill_all.
    destruct (terminate_each_sent reason transport 0 (_active s) s Hup)
      as (Hr & frames & Hs & Hl & Hf).
    destruct (terminate_each _ _ _ _ _) as [[[]|e] s']; [|done].
    cbn [fst snd] in *. split; [done|]. split; [done|]. by exists frames.
  - intros k e Hk He Hup. unfold kill_all.
    destruct (terminate_each_raises reason transport 0 k e (_active s) s Hk He Hup)
      as (Hr & frames & Hs & Hl).
    destruct (terminate_each_frame reason transport 0 (_active s) s) as (Ha & _).
    destruct (terminate_each _ _ _ _ _) as [[[]|e'] s']; [done|].
    cbn [fst snd] in *. injection Hr as ->. split; [done|]. split; [done|].
    by exists frames.
Qed.

End TurnsFacts.

Lemma kill_all_outcome_witness :
  (kill_all (H:=home_host) "User requested" (transport_down_at 1)
     (set_active (λ _, [new_sub_agent "sub_a" "a" None; new_sub_agent "sub_b" "b" None])
        initial_state)).1 = Raise AttributeError ∧
  _active (kill_all (H:=home_host) "User requested" (transport_down_at 1)
     (set_active (λ _, [new_sub_agent "sub_a" "a" None; new_sub_agent "sub_b" "b" None])
        initial_state)).2
  = [new_sub_agent "sub_a" "a" None; new_sub_agent "sub_b" "b" None] ∧
  ∃ frames,
    sent (_connection
            (kill_all (H:=home_host) "User requested" (transport_down_at 1)
               (set_active
                  (λ _, [new_sub_agent "sub_a" "a" None; new_sub_agent "sub_b" "b" None])
                  initial_state)).2)
      = (sent (_connection initial_state) ++ frames)%list ∧
    length frames = 1%nat.
Proof.
  apply (proj2 (proj2 (kill_all_outcome (H:=home_host) "User requested"
                         (transport_down_at 1)
                         (set_active
                            (λ _, [new_sub_agent "sub_a" "a" None;
                                   new_sub_agent "sub_b" "b" None])
                            initial_state))) 1%nat AttributeError).
  - simpl. lia.
  - reflexivity.
  - intros i Hi. assert (i = 0%nat) as -> by lia. reflexivity.
Defined.

(** ** The properties above at sample inputs *)

Lemma _request_leaves_no_entry_witness :
  ∃ rid key,
    request_id_of (confirmation_request "cfm_1") = Ret rid ∧ to_key rid = Ret key ∧
    _pending_responses
      (_request (confirmation_request "cfm_1")
         (Some (confirmation_reply "cfm_1" "confirm")) one_request_pending).2
      = delete key (_pending_responses one_request_pending) ∧
    sent (_request (confirmation_request "cfm_1")
            (Some (confirmation_reply "cfm_1" "confirm")) one_request_pending).2
      = (sent one_request_pending ++ [JObj (confirmation_request "cfm_1")])%list ∧
    Some (confirmation_reply "cfm_1" "confirm")
      = Some (confirmation_reply "cfm_1" "confirm").
Proof.
  apply (_request_leaves_no_entry (confirmation_request "cfm_1")
           (Some (confirmation_reply "cfm_1" "confirm"))
           (Some (confirmation_reply "cfm_1" "confirm")) one_request_pending).
  vm_compute. reflexivity.
Defined.

Lemma registered_handler_takes_frame_witness :
  message_loop_body (on "typing_indicator" accept_all new_connection) (JObj typing_frame)
  = Ret (on "typing_indicator" accept_all new_connection, Handled "typing_indicator").
Proof.
  apply (registered_handler_takes_frame new_connection "typing_indicator" accept_all
           typing_frame).
  - reflexivity.
  - left. reflexivity.
Defined.

Lemma late_reply_dropped_witness :
  message_loop_body new_connection (JObj (confirmation_reply_frame "cfm_1" "confirm"))
  = Ret (new_connection, Dropped).
Proof.
  apply (late_reply_dropped new_connection "confirmation_response"
           (confirmation_reply_frame "cfm_1" "confirm")).
  - reflexivity.
  - right. eexists. split; [reflexivity|]. right.
    exists (JStr "cfm_1"), (Some (inl "cfm_1")). repeat split; reflexivity.
  - reflexivity.
  - discriminate.
  - discriminate.
Defined.

Lemma reply_resolves_request_witness :
  message_loop_body one_request_pending
    (JObj (confirmation_reply_frame "cfm_1" "confirm"))
  = Ret (set_futures
           (<[0%nat := Finished (JObj (confirmation_reply_frame "cfm_1" "confirm"))]>)
           one_request_pending,
         Resolved (Some (inl "cfm_1"))) ∧
  _request_value 0
    (set_futures
       (<[0%nat := Finished (JObj (confirmation_reply_frame "cfm_1" "confirm"))]>)
       one_request_pending)
  = Some (JObj (confirmation_reply_frame "cfm_1" "confirm")).
Proof.
  apply (reply_resolves_request one_request_pending
           (confirmation_reply_frame "cfm_1" "confirm")
           (list_to_map [("request_id", JStr "cfm_1"); ("action", JStr "confirm")])
           (JStr "cfm_1") (Some (inl "cfm_1")) 0%nat).
  - reflexivity.
  - reflexivity.
  - reflexivity.
  - vm_compute. reflexivity.
  - vm_compute. reflexivity.
Defined.

Lemma update_attrs_compose_witness :
  update_attrs default_policy (cap_update ∪ mode_update)
  = Some (with_mode "trusted" 2 10 default_policy).
Proof.
  apply (update_attrs_compose default_policy (with_mode "trusted" 5 10 default_policy)
           (with_mode "trusted" 2 10 default_policy) mode_update cap_update).
  - vm_compute. reflexivity.
  - vm_compute. reflexivity.
Defined.

Lemma mode_update_well_typed : well_typed mode_update.
Proof.
  intros key v Hk. unfold mode_update in Hk.
  apply lookup_singleton_Some in Hk as [<- <-].
  split; [reflexivity|]. intros f [= <-]. by eexists.
Qed.

Lemma policy_update_applies_witness :
  ∃ cfg',
    message_loop_turn new_connection (JObj (policy_push mode_update))
      = Ret (Some (set_policy (λ _, cfg') new_connection),
             PolicyUpdate (JObj mode_update)) ∧
    ∀ f, field_after (policy new_connection) cfg' mode_update f.
Proof.
  apply (policy_update_applies new_connection (policy_push mode_update) mode_update).
  - reflexivity.
  - reflexivity.
  - right. eexists. split; [reflexivity|]. left. reflexivity.
  - reflexivity.
  - exact mode_update_well_typed.
Defined.

Lemma policy_update_shadowed_witness :
  message_loop_turn (on "policy_update" accept_all new_connection)
    (JObj (policy_push mode_update))
  = Ret (Some (on "policy_update" accept_all new_connection), Handled "policy_update") ∧
  policy (on "policy_update" accept_all new_connection) = policy new_connection.
Proof.
  apply (policy_update_shadowed new_connection accept_all (policy_push mode_update)).
  - reflexivity.
  - right. eexists. split; [reflexivity|]. left. reflexivity.
  - reflexivity.
Defined.

Lemma missing_payload_stops_loop_witness :
  message_loop_body new_connection (JObj push_without_payload) = Raise KeyError.
Proof.
  apply (proj1 (missing_payload_stops_loop new_connection push_without_payload
                  accept_all eq_refl)).
  - reflexivity.
  - reflexivity.
Defined.

Lemma update_steps_spec_witness :
  update_steps (Some build_steps) (Some 1) None
  = Ret (Some (step_entries build_steps 1)) ∧
  update_steps (Some build_steps) (Some 3) (Some "failed") = Raise IndexError.
Proof.
  split.
  - apply (proj1 (update_steps_spec build_steps 1 None ltac:(discriminate))).
    reflexivity.
  - apply (proj2 (update_steps_spec build_steps 3 (Some "failed") ltac:(discriminate))).
    + reflexivity.
    + reflexivity.
Defined.

Lemma confirmation_reply_confirms (request_id : string) :
  confirms (Some (confirmation_reply request_id "confirm")).
Proof. eexists _, _. repeat split; reflexivity. Qed.

(** Under the default policy a write outside the forbidden paths is asked
    about twice, and is made when both questions are confirmed and not when
    the second is left unanswered. *)
Lemma handle_file_write_executes_witness :
  calls (handle_file_write (H:=home_host) sample_step
           (Some (confirmation_reply "cfm_1" "confirm"))
           (Some (confirmation_reply "cfm_2" "confirm")) fresh_world).2 = [Execute] ∧
  calls (handle_file_write (H:=home_host) sample_step
           (Some (confirmation_reply "cfm_1" "confirm")) None fresh_world).2 = [].
Proof.
  split.
  - apply (proj2 (handle_file_write_executes (H:=home_host) sample_step
                    (Some (confirmation_reply "cfm_1" "confirm"))
                    (Some (confirmation_reply "cfm_2" "confirm")) fresh_world)).
    split; [vm_compute; reflexivity|]. split.
    + right. split; [vm_compute; reflexivity | apply confirmation_reply_confirms].
    + intros _. apply confirmation_reply_confirms.
  - destruct (handle_file_write_executes (H:=home_host) sample_step
                (Some (confirmation_reply "cfm_1" "confirm")) None fresh_world)
      as [[Hc|Hc] Hiff]; [|exact Hc].
    apply Hiff in Hc as (_ & _ & Hw).
    destruct (Hw eq_refl) as (o & p & Hn & _). discriminate Hn.
Defined.

(** Under the default policy the shell is forbidden: nothing runs, even for
    a command with no token. *)
Lemma handle_shell_command_outcome_witness :
  (handle_shell_command (H:=home_host) sample_step
     (Some (confirmation_reply "cfm_1" "confirm")) fresh_world).1 = Ret () ∧
  calls (handle_shell_command (H:=home_host) sample_step
           (Some (confirmation_reply "cfm_1" "confirm")) fresh_world).2 = [].
Proof.
  destruct (proj1 (handle_shell_command_outcome (H:=home_host) sample_step
                     (Some (confirmation_reply "cfm_1" "confirm")) fresh_world)
              eq_refl) as (Hr & Hc & _).
  split; [exact Hr | exact Hc].
Defined.

(** An approved sub-agent is still in the active list when the handler
    has terminated it and returned. *)
Lemma handle_sub_agent_outcome_witness :
  active_count (sdk (handle_sub_agent (H:=home_host) sample_step
                       (Some (approval "spawn_req_1")) fresh_world).2) = 1.
Proof.
  destruct (proj1 (proj2 (handle_sub_agent_outcome (H:=home_host) sample_step
                            (Some (approval "spawn_req_1")) fresh_world) eq_refl)
              ltac:(vm_compute; reflexivity))
    as (_ & _ & sub & frames & frame & p & _ & Ha & _).
  unfold active_count. rewrite Ha. reflexivity.
Defined.

(** A permission that is in no list of the default policy: the wrapped
    function runs unasked. *)
Lemma spawn_safe_guard_witness :
  calls (spawn_safe (H:=home_host) "network.admin" "high" "open_port"
           (calling Execute) None fresh_world).2 = [Execute].
Proof.
  rewrite (proj1 (proj2 (spawn_safe_guard (H:=home_host) "network.admin" "high"
                           "open_port" None fresh_world)) eq_refl eq_refl).
  reflexivity.
Defined.

(** C2, counterexample: under the default policy, whose mode is [off], six
    spawn requests made one after the other, each after [can_spawn]
    answered true and each approved, leave six active handles against a
    cap of five.  In [trusted] mode with a cap of one, two requests that
    are both made after [can_spawn] answered true, before either reply
    arrives, leave two active handles.  In [unrestricted] mode two direct
    spawns leave two active handles against a cap of one. *)
Lemma spawns_exceed_cap :
  (policy_in_force six_approved_requests = true ∧
   disciplined (H:=serial_host) (start initial_state) six_approved_requests = true ∧
   (λ w, (max_concurrent (module_state w), active_count (module_state w)))
     <$> run_turns (H:=serial_host) (start initial_state) six_approved_requests
   = Some (5, 6)) ∧
  (policy_in_force overlapping_requests = true ∧
   guarded (H:=serial_host)
     (start (state_with (with_mode "trusted" 1 10 default_policy)))
     overlapping_requests = true ∧
   (λ w, (max_concurrent (module_state w), active_count (module_state w)))
     <$> run_turns (H:=serial_host)
           (start (state_with (with_mode "trusted" 1 10 default_policy)))
           overlapping_requests
   = Some (1, 2)) ∧
  (λ w, (max_concurrent (module_state w), active_count (module_state w)))
    <$> run_turns (H:=serial_host)
          (start (state_with (with_mode "unrestricted" 1 10 default_policy)))
          [TSpawn worker; TSpawn worker]
  = Some (1, 2).
Proof. repeat split; vm_compute; reflexivity. Qed.

Lemma guarded_spawns_respect_cap_witness :
  ∃ w', run_turns (H:=serial_host)
          (start (state_with (with_mode "trusted" 2 10 default_policy)))
          busy_schedule = Some w' ∧
    active_count (module_state w') ≤ max_concurrent (module_state w').
Proof.
  apply (guarded_spawns_respect_cap (H:=serial_host)
           (start (state_with (with_mode "trusted" 2 10 default_policy)))
           busy_schedule).
  - discriminate.
  - reflexivity.
  - vm_compute. discriminate.
  - vm_compute. reflexivity.
  - vm_compute. reflexivity.
Defined.

Lemma busy_schedule_runs :
  (λ w, (active_count (module_state w), length (awaiting w),
         length (sent (_connection (module_state w)))))
    <$> run_turns (H:=serial_host)
          (start (state_with (with_mode "trusted" 2 10 default_policy)))
          busy_schedule
  = Some (1, 0%nat, 10%nat).
Proof. vm_compute. reflexivity. Qed.

Lemma request_spawn_outcome_witness :
  ∃ sub,
    (do_request_spawn (H:=home_host) worker (Some (approval "spawn_req_0123456789ab"))
       initial_state).1 = Ret (Some sub) ∧
    sub_name sub = arg_name worker ∧ sub_status sub = "online" ∧
    _active (do_request_spawn (H:=home_host) worker
               (Some (approval "spawn_req_0123456789ab")) initial_state).2
      = (_active initial_state ++ [sub])%list ∧
    _spawned_this_hour (do_request_spawn (H:=home_host) worker
                          (Some (approval "spawn_req_0123456789ab")) initial_state).2
      = _spawned_this_hour initial_state + 1.
Proof.
  apply (proj1 (request_spawn_outcome (H:=home_host) worker
                  (Some (approval "spawn_req_0123456789ab")) initial_state)).
  eexists _, _. repeat split; reflexivity.
Defined.
